(** * sqlchain: the chain orchestrator of the per-database SQL-chain

    A shallow embedding of [sqlchain/chain.go] (package [sqlchain]): the
    height keys of the on-disk store, the bbolt store the chain persists
    into, the in-memory indices and the runtime the chain drives, and the
    chain operations themselves, followed by the properties the
    specification states about them.

    Conventions.
    - A Go [int32] is a [Z]; arithmetic the code performs on it is wrapped
      with [wrap32], a conversion to [uint32] with [to_uint32].
    - A byte is a [Z] in [0, 256); a [[]byte] is a [list Z].
    - A Go pointer that may be [nil] is an [option]; a Go [error] result is
      an [option error] with [None] for [nil].
    - A run-time panic (a [nil] dereference, an index out of range) is the
      outcome [Panic]. *)

From Stdlib Require Import ZArith List Bool Lia.
From stdpp Require Import base option list gmap strings.

Local Open Scope Z_scope.

(** ** Machine integers and bytes *)

Definition byte := Z.
Definition bytes := list Z.

Definition wrap32 (z : Z) : Z := (z + 2 ^ 31) mod 2 ^ 32 - 2 ^ 31.
Definition to_uint32 (z : Z) : Z := z mod 2 ^ 32.
Definition is_int32 (z : Z) : Prop := - 2 ^ 31 <= z < 2 ^ 31.

(** [binary.BigEndian.PutUint32]. *)
Definition PutUint32 (v : Z) : bytes :=
  [ Z.land (Z.shiftr v 24) 255;
    Z.land (Z.shiftr v 16) 255;
    Z.land (Z.shiftr v 8) 255;
    Z.land v 255 ].

(** [binary.BigEndian.Uint32]: the slice must hold four bytes (the bounds
    check [_ = b[3]] panics otherwise); longer slices are read at their
    first four bytes. *)
Definition Uint32 (b : bytes) : option Z :=
  match b with
  | b0 :: b1 :: b2 :: b3 :: _ =>
      Some (Z.lor (Z.lor (Z.lor b3 (Z.shiftl b2 8)) (Z.shiftl b1 16))
                  (Z.shiftl b0 24))
  | _ => None
  end.

(** heightToKey converts a height in int32 to a key in bytes. *)
Definition heightToKey (h : Z) : bytes := PutUint32 (to_uint32 h).

(** keyToHeight converts a height back from a key in bytes. *)
Definition keyToHeight (k : bytes) : option Z :=
  match Uint32 k with
  | Some u => Some (wrap32 u)
  | None => None
  end.

(** [bytes.Compare a b < 0]: the order bbolt keeps the keys of a bucket in. *)
Fixpoint bytes_ltb (a b : bytes) : bool :=
  match a, b with
  | [], [] => false
  | [], _ :: _ => true
  | _ :: _, [] => false
  | x :: a', y :: b' =>
      if x <? y then true
      else if y <? x then false
      else bytes_ltb a' b'
  end.

(** ** Outcomes and errors *)

(** What a call does: it returns, it panics, or the loop it runs was not
    given enough iterations. *)
Inductive outcome (A : Type) : Type :=
  | Done (a : A)
  | Panic
  | OutOfFuel.
Arguments Done {A} a.
Arguments Panic {A}.
Arguments OutOfFuel {A}.

#[global] Instance outcome_ret : MRet outcome := fun A a => Done a.

#[global] Instance outcome_bind : MBind outcome := fun A B k o =>
  match o with
  | Done a => k a
  | Panic => Panic
  | OutOfFuel => OutOfFuel
  end.

(** The errors of bbolt the chain can meet. *)
Inductive boltError : Type :=
  | ErrBucketExists
  | ErrBucketNameRequired
  | ErrIncompatibleValue
  | ErrKeyRequired
  | ErrKeyTooLarge
  | ErrValueTooLarge.

(** The errors of the package, the store's errors, and the errors of the
    collaborators (codec, signature checks, RPC), which carry a message. *)
Inductive error : Type :=
  | ErrInvalidBlock
  | ErrUnknownProducer
  | ErrInvalidProducer
  | ErrParentNotFound
  | ErrQueryExpired
  | ErrQueryNotCached
  | ErrBolt (e : boltError)
  | ErrExternal (msg : string).

Definition wrapBolt (e : option boltError) : option error :=
  match e with
  | Some e => Some (ErrBolt e)
  | None => None
  end.

(** ** The bbolt store

    A bucket holds its keys in byte order; a key names either a value or a
    nested bucket.  A [*bolt.Bucket] is the path of bucket names that leads
    to it from the root of the transaction, [None] when the pointer is
    [nil]. *)

#[warnings="-register-all"]
Inductive entry : Type :=
  | Val (v : bytes)
  | Bkt (kvs : list (bytes * entry)).

Definition bucket : Type := list (bytes * entry).
Definition handle : Type := option (list bytes).

Definition MaxKeySize : Z := 32768.
Definition MaxValueSize : Z := 2 ^ 31 - 2.

Fixpoint lookup_key (k : bytes) (b : bucket) : option entry :=
  match b with
  | [] => None
  | (k', n) :: r => if decide (k = k') then Some n else lookup_key k r
  end.

Fixpoint insert_key (k : bytes) (n : entry) (b : bucket) : bucket :=
  match b with
  | [] => [(k, n)]
  | (k', n') :: r =>
      if decide (k = k') then (k, n) :: r
      else if bytes_ltb k k' then (k, n) :: (k', n') :: r
      else (k', n') :: insert_key k n r
  end.

Fixpoint resolve (p : list bytes) (root : bucket) : option bucket :=
  match p with
  | [] => Some root
  | name :: p' =>
      match lookup_key name root with
      | Some (Bkt sub) => resolve p' sub
      | _ => None
      end
  end.

Fixpoint update_at (p : list bytes) (f : bucket -> bucket) (root : bucket) : bucket :=
  match p with
  | [] => f root
  | name :: p' =>
      match lookup_key name root with
      | Some (Bkt sub) => insert_key name (Bkt (update_at p' f sub)) root
      | _ => root
      end
  end.

(** [tx.Bucket(name)]. *)
Definition Tx_Bucket (tx : bucket) (name : bytes) : handle :=
  match lookup_key name tx with
  | Some (Bkt _) => Some [name]
  | _ => None
  end.

(** [tx.CreateBucketIfNotExists(name)] and [b.CreateBucketIfNotExists(name)]. *)
Definition Bucket_CreateBucketIfNotExists (tx : bucket) (b : handle) (name : bytes)
  : outcome (handle * option boltError * bucket) :=
  match b with
  | None => Panic
  | Some p =>
      match resolve p tx with
      | None => Panic
      | Some kvs =>
          if (Z.of_nat (length name) =? 0) then Done (None, Some ErrBucketNameRequired, tx)
          else match lookup_key name kvs with
               | Some (Bkt _) => Done (Some (p ++ [name]), None, tx)
               | Some (Val _) => Done (None, Some ErrIncompatibleValue, tx)
               | None => Done (Some (p ++ [name]), None,
                               update_at p (insert_key name (Bkt [])) tx)
               end
      end
  end.

(** [b.Bucket(name)]: [nil] when the key is absent or names a value. *)
Definition Bucket_Bucket (tx : bucket) (b : handle) (name : bytes) : outcome handle :=
  match b with
  | None => Panic
  | Some p =>
      match resolve p tx with
      | None => Panic
      | Some kvs =>
          match lookup_key name kvs with
          | Some (Bkt _) => Done (Some (p ++ [name]))
          | _ => Done None
          end
      end
  end.

(** [b.CreateBucket(name)]. *)
Definition Bucket_CreateBucket (tx : bucket) (b : handle) (name : bytes)
  : outcome (handle * option boltError * bucket) :=
  match b with
  | None => Panic
  | Some p =>
      match resolve p tx with
      | None => Panic
      | Some kvs =>
          if (Z.of_nat (length name) =? 0) then Done (None, Some ErrBucketNameRequired, tx)
          else match lookup_key name kvs with
               | Some (Bkt _) => Done (None, Some ErrBucketExists, tx)
               | Some (Val _) => Done (None, Some ErrIncompatibleValue, tx)
               | None => Done (Some (p ++ [name]), None,
                               update_at p (insert_key name (Bkt [])) tx)
               end
      end
  end.

(** [b.Get(key)]: [nil] when the key is absent or names a nested bucket. *)
Definition Bucket_Get (tx : bucket) (b : handle) (key : bytes) : outcome (option bytes) :=
  match b with
  | None => Panic
  | Some p =>
      match resolve p tx with
      | None => Panic
      | Some kvs =>
          match lookup_key key kvs with
          | Some (Val v) => Done (Some v)
          | _ => Done None
          end
      end
  end.

(** [b.Put(key, value)]. *)
Definition Bucket_Put (tx : bucket) (b : handle) (key value : bytes)
  : outcome (option boltError * bucket) :=
  match b with
  | None => Panic
  | Some p =>
      match resolve p tx with
      | None => Panic
      | Some kvs =>
          if (Z.of_nat (length key) =? 0) then Done (Some ErrKeyRequired, tx)
          else if (Z.of_nat (length key) >? MaxKeySize) then Done (Some ErrKeyTooLarge, tx)
          else if (Z.of_nat (length value) >? MaxValueSize) then Done (Some ErrValueTooLarge, tx)
          else match lookup_key key kvs with
               | Some (Bkt _) => Done (Some ErrIncompatibleValue, tx)
               | _ => Done (None, update_at p (insert_key key (Val value)) tx)
               end
      end
  end.

(** The pairs [b.ForEach] hands to its callback, in key order; the value of
    a nested bucket is [nil], an empty slice. *)
Definition Bucket_items (tx : bucket) (b : handle) : outcome (list (bytes * bytes)) :=
  match b with
  | None => Panic
  | Some p =>
      match resolve p tx with
      | None => Panic
      | Some kvs =>
          Done (map (fun kv => (fst kv, match snd kv with Val v => v | Bkt _ => [] end)) kvs)
      end
  end.

(** The bucket names of the chain's layout. *)
Definition bytes_of_string (s : string) : bytes :=
  map (fun a => Z.of_N (Ascii.N_of_ascii a)) (String.list_ascii_of_string s).

Definition metaBucket : bytes := [0; 0; 0; 0].
Definition metaStateKey : bytes := bytes_of_string "thunderdb-state".
Definition metaBlockIndexBucket : bytes := bytes_of_string "thunderdb-block-index-bucket".
Definition metaHeightIndexBucket : bytes := bytes_of_string "thunderdb-query-height-index-bucket".
Definition metaRequestIndexBucket : bytes := bytes_of_string "thunderdb-query-reqeust-index-bucket".
Definition metaResponseIndexBucket : bytes := bytes_of_string "thunderdb-query-response-index-bucket".
Definition metaAckIndexBucket : bytes := bytes_of_string "thunderdb-query-ack-index-bucket".

(** ** Blocks, queries and chain state

    Modelled from the spec: the declarations of [ct.Block],
    [wt.SignedResponseHeader], [wt.SignedAckHeader] and [state] are not in
    this file of the package; the records carry the fields of the data model
    (section 3 of the specification) under the names the code reads them by.
    A timestamp is an instant in nanoseconds. *)

Definition Hash : Type := bytes.
Definition NodeID : Type := string.

Record Header : Type := {
  Version : Z;
  Producer : NodeID;
  GenesisHash : Hash;
  ParentHash : Hash;
  MerkleRoot : Hash;
  Timestamp : Z
}.

Record SignedHeader : Type := {
  SignedHeader_Header :> Header;
  BlockHash : Hash;
  Signee : bytes;
  Signature : bytes
}.

Record Block : Type := {
  Block_SignedHeader :> SignedHeader;
  Queries : list Hash
}.

Record Request : Type := {
  Request_Timestamp : Z;
  Request_QueryHash : Hash
}.

Record SignedResponseHeader : Type := {
  Response_Request : Request;
  Response_Timestamp : Z;
  Response_RowCount : Z;
  Response_HeaderHash : Hash;
  Response_Signature : bytes
}.

Record SignedAckHeader : Type := {
  Ack_Response : SignedResponseHeader;
  Ack_Timestamp : Z;
  Ack_HeaderHash : Hash;
  Ack_Signature : bytes
}.

(** [ack.SignedResponseHeader()]. *)
Definition Ack_SignedResponseHeader (ack : SignedAckHeader) : SignedResponseHeader :=
  Ack_Response ack.

(** ** Block nodes and the block index

    Modelled from the spec: [blockNode] and [blockIndex] are declared in
    another file of the package.  A node carries its height, its hash, its
    block and a back-reference to its parent (section 3); the index maps a
    block hash to its node, and [ancestor] follows parents until a node of
    the wanted height or the root is reached (section 4.2).  The store keeps
    a block under its hash (section 4.1). *)

#[warnings="-register-all"]
Inductive blockNode : Type :=
  mkBlockNode {
    bn_hash : Hash;
    bn_parent : option blockNode;
    bn_block : Block;
    bn_height : Z
  }.

Definition newBlockNode (h : Z) (b : Block) (p : option blockNode) : blockNode :=
  {| bn_hash := BlockHash b; bn_parent := p; bn_block := b; bn_height := h |}.

Definition indexKey (bn : blockNode) : bytes := bn_hash bn.

Fixpoint ancestor (bn : blockNode) (h : Z) : option blockNode :=
  match bn with
  | mkBlockNode _ p _ ht =>
      if ht =? h then Some bn
      else match p with
           | Some pn => ancestor pn h
           | None => None
           end
  end.

Definition blockIndex : Type := gmap Hash blockNode.

Definition newBlockIndex : blockIndex := ∅.

Definition addBlock (bn : blockNode) (bi : gmap Hash blockNode) : gmap Hash blockNode :=
  <[bn_hash bn := bn]> bi.

Definition lookupNode (h : Hash) (bi : gmap Hash blockNode) : option blockNode :=
  bi !! h.

(** The persistent singleton: the head of the chain. *)
Record state : Type := {
  node : option blockNode;
  Head : Hash;
  Height : Z
}.

(** ** The runtime

    Modelled from the spec: [runtime] is declared in another file of the
    package.  It holds the genesis time, the period, the query TTL, the
    peers, the own server, the head and the next turn (section 4.4):
    [height_from_time(t) = floor((t - genesis_time) / period)] and
    [query_time_is_expired(t)] iff
    [height_from_time(t) < head.height - queryTTL]. *)

Record Server : Type := { ID : NodeID }.

Record Peers : Type := { Servers : list Server }.

Record runtime : Type := {
  chainInitTime : Z;
  genesisHash : Hash;
  period : Z;
  queryTTL : Z;
  peers : Peers;
  server : Server;
  head : state;
  nextTurn : Z
}.

Definition getHeightFromTime (r : runtime) (t : Z) : Z :=
  (t - chainInitTime r) / period r.

Definition getHead (r : runtime) : state := head r.
Definition getPeers (r : runtime) : Peers := peers r.
Definition getServer (r : runtime) : Server := server r.
Definition getNextTurn (r : runtime) : Z := nextTurn r.

Definition setHead (st : state) (r : runtime) : runtime :=
  {| chainInitTime := chainInitTime r; genesisHash := genesisHash r;
     period := period r; queryTTL := queryTTL r; peers := peers r;
     server := server r; head := st; nextTurn := nextTurn r |}.

Definition setNextTurn (r : runtime) : runtime :=
  {| chainInitTime := chainInitTime r; genesisHash := genesisHash r;
     period := period r; queryTTL := queryTTL r; peers := peers r;
     server := server r; head := head r; nextTurn := wrap32 (nextTurn r + 1) |}.

Definition setGenesis (b : Block) (r : runtime) : runtime :=
  {| chainInitTime := Timestamp b; genesisHash := BlockHash b;
     period := period r; queryTTL := queryTTL r; peers := peers r;
     server := server r; head := head r; nextTurn := nextTurn r |}.

Definition updatePeers (ps : Peers) (r : runtime) : runtime :=
  {| chainInitTime := chainInitTime r; genesisHash := genesisHash r;
     period := period r; queryTTL := queryTTL r; peers := ps;
     server := server r; head := head r; nextTurn := nextTurn r |}.

Definition queryTimeIsExpired (r : runtime) (t : Z) : bool :=
  getHeightFromTime r t <? Height (getHead r) - queryTTL r.

(** Modelled from the spec: [kayak.Peers.Find] is declared in another
    package; the producer "must exist in peers" and has a "peer index"
    (section 4.5): the index of the first server with the identifier. *)
Fixpoint findFrom (i : Z) (l : list Server) (key : NodeID) : Z * bool :=
  match l with
  | [] => (0, false)
  | s :: l' => if decide (ID s = key) then (wrap32 i, true) else findFrom (i + 1) l' key
  end.

Definition Find (p : Peers) (key : NodeID) : Z * bool := findFrom 0 (Servers p) key.

(** The configuration a chain is created from.
    Modelled from the spec: [Config] is declared in another file of the
    package; it names the genesis block, the period, the query TTL, the
    peers and the own server the runtime is built from. *)
Record Config : Type := {
  Genesis : Block;
  Period : Z;
  QueryTTL : Z;
  Config_Peers : Peers;
  Config_Server : Server
}.

(** Modelled from the spec: [newRunTime]; the head is the zero [state]
    until a block is pushed or the stored state is loaded, and the next turn
    is "initially head.height + 1". *)
Definition newRunTime (c : Config) : runtime :=
  {| chainInitTime := Timestamp (Genesis c);
     genesisHash := BlockHash (Genesis c);
     period := Period c; queryTTL := QueryTTL c;
     peers := Config_Peers c; server := Config_Server c;
     head := {| node := None; Head := []; Height := 0 |};
     nextTurn := 1 |}.

(** ** The query index

    Modelled from the spec: [queryIndex] is declared in another file of the
    package.  Per height it keeps the responses by header hash and the acks
    by header hash with their signed-into-a-block flag (section 3); adding
    inserts and "duplicates collapse silently", [check_ack_from_block] is
    "true iff the referenced ack is present in the index at h", and pushing
    a block "marks contained acks as signed" (sections 4.3, 4.5).  A lookup
    of an ack the index does not hold fails with [ErrQueryNotCached]. *)

Record heightIndexEntry : Type := {
  responses : gmap Hash SignedResponseHeader;
  acks : gmap Hash (SignedAckHeader * bool)
}.

Record queryIndex : Type := {
  barrier : Z;
  heightIndex : gmap Z heightIndexEntry
}.

Definition newQueryIndex : queryIndex := {| barrier := 0; heightIndex := ∅ |}.

Definition emptyHeight : heightIndexEntry := {| responses := ∅; acks := ∅ |}.

Definition ensureIndexHeight (h : Z) (qi : queryIndex) : heightIndexEntry :=
  match heightIndex qi !! h with
  | Some e => e
  | None => emptyHeight
  end.

Definition addResponse (h : Z) (resp : SignedResponseHeader) (qi : queryIndex)
  : option error * queryIndex :=
  let e := ensureIndexHeight h qi in
  match responses e !! Response_HeaderHash resp with
  | Some _ => (None, qi)
  | None =>
      (None,
       {| barrier := barrier qi;
          heightIndex :=
            <[h := {| responses := <[Response_HeaderHash resp := resp]> (responses e);
                      acks := acks e |}]> (heightIndex qi) |})
  end.

Definition addAck (h : Z) (ack : SignedAckHeader) (qi : queryIndex)
  : option error * queryIndex :=
  let e := ensureIndexHeight h qi in
  match acks e !! Ack_HeaderHash ack with
  | Some _ => (None, qi)
  | None =>
      (None,
       {| barrier := barrier qi;
          heightIndex :=
            <[h := {| responses := responses e;
                      acks := <[Ack_HeaderHash ack := (ack, false)]> (acks e) |}]>
              (heightIndex qi) |})
  end.

Definition getAck (h : Z) (header : Hash) (qi : queryIndex)
  : option SignedAckHeader * option error :=
  match heightIndex qi !! h with
  | Some e =>
      match acks e !! header with
      | Some (ack, _) => (Some ack, None)
      | None => (None, Some ErrQueryNotCached)
      end
  | None => (None, Some ErrQueryNotCached)
  end.

Definition checkAckFromBlock (h : Z) (b : Hash) (ack : Hash) (qi : queryIndex)
  : bool * option error :=
  match heightIndex qi !! h with
  | Some e => (bool_decide (is_Some (acks e !! ack)), None)
  | None => (false, None)
  end.

Definition markSigned (e : heightIndexEntry) (q : Hash) : heightIndexEntry :=
  {| responses := responses e;
     acks := alter (fun a => (fst a, true)) q (acks e) |}.

Definition setSignedBlock (h : Z) (b : Block) (qi : queryIndex) : queryIndex :=
  match heightIndex qi !! h with
  | Some e =>
      {| barrier := barrier qi;
         heightIndex := <[h := foldl markSigned e (Queries b)]> (heightIndex qi) |}
  | None => qi
  end.

(** ** Collaborators

    The binary codec of blocks, headers and the state, the signature checks
    and the RPC caller are collaborators of the chain; the chain is defined
    over any implementation of them. *)

(** [encoding.BinaryMarshaler] and [encoding.BinaryUnmarshaler]: decoding
    returns what the receiver holds after the call, and the error. *)
Class BinaryCodec (A : Type) : Type := {
  MarshalBinary : A -> bytes * option error;
  UnmarshalBinary : bytes -> A * option error
}.

Class Verifier : Type := {
  Block_Verify : Block -> option error;
  SignedHeader_Verify : SignedHeader -> option error;
  SignedHeader_VerifyAsGenesis : SignedHeader -> option error;
  Block_VerifyAsGenesis : Block -> option error;
  Response_Verify : SignedResponseHeader -> option error;
  Ack_Verify : SignedAckHeader -> option error
}.

(** [c.cl.CallNode(id, "FetchAckedQuery", req, resp)]: the error of the
    call and the [Ack] of the response. *)
Class Caller : Type := {
  CallFetchAckedQuery : NodeID -> Z -> Hash -> option error * option SignedAckHeader
}.

(** ** The chain *)

(** Chain represents a sql-chain. *)
Record Chain : Type := {
  db : bucket;
  bi : gmap Hash blockNode;
  qi : queryIndex;
  rt : runtime
}.

Definition with_db (d : bucket) (c : Chain) : Chain :=
  {| db := d; bi := bi c; qi := qi c; rt := rt c |}.
Definition with_bi (b : gmap Hash blockNode) (c : Chain) : Chain :=
  {| db := db c; bi := b; qi := qi c; rt := rt c |}.
Definition with_qi (q : queryIndex) (c : Chain) : Chain :=
  {| db := db c; bi := bi c; qi := q; rt := rt c |}.
Definition with_rt (r : runtime) (c : Chain) : Chain :=
  {| db := db c; bi := bi c; qi := qi c; rt := r |}.

(** [db.Update(fn)]: the body runs on the transaction's view of the store;
    when it returns an error the transaction is rolled back, otherwise it is
    committed, and the commit of a body that returned [nil] is taken to
    succeed (a failing disk is outside the model).  What the body did to
    the memory of the chain stays either way. *)
Definition db_Update (c : Chain)
    (fn : bucket -> Chain -> outcome (option error * bucket * Chain))
  : outcome (option error * Chain) :=
  '(err, tx, c') ← fn (db c) c;
  match err with
  | Some e => Done (Some e, with_db (db c) c')
  | None => Done (None, with_db tx c')
  end.

(** [db.View(fn)]: a read-only transaction. *)
Definition db_View {R : Type} (c : Chain) (fn : bucket -> outcome R) : outcome R :=
  fn (db c).

(** The pending blocks of the ingestion channel and the stash of
    [processBlocks]. *)
Record blockLoop : Type := {
  chain : Chain;
  blocks : list Block;
  stash : option (list Block)
}.

Section ChainOperations.

Context `{BinaryCodec Block} `{BinaryCodec state}
        `{BinaryCodec SignedResponseHeader} `{BinaryCodec SignedAckHeader}
        `{Verifier} `{Caller}.

(** pushBlock pushes the signed block header to extend the current main chain. *)
Definition pushBlock (c : Chain) (b : Block) : outcome (option error * Chain) :=
  let h := getHeightFromTime (rt c) (Timestamp b) in
  let node := newBlockNode h b (node (getHead (rt c))) in
  let st := {| node := Some node; Head := bn_hash node; Height := bn_height node |} in
  let '(encBlock, err) := MarshalBinary b in
  match err with
  | Some _ => Done (err, c)
  | None =>
      let '(encState, err) := MarshalBinary st in
      match err with
      | Some _ => Done (err, c)
      | None =>
          db_Update c (fun tx c =>
            '(err, tx) ← Bucket_Put tx (Tx_Bucket tx metaBucket) metaStateKey encState;
            match err with
            | Some e => Done (Some (ErrBolt e), tx, c)
            | None =>
                blocks ← Bucket_Bucket tx (Tx_Bucket tx metaBucket) metaBlockIndexBucket;
                '(err, tx) ← Bucket_Put tx blocks (indexKey node) encBlock;
                match err with
                | Some e => Done (Some (ErrBolt e), tx, c)
                | None =>
                    let c := with_rt (setHead st (rt c)) c in
                    let c := with_bi (addBlock node (bi c)) c in
                    let c := with_qi (setSignedBlock h b (qi c)) c in
                    Done (None, tx, c)
                end
            end)
      end
  end.

Definition ensureHeight (tx : bucket) (k : bytes)
  : outcome (handle * option boltError * bucket) :=
  b ← Bucket_Bucket tx (Tx_Bucket tx metaBucket) metaHeightIndexBucket;
  hb ← Bucket_Bucket tx b k;
  match hb with
  | Some _ => Done (hb, None, tx)
  | None =>
      (* Create and initialize bucket in new height *)
      '(hb, err, tx) ← Bucket_CreateBucket tx b k;
      match err with
      | Some _ => Done (hb, err, tx)
      | None =>
          '(_, err, tx) ← Bucket_CreateBucket tx hb metaRequestIndexBucket;
          match err with
          | Some _ => Done (hb, err, tx)
          | None =>
              '(_, err, tx) ← Bucket_CreateBucket tx hb metaResponseIndexBucket;
              match err with
              | Some _ => Done (hb, err, tx)
              | None =>
                  '(_, err, tx) ← Bucket_CreateBucket tx hb metaAckIndexBucket;
                  Done (hb, err, tx)
              end
          end
      end
  end.

(** pushResponedQuery pushes a responsed, signed and verified query into the chain. *)
Definition pushResponedQuery (c : Chain) (resp : SignedResponseHeader)
  : outcome (option error * Chain) :=
  let h := getHeightFromTime (rt c) (Request_Timestamp (Response_Request resp)) in
  let k := heightToKey h in
  let '(enc, err) := MarshalBinary resp in
  match err with
  | Some _ => Done (err, c)
  | None =>
      db_Update c (fun tx c =>
        '(heightBucket, err, tx) ← ensureHeight tx k;
        match err with
        | Some e => Done (Some (ErrBolt e), tx, c)
        | None =>
            rb ← Bucket_Bucket tx heightBucket metaResponseIndexBucket;
            '(err, tx) ← Bucket_Put tx rb (Response_HeaderHash resp) enc;
            match err with
            | Some e => Done (Some (ErrBolt e), tx, c)
            | None =>
                (* Always put memory changes which will not be affected by
                   rollback after DB operations *)
                let '(err, q) := addResponse h resp (qi c) in
                Done (err, tx, with_qi q c)
            end
        end)
  end.

(** pushAckedQuery pushes a acknowledged, signed and verified query into the chain. *)
Definition pushAckedQuery (c : Chain) (ack : SignedAckHeader)
  : outcome (option error * Chain) :=
  let h := getHeightFromTime (rt c) (Response_Timestamp (Ack_SignedResponseHeader ack)) in
  let k := heightToKey h in
  let '(enc, err) := MarshalBinary ack in
  match err with
  | Some _ => Done (err, c)
  | None =>
      db_Update c (fun tx c =>
        '(b, err, tx) ← ensureHeight tx k;
        match err with
        | Some e => Done (Some (ErrBolt e), tx, c)
        | None =>
            ab ← Bucket_Bucket tx b metaAckIndexBucket;
            '(err, tx) ← Bucket_Put tx ab (Ack_HeaderHash ack) enc;
            match err with
            | Some ErrIncompatibleValue | None =>
                (* Always put memory changes which will not be affected by
                   rollback after DB operations *)
                let '(err, q) := addAck h ack (qi c) in
                Done (err, tx, with_qi q c)
            | Some e => Done (Some (ErrBolt e), tx, c)
            end
        end)
  end.

(** VerifyAndPushResponsedQuery verifies a responsed and signed query, and
    pushed it if valid. *)
Definition VerifyAndPushResponsedQuery (c : Chain) (resp : SignedResponseHeader)
  : outcome (option error * Chain) :=
  if queryTimeIsExpired (rt c) (Response_Timestamp resp) then
    Done (Some ErrQueryExpired, c)
  else
    match Response_Verify resp with
    | Some e => Done (Some e, c)
    | None => pushResponedQuery c resp
    end.

(** VerifyAndPushAckedQuery verifies a acknowledged and signed query, and
    pushed it if valid. *)
Definition VerifyAndPushAckedQuery (c : Chain) (ack : SignedAckHeader)
  : outcome (option error * Chain) :=
  if queryTimeIsExpired (rt c) (Response_Timestamp (Ack_SignedResponseHeader ack)) then
    Done (Some ErrQueryExpired, c)
  else
    match Ack_Verify ack with
    | Some e => Done (Some e, c)
    | None => pushAckedQuery c ack
    end.

(** FetchBlock fetches the block at specified height from local cache.
    The walk starts by reading the height of the head's node: a head
    without a node is a [nil] dereference. *)
Definition FetchBlock (c : Chain) (height : Z)
  : outcome (option Block * option error) :=
  match node (getHead (rt c)) with
  | None => Panic
  | Some hn =>
      match ancestor hn height with
      | Some n =>
          let k := indexKey n in
          db_View c (fun tx =>
            blocks ← Bucket_Bucket tx (Tx_Bucket tx metaBucket) metaBlockIndexBucket;
            v ← Bucket_Get tx blocks k;
            match v with
            | Some v =>
                let '(b, err) := UnmarshalBinary v in
                Done (Some b, err)
            | None => Done (None, None)
            end)
      | None => Done (None, None)
      end
  end.

(** The loop of [FetchAckedQuery], [for i := ...; i <= height; i++], run
    for at most [fuel] iterations.  [ack] is the result variable of the
    caller the loop assigns to, [err] the result of the transaction
    body. *)
Fixpoint fetchAckedQueryLoop (fuel : nat) (tx : bucket) (i height : Z) (header : Hash)
    (ack : option SignedAckHeader) (err : option error)
  : outcome (option SignedAckHeader * option error) :=
  match fuel with
  | O => OutOfFuel
  | S fuel' =>
      if i <=? height then
        heights ← Bucket_Bucket tx (Tx_Bucket tx metaBucket) metaHeightIndexBucket;
        b ← Bucket_Bucket tx heights (heightToKey height);
        match b with
        | Some _ =>
            ab ← Bucket_Bucket tx b metaAckIndexBucket;
            v ← Bucket_Get tx ab header;
            match v with
            | Some v =>
                let '(dec, err) := UnmarshalBinary v in
                match err with
                | Some _ => Done (Some dec, err)
                | None =>
                    fetchAckedQueryLoop fuel' tx (wrap32 (i + 1)) height header ack err
                end
            | None => fetchAckedQueryLoop fuel' tx (wrap32 (i + 1)) height header ack err
            end
        | None => fetchAckedQueryLoop fuel' tx (wrap32 (i + 1)) height header ack err
        end
      else Done (ack, err)
  end.

(** FetchAckedQuery fetches the acknowledged query from local cache. *)
Definition FetchAckedQuery (fuel : nat) (c : Chain) (height : Z) (header : Hash)
  : outcome (option SignedAckHeader * option error) :=
  let '(ack, err) := getAck height header (qi c) in
  match err with
  | Some _ =>
      db_View c (fun tx =>
        fetchAckedQueryLoop fuel tx (wrap32 (height - queryTTL (rt c))) height header
          ack None)
  | None => Done (ack, err)
  end.

Definition syncAckedQuery (c : Chain) (height : Z) (ack : Hash) (id : NodeID)
  : outcome (option error * Chain) :=
  let '(err, resp) := CallFetchAckedQuery id height ack in
  match err with
  | Some _ => Done (err, c)
  | None =>
      match resp with
      | None => Panic
      | Some a => VerifyAndPushAckedQuery c a
      end
  end.

(** The loop over [block.Queries] of [CheckAndPushNewBlock]. *)
Fixpoint checkQueries (c : Chain) (height : Z) (block : Block) (qs : list Hash)
  : outcome (option error * Chain) :=
  match qs with
  | [] => Done (None, c)
  | q :: qs' =>
      let '(ok, err) := checkAckFromBlock height (BlockHash block) q (qi c) in
      match err with
      | Some _ => Done (err, c)
      | None =>
          if ok then checkQueries c height block qs'
          else
            '(err, c) ← syncAckedQuery c height q (Producer block);
            match err with
            | Some _ => Done (err, c)
            | None =>
                let '(_, err) := checkAckFromBlock height (BlockHash block) q (qi c) in
                match err with
                | Some _ => Done (err, c)
                | None => checkQueries c height block qs'
                end
            end
      end
  end.

(** The index [next] of [CheckAndPushNewBlock]. *)
Definition nextProducer (head : state) (total : Z) : Z :=
  if total >? 0 then Z.rem (wrap32 (Height head + 1)) total else -1.

(** CheckAndPushNewBlock implements ChainRPCServer.CheckAndPushNewBlock. *)
Definition CheckAndPushNewBlock (c : Chain) (block : Block)
  : outcome (option error * Chain) :=
  let height := getHeightFromTime (rt c) (Timestamp block) in
  let head := getHead (rt c) in
  let peers := getPeers (rt c) in
  let total := wrap32 (Z.of_nat (length (Servers peers))) in
  let next := nextProducer head total in
  if (Height head =? height) && bool_decide (Head head = BlockHash block) then
    (* Maybe already set by FetchBlock *)
    Done (None, c)
  else if negb (bool_decide (ParentHash block = Head head)) then
    (* Pushed block must extend the best chain *)
    Done (Some ErrInvalidBlock, c)
  else
    (* Check block producer *)
    let '(index, found) := Find peers (Producer block) in
    if negb found then Done (Some ErrUnknownProducer, c)
    else if negb (index =? next) then Done (Some ErrInvalidProducer, c)
    else
      (* Check queries *)
      '(err, c) ← checkQueries c height block (Queries block);
      match err with
      | Some _ => Done (err, c)
      | None =>
          (* Verify block signatures *)
          match Block_Verify block with
          | Some e => Done (Some e, c)
          | None => pushBlock c block
          end
      end.

(** UpdatePeers updates peer list of the sql-chain. *)
Definition UpdatePeers (c : Chain) (ps : Peers) : Chain :=
  with_rt (updatePeers ps (rt c)) c.

(** One receive of [processBlocks] from the channel of pending blocks.
    The errors of the two push paths are dropped, as the code drops them;
    the stashed blocks go back to the channel behind the pending ones. *)
Definition processBlocks_step (s : blockLoop) : outcome blockLoop :=
  match blocks s with
  | [] => Done s
  | block :: pending =>
      let c := chain s in
      let h := getHeightFromTime (rt c) (Timestamp block) in
      if h >? wrap32 (getNextTurn (rt c) - 1) then
        (* Stash newer blocks for later check *)
        Done {| chain := c; blocks := pending;
                stash := Some (from_option id [] (stash s) ++ [block]) |}
      else
        (* Process block *)
        c' ← (if h <? wrap32 (getNextTurn (rt c) - 1) then Done c
              else if bool_decide (Producer block = ID (getServer (rt c))) then
                '(_, c') ← pushBlock c block; Done c'
              else
                '(_, c') ← CheckAndPushNewBlock c block; Done c');
        (* Return all stashed blocks to pending channel *)
        Done {| chain := c'; blocks := pending ++ from_option id [] (stash s);
                stash := None |}
  end.

(** The callback of [blocks.ForEach] in [LoadChain], over the pairs of the
    block index in key order.  [last] is the node loaded before, [nodes]
    the nodes initialised so far. *)
Fixpoint loadBlocks (c : Chain) (last : option blockNode) (nodes : list blockNode)
    (items : list (bytes * bytes)) : option error * Chain * list blockNode :=
  match items with
  | [] => (None, c, nodes)
  | (k, v) :: items' =>
      let '(block, err) := UnmarshalBinary (A := Block) v in
      match err with
      | Some _ => (err, c, nodes)
      | None =>
          let continue (c : Chain) (parent : option blockNode) :=
            let height := getHeightFromTime (rt c) (Timestamp block) in
            let n := newBlockNode height block parent in
            loadBlocks c (Some n) (nodes ++ [n]) items' in
          match last with
          | None =>
              match SignedHeader_VerifyAsGenesis block with
              | Some e => (Some e, c, nodes)
              | None =>
                  (* Set constant fields from genesis block *)
                  continue (with_rt (setGenesis block (rt c)) c) None
              end
          | Some l =>
              if bool_decide (ParentHash block = bn_hash l) then
                match SignedHeader_Verify block with
                | Some e => (Some e, c, nodes)
                | None => continue c (Some l)
                end
              else
                match lookupNode (BlockHash block) (bi c) with
                | None => (Some ErrParentNotFound, c, nodes)
                | Some p => continue c (Some p)
                end
          end
      end
  end.

(** The callbacks of [resps.ForEach] and [acks.ForEach] in [LoadChain].
    The index is given the header decoded at each pair. *)
Fixpoint loadResponses (h : Z) (q : queryIndex) (items : list (bytes * bytes))
  : option error * queryIndex :=
  match items with
  | [] => (None, q)
  | (k, v) :: items' =>
      let '(resp, err) := UnmarshalBinary (A := SignedResponseHeader) v in
      match err with
      | Some _ => (err, q)
      | None =>
          let '(err, q) := addResponse h resp q in
          match err with
          | Some _ => (err, q)
          | None => loadResponses h q items'
          end
      end
  end.

Fixpoint loadAcks (h : Z) (q : queryIndex) (items : list (bytes * bytes))
  : option error * queryIndex :=
  match items with
  | [] => (None, q)
  | (k, v) :: items' =>
      let '(ack, err) := UnmarshalBinary (A := SignedAckHeader) v in
      match err with
      | Some _ => (err, q)
      | None =>
          let '(err, q) := addAck h ack q in
          match err with
          | Some _ => (err, q)
          | None => loadAcks h q items'
          end
      end
  end.

(** The callback of [heights.ForEach] in [LoadChain]. *)
Fixpoint loadHeights (tx : bucket) (heights : handle) (q : queryIndex)
    (items : list (bytes * bytes)) : outcome (option error * queryIndex) :=
  match items with
  | [] => Done (None, q)
  | (k, v) :: items' =>
      match keyToHeight k with
      | None => Panic
      | Some h =>
          hb ← Bucket_Bucket tx heights k;
          resps ← Bucket_Bucket tx hb metaResponseIndexBucket;
          '(err, q) ← match resps with
                      | Some _ => ri ← Bucket_items tx resps; Done (loadResponses h q ri)
                      | None => Done (None, q)
                      end;
          match err with
          | Some _ => Done (err, q)
          | None =>
              hb ← Bucket_Bucket tx heights k;
              acks ← Bucket_Bucket tx hb metaAckIndexBucket;
              '(err, q) ← match acks with
                          | Some _ => ai ← Bucket_items tx acks; Done (loadAcks h q ai)
                          | None => Done (None, q)
                          end;
              match err with
              | Some _ => Done (err, q)
              | None => loadHeights tx heights q items'
              end
          end
      end
  end.

(** LoadChain loads the chain state from the specified database and
    rebuilds a memory index.  [file] is the store [bolt.Open] opens. *)
Definition LoadChain (cfg : Config) (file : bucket) : outcome (Chain * option error) :=
  let chain := {| db := file; bi := newBlockIndex; qi := newQueryIndex;
                  rt := newRunTime cfg |} in
  db_View chain (fun tx =>
    (* Read state struct *)
    let meta := Tx_Bucket tx metaBucket in
    v ← Bucket_Get tx meta metaStateKey;
    let '(st, err) := UnmarshalBinary (A := state) (from_option id [] v) in
    match err with
    | Some _ => Done (chain, err)
    | None =>
        let chain := with_rt (setHead st (rt chain)) chain in
        (* Read blocks and rebuild memory index *)
        blocks ← Bucket_Bucket tx meta metaBlockIndexBucket;
        items ← Bucket_items tx blocks;
        let '(err, chain, _) := loadBlocks chain None [] items in
        match err with
        | Some _ => Done (chain, err)
        | None =>
            (* Read queries and rebuild memory index *)
            heights ← Bucket_Bucket tx meta metaHeightIndexBucket;
            hitems ← Bucket_items tx heights;
            '(err, q) ← loadHeights tx heights (qi chain) hitems;
            Done (with_qi q chain, err)
        end
    end).

(** NewChain creates a new sql-chain struct. *)
Definition NewChain (cfg : Config) (file : bucket) : outcome (option Chain * option error) :=
  match Block_VerifyAsGenesis (Genesis cfg) with
  | Some e => Done (None, Some e)
  | None =>
      let chain := {| db := file; bi := newBlockIndex; qi := newQueryIndex;
                      rt := newRunTime cfg |} in
      (* Create buckets for chain meta *)
      '(err, chain) ← db_Update chain (fun tx c =>
        '(bucket, err, tx) ← Bucket_CreateBucketIfNotExists tx (Some []) metaBucket;
        match err with
        | Some e => Done (Some (ErrBolt e), tx, c)
        | None =>
            '(_, err, tx) ← Bucket_CreateBucketIfNotExists tx bucket metaBlockIndexBucket;
            match err with
            | Some e => Done (Some (ErrBolt e), tx, c)
            | None =>
                '(_, err, tx) ← Bucket_CreateBucketIfNotExists tx bucket metaHeightIndexBucket;
                Done (wrapBolt err, tx, c)
            end
        end);
      match err with
      | Some _ => Done (None, err)
      | None =>
          '(err, chain) ← pushBlock chain (Genesis cfg);
          match err with
          | Some _ => Done (None, err)
          | None => Done (Some chain, None)
          end
      end
  end.

End ChainOperations.

(** ** Predicates of the specification *)

(** The block is the head already: same height and same hash. *)
Definition alreadyHead (c : Chain) (block : Block) : Prop :=
  Height (getHead (rt c)) = getHeightFromTime (rt c) (Timestamp block) /\
  Head (getHead (rt c)) = BlockHash block.


(** The encoded ack the store holds under the ack index of a height. *)
Definition storedAck (root : bucket) (height : Z) (header : Hash) : option bytes :=
  match resolve [metaBucket; metaHeightIndexBucket; heightToKey height; metaAckIndexBucket]
          root with
  | Some kvs =>
      match lookup_key header kvs with
      | Some (Val v) => Some v
      | _ => None
      end
  | None => None
  end.

(** What the store holds at the end of a path of keys from the root:
    nothing, a value, or a bucket. *)
Inductive kind : Type := KNone | KVal | KBkt.

Definition kind_of (e : entry) : kind :=
  match e with
  | Val _ => KVal
  | Bkt _ => KBkt
  end.

Fixpoint kind_at (p : list bytes) (root : bucket) : kind :=
  match p with
  | [] => KBkt
  | k :: p' =>
      match lookup_key k root with
      | None => KNone
      | Some (Val _) => match p' with [] => KVal | _ :: _ => KNone end
      | Some (Bkt sub) => kind_at p' sub
      end
  end.

(** The store holds a value under [key] in the index [index] of height
    [h]. *)
Definition persistedAt (root : bucket) (h : Z) (index : bytes) (key : Hash) : Prop :=
  kind_at [metaBucket; metaHeightIndexBucket; heightToKey h; index; key] root = KVal.

Definition hasResponse (q : queryIndex) (h : Z) (key : Hash) : Prop :=
  exists e, heightIndex q !! h = Some e /\ is_Some (responses e !! key).

Definition hasAck (q : queryIndex) (h : Z) (key : Hash) : Prop :=
  exists e, heightIndex q !! h = Some e /\ is_Some (acks e !! key).

(** Every response and every ack of the query index is in the store. *)
Definition QueryIndexPersisted (c : Chain) : Prop :=
  (forall h key, hasResponse (qi c) h key ->
     persistedAt (db c) h metaResponseIndexBucket key) /\
  (forall h key, hasAck (qi c) h key ->
     persistedAt (db c) h metaAckIndexBucket key).

(** The ack indices of the store hold values only, as the chain writes
    them: no key of an ack index names a nested bucket. *)
Definition plainAckIndex (root : bucket) : Prop :=
  forall hk key,
    kind_at [metaBucket; metaHeightIndexBucket; hk; metaAckIndexBucket; key] root <> KBkt.

(** The invariant of the chain: the store backs the query index. *)
Definition StoreBacksIndex (c : Chain) : Prop :=
  plainAckIndex (db c) /\ QueryIndexPersisted c.

(** Between two states of the store, every path of five keys (an entry of
    an index of a height) holds what it held, or has gained a value where
    there was no bucket. *)
Definition grows (root root' : bucket) : Prop :=
  forall p, length p = 5%nat ->
    kind_at p root' = kind_at p root \/
    (kind_at p root <> KBkt /\ kind_at p root' = KVal).

(** The value the store holds at the end of a path of keys from the root,
    [None] when the path ends at no value. *)
Fixpoint val_at (p : list bytes) (root : bucket) : option bytes :=
  match p with
  | [] => None
  | k :: p' =>
      match lookup_key k root with
      | None => None
      | Some (Val v) => match p' with [] => Some v | _ :: _ => None end
      | Some (Bkt sub) => val_at p' sub
      end
  end.

(** A lookup of [FetchAckedQuery] in the store that neither panics nor
    stops the loop: the height index is there, and either the height has
    no bucket, or its ack index is there and holds under the header hash
    no value or a value that decodes. *)
Definition ackLookupQuiet `{BinaryCodec SignedAckHeader}
    (root : bucket) (height : Z) (header : Hash) : Prop :=
  kind_at [metaBucket; metaHeightIndexBucket] root = KBkt /\
  (kind_at [metaBucket; metaHeightIndexBucket; heightToKey height] root <> KBkt \/
   (kind_at [metaBucket; metaHeightIndexBucket; heightToKey height; metaAckIndexBucket]
      root = KBkt /\
    forall v,
      val_at [metaBucket; metaHeightIndexBucket; heightToKey height; metaAckIndexBucket;
              header] root = Some v ->
      snd (UnmarshalBinary (A := SignedAckHeader) v) = None)).

(** The pairs of a block index that hold a single chain after a block of
    hash [prev]: every value decodes, names the hash of the block before it
    as its parent, and passes its verification. *)
Fixpoint linearFrom `{BinaryCodec Block} `{Verifier} (prev : Hash)
    (items : list (bytes * bytes)) : Prop :=
  match items with
  | [] => True
  | (_, v) :: items' =>
      exists block : Block,
        UnmarshalBinary v = (block, None) /\
        ParentHash block = prev /\
        SignedHeader_Verify block = None /\
        linearFrom (BlockHash block) items'
  end.

(** Nodes that follow each other: the parent of each is the node before
    it, the parent of the first is [l]. *)
Fixpoint chainedFrom (l : blockNode) (ns : list blockNode) : Prop :=
  match ns with
  | [] => True
  | n :: ns' => bn_parent n = Some l /\ chainedFrom n ns'
  end.

(** The store [NewChain] leaves from an empty one: the layout, the encoded
    state and the encoded genesis block under its hash. *)
Definition freshStore (hash : Hash) (encState encBlock : bytes) : bucket :=
  [ (metaBucket,
     Bkt [ (metaBlockIndexBucket, Bkt [ (hash, Val encBlock) ]);
           (metaHeightIndexBucket, Bkt []);
           (metaStateKey, Val encState) ]) ].

(** The head [pushBlock] sets for the genesis block of a configuration,
    pushed on the runtime [newRunTime] builds. *)
Definition genesisState (cfg : Config) : state :=
  let n := newBlockNode (getHeightFromTime (newRunTime cfg) (Timestamp (Genesis cfg)))
             (Genesis cfg) None in
  {| node := Some n; Head := bn_hash n; Height := bn_height n |}.

(** Two runtimes that differ in the next turn at most. *)
Definition sameButTurn (r r' : runtime) : Prop :=
  chainInitTime r' = chainInitTime r /\ genesisHash r' = genesisHash r /\
  period r' = period r /\ queryTTL r' = queryTTL r /\ peers r' = peers r /\
  server r' = server r /\ head r' = head r.

(** ** Synchronisation with the peers and the clock *)

(** [c.cl.CallNode(id, "FetchBlock", req, resp)] with [req.Height = h].
    All the calls of one [syncBlock] write into the same [resp]: from what
    [resp.Block] holds before the call, the error of the call and what
    [resp.Block] holds after it. *)
Class BlockCaller : Type := {
  CallFetchBlock : NodeID -> Z -> option Block -> option error * option Block
}.

Section Synchronisation.

Context `{BlockCaller}.

(** The loop over [peers.Servers] of [syncBlock]: the own server is
    skipped, and the loop breaks at the first call that returns no error
    and leaves a block in [resp]. *)
Fixpoint fetchBlockFromPeers (self : NodeID) (h : Z) (resp : option Block)
    (servers : list Server) : option Block :=
  match servers with
  | [] => None
  | s :: servers' =>
      if bool_decide (ID s <> self) then
        match CallFetchBlock (ID s) h resp with
        | (None, Some b) => Some b
        | (_, resp') => fetchBlockFromPeers self h resp' servers'
        end
      else fetchBlockFromPeers self h resp servers'
  end.

(** [syncBlock]: try to fetch if the block of the current turn is not
    advised yet.  The fetched block is sent to the channel of pending
    blocks. *)
Definition syncBlock (s : blockLoop) : blockLoop :=
  let c := chain s in
  let h := wrap32 (getNextTurn (rt c) - 1) in
  if Height (getHead (rt c)) <? h then
    match fetchBlockFromPeers (ID (getServer (rt c))) h None
            (Servers (getPeers (rt c))) with
    | Some b => {| chain := c; blocks := blocks s ++ [b]; stash := stash s |}
    | None => s
    end
  else s.

(** The inner loop of [sync], [for c.rt.getNextTurn() <= height], run for
    at most [fuel] iterations. *)
Fixpoint advanceTurns (fuel : nat) (height : Z) (r : runtime) : outcome runtime :=
  match fuel with
  | O => OutOfFuel
  | S fuel' =>
      if getNextTurn r <=? height then advanceTurns fuel' height (setNextTurn r)
      else Done r
  end.

(** sync synchronizes blocks and queries from the other peers.  [clock]
    holds the readings [c.rt.now()] returns, one for each turn of the outer
    loop; the loop is out of fuel when the readings are used up. *)
Fixpoint sync (fuel : nat) (clock : list Z) (c : Chain) : outcome (option error * Chain) :=
  match clock with
  | [] => OutOfFuel
  | now :: clock' =>
      let height := getHeightFromTime (rt c) now in
      if getNextTurn (rt c) >=? height then Done (None, c)
      else
        r ← advanceTurns fuel height (rt c);
        sync fuel clock' (with_rt r c)
  end.

End Synchronisation.

(** ** The database of the worker

    [worker/db.go]: the query interface of a database instance.  The chain,
    the kayak runtime and the file system are collaborators. *)

Module Worker.

Inductive QueryType : Type :=
  | ReadQuery
  | WriteQuery
  | OtherQuery (code : Z).

Record Request : Type := {
  QueryType_ : QueryType;
  Payload : bytes
}.

Record Response : Type := {
  Rows : list bytes
}.

(** The errors of the package, the errors of the collaborators, and an
    error annotated by [errors.Wrap]. *)
Inductive error : Type :=
  | ErrInvalidRequest
  | ErrSpaceLimitExceeded
  | ErrInvalidDBConfig
  | ErrCollaborator (msg : string)
  | Wrapped (cause : error) (msg : string).

(** [errors.Wrap(err, msg)]: [nil] when [err] is [nil]. *)
Definition Wrap (err : option error) (msg : string) : option error :=
  match err with
  | Some e => Some (Wrapped e msg)
  | None => None
  end.

(** What [os.Stat] returns: the size of the file, or an error that
    [os.IsNotExist] tells apart. *)
Inductive statResult : Type :=
  | StatSize (size : Z)
  | StatNotExist (e : error)
  | StatError (e : error).

(** What [kayakRuntime.Apply] returns as its [interface{}] result: a
    [*types.Response], which may be [nil], or a value of another type. *)
Inductive applyResult : Type :=
  | IsResponse (r : option Response)
  | NotResponse.

Class Collaborators : Type := {
  chain_Query : Request -> option Response * option error;
  kayak_Apply : Request -> applyResult * option error;
  filepath_Join : string -> string -> string;
  os_Stat : string -> statResult
}.

(** Modelled from the spec: the declaration of [DBConfig] is not among the
    sources.  The record carries the two fields [writeQuery] reads: the data
    directory, a string given to [filepath.Join], and the "storage quota",
    which [writeQuery] compares with a [uint64] and with 0. *)
Record DBConfig : Type := {
  DataDir : string;
  SpaceLimit : Z
}.

(** StorageFileName defines storage file name of database instance. *)
Definition StorageFileName : string := "storage.db3".

Definition to_uint64 (z : Z) : Z := z mod 2 ^ 64.

Section Database.

Context `{Collaborators}.

Definition writeQuery (cfg : DBConfig) (request : Request)
  : option Response * option error :=
  (* check database size first, wal/kayak/chain database size is not included *)
  let rejected :=
    if SpaceLimit cfg >? 0 then
      match os_Stat (filepath_Join (DataDir cfg) StorageFileName) with
      | StatError e => Some e
      | StatNotExist _ => None
      | StatSize size =>
          if to_uint64 size >? SpaceLimit cfg then Some ErrSpaceLimitExceeded else None
      end
    else None in
  match rejected with
  | Some e => (None, Some e)
  | None =>
      (* call kayak runtime Process *)
      let '(result, err) := kayak_Apply request in
      match err with
      | Some _ => (None, Wrap err "apply failed")
      | None =>
          match result with
          | IsResponse r => (r, None)
          | NotResponse => (None, Wrap err "invalid response type")
          end
      end
  end.

(** Query defines database query interface. *)
Definition Query (cfg : DBConfig) (request : Request)
  : option Response * option error :=
  match QueryType_ request with
  | ReadQuery => chain_Query request
  | WriteQuery => writeQuery cfg request
  | OtherQuery _ => (None, Wrap (Some ErrInvalidRequest) "invalid query type")
  end.

(** The quota check of [writeQuery] lets the query through: there is no
    limit, or the storage file does not exist, or its size is within the
    limit. *)
Definition quotaPasses (cfg : DBConfig) : Prop :=
  SpaceLimit cfg <= 0 \/
  (exists e, os_Stat (filepath_Join (DataDir cfg) StorageFileName) = StatNotExist e) \/
  (exists size,
      os_Stat (filepath_Join (DataDir cfg) StorageFileName) = StatSize size /\
      to_uint64 size <= SpaceLimit cfg).

End Database.

End Worker.

(** ** A small instance

    A codec over short buffers, checks that accept everything and a caller
    that reaches no peer: an implementation of the collaborators the
    operations can be run with. *)

Module Example.

Definition mkBlock (producer : NodeID) (parent hash : Hash) (ts : Z) (qs : list Hash)
  : Block :=
  {| Block_SignedHeader :=
       {| SignedHeader_Header :=
            {| Version := 16777216; Producer := producer; GenesisHash := [];
               ParentHash := parent; MerkleRoot := []; Timestamp := ts |};
          BlockHash := hash; Signee := []; Signature := [] |};
     Queries := qs |}.

Definition mkAck (ts : Z) (hash : Hash) : SignedAckHeader :=
  {| Ack_Response :=
       {| Response_Request := {| Request_Timestamp := ts; Request_QueryHash := [] |};
          Response_Timestamp := ts; Response_RowCount := 0;
          Response_HeaderHash := []; Response_Signature := [] |};
     Ack_Timestamp := ts; Ack_HeaderHash := hash; Ack_Signature := [] |}.

Definition mkResponse (reqts ts : Z) (hash : Hash) : SignedResponseHeader :=
  {| Response_Request := {| Request_Timestamp := reqts; Request_QueryHash := [] |};
     Response_Timestamp := ts; Response_RowCount := 0;
     Response_HeaderHash := hash; Response_Signature := [] |}.

Definition shortBuffer : option error := Some (ErrExternal "short buffer").

(** A block is encoded as its timestamp, the first byte of its parent
    hash and the first byte of its hash. *)
Definition blockCodec : BinaryCodec Block :=
  {| MarshalBinary (b : Block) :=
       ([Timestamp b; hd 0 (ParentHash b); hd 0 (BlockHash b)], None);
     UnmarshalBinary v :=
       match v with
       | [ts; p; h] => (mkBlock "" [p] [h] ts [], None)
       | _ => (mkBlock "" [] [] 0 [], shortBuffer)
       end |}.

(** The state is encoded as its height followed by the head hash. *)
Definition stateCodec : BinaryCodec state :=
  {| MarshalBinary st := (Height st :: Head st, None);
     UnmarshalBinary v :=
       match v with
       | h :: hd => ({| node := None; Head := hd; Height := h |}, None)
       | [] => ({| node := None; Head := []; Height := 0 |}, shortBuffer)
       end |}.

(** A response is encoded as its request and response timestamps followed
    by the header hash; an ack as the response timestamp followed by the
    header hash. *)
Definition responseCodec : BinaryCodec SignedResponseHeader :=
  {| MarshalBinary r :=
       (Request_Timestamp (Response_Request r) :: Response_Timestamp r
          :: Response_HeaderHash r, None);
     UnmarshalBinary v :=
       match v with
       | reqts :: ts :: hh => (mkResponse reqts ts hh, None)
       | _ => (mkResponse 0 0 [], shortBuffer)
       end |}.

Definition ackCodec : BinaryCodec SignedAckHeader :=
  {| MarshalBinary a :=
       (Response_Timestamp (Ack_Response a) :: Ack_HeaderHash a, None);
     UnmarshalBinary v :=
       match v with
       | ts :: hh => (mkAck ts hh, None)
       | [] => (mkAck 0 [], shortBuffer)
       end |}.

Definition verifier : Verifier :=
  {| Block_Verify _ := None;
     SignedHeader_Verify _ := None;
     SignedHeader_VerifyAsGenesis _ := None;
     Block_VerifyAsGenesis _ := None;
     Response_Verify _ := None;
     Ack_Verify _ := None |}.

Definition caller : Caller :=
  {| CallFetchAckedQuery _ _ _ := (Some (ErrExternal "no route to peer"), None) |}.

Definition peersABC : Peers :=
  {| Servers := [ {| ID := "A" |}; {| ID := "B" |}; {| ID := "C" |} ] |}.

(** A runtime with genesis at time 0, a period of 10, a TTL of 2, and the
    head at height 5 with hash [07]. *)
Definition runtimeAt5 (ps : Peers) : runtime :=
  {| chainInitTime := 0; genesisHash := [1]; period := 10; queryTTL := 2;
     peers := ps; server := {| ID := "A" |};
     head := {| node := Some (newBlockNode 5 (mkBlock "C" [6] [7] 50 []) None);
                Head := [7]; Height := 5 |};
     nextTurn := 6 |}.

(** The layout [NewChain] creates in an empty store. *)
Definition emptyLayout : bucket :=
  [ (metaBucket, Bkt [ (metaBlockIndexBucket, Bkt []); (metaHeightIndexBucket, Bkt []) ]) ].

Definition chainAt5 (ps : Peers) : Chain :=
  {| db := emptyLayout; bi := newBlockIndex; qi := newQueryIndex; rt := runtimeAt5 ps |}.

Definition chainABC : Chain := chainAt5 peersABC.
Definition chainNoPeers : Chain := chainAt5 {| Servers := [] |}.

(** The block at the head of [chainAt5], a block of height 2 and blocks of
    height 6 that extend the head, and a block that does not. *)
Definition headBlock : Block := mkBlock "C" [6] [7] 50 [].
Definition staleBlock : Block := mkBlock "A" [7] [8] 20 [].
Definition nextBlock (producer : NodeID) : Block := mkBlock producer [7] [8] 60 [].
Definition strayBlock : Block := mkBlock "A" [4] [8] 60 [].

(** A block at the height of the head that carries the hash of the head as
    its own hash and as its parent hash. *)
Definition echoBlock : Block := mkBlock "X" [7] [7] 50 [].

Definition config : Config :=
  {| Genesis := mkBlock "A" [] [1] 0 []; Period := 10; QueryTTL := 2;
     Config_Peers := peersABC; Config_Server := {| ID := "A" |} |}.

(** A store whose block index holds the genesis block [01], its child
    [02], and a second child [03] of the genesis block: a fork. *)
Definition forkStore : bucket :=
  [ (metaBucket,
     Bkt [ (metaBlockIndexBucket,
            Bkt [ ([1], Val [0; 0; 1]); ([2], Val [10; 1; 2]); ([3], Val [20; 1; 3]) ]);
           (metaHeightIndexBucket, Bkt []);
           (metaStateKey, Val [1; 2]) ]) ].

(** The nodes of the genesis block and of its first child, and a chain
    whose block index holds the genesis node. *)
Definition genesisNode : blockNode := newBlockNode 0 (mkBlock "" [0] [1] 0 []) None.
Definition childNode : blockNode :=
  newBlockNode 1 (mkBlock "" [1] [2] 10 []) (Some genesisNode).
Definition chainWithGenesis : Chain :=
  {| db := forkStore; bi := addBlock genesisNode newBlockIndex; qi := newQueryIndex;
     rt := newRunTime config |}.

(** A store that holds, at height 3, the ack with header hash [09]. *)
Definition ackStore : bucket :=
  [ (metaBucket,
     Bkt [ (metaBlockIndexBucket, Bkt []);
           (metaHeightIndexBucket,
            Bkt [ (heightToKey 3,
                   Bkt [ (metaAckIndexBucket, Bkt [ ([9], Val [30; 9]) ]);
                         (metaRequestIndexBucket, Bkt []);
                         (metaResponseIndexBucket, Bkt []) ]) ]) ]) ].

End Example.

(** ** Further instances

    A network in which the peer ["B"] answers with a block and no other
    peer can be reached, a check of blocks that rejects every signature, a
    worker whose kayak runtime returns a result of another type, and a
    configuration whose genesis block comes back from its encoding. *)

Module Scenario.

Definition blockCaller : BlockCaller :=
  {| CallFetchBlock id h resp :=
       if decide (id = "B")
       then (None, Some (Example.mkBlock "B" [7] [8] (h * 10) []))
       else (Some (ErrExternal "no route to peer"), resp) |}.

Definition rejectingVerifier : Verifier :=
  {| Block_Verify _ := Some (ErrExternal "bad signature");
     SignedHeader_Verify _ := None;
     SignedHeader_VerifyAsGenesis _ := None;
     Block_VerifyAsGenesis _ := None;
     Response_Verify _ := None;
     Ack_Verify _ := None |}.

(** The storage file holds 4096 bytes; the kayak runtime answers a request
    without payload with a result that is no response, and fails on any
    other. *)
Definition workerCollaborators : Worker.Collaborators :=
  {| Worker.chain_Query _ := (None, None);
     Worker.kayak_Apply request :=
       match Worker.Payload request with
       | [] => (Worker.NotResponse, None)
       | _ => (Worker.IsResponse None, Some (Worker.ErrCollaborator "not leader"))
       end;
     Worker.filepath_Join dir file := (dir ++ "/" ++ file)%string;
     Worker.os_Stat _ := Worker.StatSize 4096 |}.

Definition unlimited : Worker.DBConfig :=
  {| Worker.DataDir := "data"; Worker.SpaceLimit := 0 |}.

Definition limited : Worker.DBConfig :=
  {| Worker.DataDir := "data"; Worker.SpaceLimit := 1024 |}.

Definition emptyWrite : Worker.Request :=
  {| Worker.QueryType_ := Worker.WriteQuery; Worker.Payload := [] |}.

(** A configuration with the genesis block the block codec gives back. *)
Definition genesisConfig : Config :=
  {| Genesis := Example.mkBlock "" [0] [1] 0 []; Period := 10; QueryTTL := 2;
     Config_Peers := Example.peersABC; Config_Server := {| ID := "A" |} |}.

(** The chain of [Example.chainABC] one turn later, and with itself as
    its only peer. *)
Definition chainBehind : Chain :=
  with_rt (setNextTurn (rt Example.chainABC)) Example.chainABC.

Definition chainAlone : Chain :=
  Example.chainAt5 {| Servers := [ {| ID := "A" |} ] |}.

Definition idle (c : Chain) : blockLoop :=
  {| chain := c; blocks := []; stash := None |}.

(** A store that holds, at height 3 under [09], bytes that are no ack. *)
Definition brokenAckStore : bucket :=
  [ (metaBucket,
     Bkt [ (metaBlockIndexBucket, Bkt []);
           (metaHeightIndexBucket,
            Bkt [ (heightToKey 3,
                   Bkt [ (metaAckIndexBucket, Bkt [ ([9], Val []) ]);
                         (metaRequestIndexBucket, Bkt []);
                         (metaResponseIndexBucket, Bkt []) ]) ]) ]) ].

Definition ackingBlock : Block := Example.mkBlock "A" [7] [8] 60 [ [9] ].

End Scenario.

(** * Properties *)

(** ** Height keys *)

Section HeightKeys.

Lemma land_255 (z : Z) : Z.land z 255 = z mod 256.
Proof. change 255 with (Z.ones 8). rewrite Z.land_ones by lia. reflexivity. Qed.

Lemma lor_shiftl_add (lo hi n : Z) :
  0 <= n -> 0 <= lo < 2 ^ n -> Z.lor lo (Z.shiftl hi n) = lo + hi * 2 ^ n.
Proof.
  intros Hn Hlo.
  rewrite Z.shiftl_mul_pow2 by lia.
  rewrite <- Z.add_nocarry_lor; [reflexivity|].
  apply Z.bits_inj'. intros i Hi.
  rewrite Z.land_spec, Z.bits_0.
  destruct (Z.lt_ge_cases i n) as [Hlt | Hge].
  - rewrite Z.mul_pow2_bits_low by lia. apply andb_false_r.
  - assert (Z.testbit lo i = false) as ->; [|reflexivity].
    destruct (Z.eq_dec lo 0) as [-> | Hne]; [apply Z.bits_0|].
    apply Z.bits_above_log2; [lia|].
    apply Z.log2_lt_pow2; [lia|].
    eapply Z.lt_le_trans; [apply Hlo|].
    apply Z.pow_le_mono_r; lia.
Qed.

(** The four bytes [PutUint32] writes are the base-256 digits of the
    word, the most significant first. *)
Lemma PutUint32_digits (u : Z) :
  0 <= u < 2 ^ 32 ->
  exists b0 b1 b2 b3,
    PutUint32 u = [b0; b1; b2; b3] /\
    0 <= b0 < 256 /\ 0 <= b1 < 256 /\ 0 <= b2 < 256 /\ 0 <= b3 < 256 /\
    u = b0 * 2 ^ 24 + b1 * 2 ^ 16 + b2 * 2 ^ 8 + b3.
Proof.
  intros Hu.
  exists ((u / 2 ^ 24) mod 256), ((u / 2 ^ 16) mod 256), ((u / 2 ^ 8) mod 256), (u mod 256).
  split.
  { unfold PutUint32. rewrite !land_255, !Z.shiftr_div_pow2 by lia. reflexivity. }
  repeat (split; [apply Z.mod_pos_bound; lia|]).
  assert (Hb0 : (u / 2 ^ 24) mod 256 = u / 2 ^ 24).
  { apply Z.mod_small. split; [apply Z.div_pos; lia|].
    apply Z.div_lt_upper_bound; lia. }
  rewrite Hb0.
  pose proof (Z.div_mod u (2 ^ 8) ltac:(lia)) as E1.
  pose proof (Z.div_mod (u / 2 ^ 8) (2 ^ 8) ltac:(lia)) as E2.
  pose proof (Z.div_mod (u / 2 ^ 16) (2 ^ 8) ltac:(lia)) as E3.
  rewrite Z.div_div in E2, E3 by lia.
  change (2 ^ 8 * 2 ^ 8) with (2 ^ 16) in *.
  change (2 ^ 16 * 2 ^ 8) with (2 ^ 24) in *.
  change (2 ^ 8) with 256 in *.
  lia.
Qed.

Lemma Uint32_PutUint32 (u : Z) :
  0 <= u < 2 ^ 32 -> Uint32 (PutUint32 u) = Some u.
Proof.
  intros Hu.
  destruct (PutUint32_digits u Hu) as (b0 & b1 & b2 & b3 & -> & H0 & H1 & H2 & H3 & E).
  unfold Uint32. f_equal.
  rewrite (lor_shiftl_add _ _ 8) by lia.
  rewrite (lor_shiftl_add _ _ 16) by lia.
  rewrite (lor_shiftl_add _ _ 24) by lia.
  lia.
Qed.

Lemma PutUint32_lt (u1 u2 : Z) :
  0 <= u1 -> u1 < u2 -> u2 < 2 ^ 32 ->
  bytes_ltb (PutUint32 u1) (PutUint32 u2) = true.
Proof.
  intros H1 H12 H2.
  destruct (PutUint32_digits u1 ltac:(lia)) as (a0 & a1 & a2 & a3 & -> & ? & ? & ? & ? & E1).
  destruct (PutUint32_digits u2 ltac:(lia)) as (b0 & b1 & b2 & b3 & -> & ? & ? & ? & ? & E2).
  simpl.
  repeat match goal with
         | |- context [?x <? ?y] => destruct (Z.ltb_spec x y); try reflexivity
         end; lia.
Qed.

Lemma to_uint32_range (h : Z) : 0 <= to_uint32 h < 2 ^ 32.
Proof. unfold to_uint32. apply Z.mod_pos_bound. lia. Qed.

Lemma to_uint32_nonneg (h : Z) : 0 <= h < 2 ^ 31 -> to_uint32 h = h.
Proof. intros Hh. unfold to_uint32. apply Z.mod_small. lia. Qed.

Lemma to_uint32_neg (h : Z) : - 2 ^ 31 <= h < 0 -> to_uint32 h = h + 2 ^ 32.
Proof.
  intros Hh. unfold to_uint32.
  symmetry. apply (Z.mod_unique_pos _ _ (-1)); lia.
Qed.

Lemma wrap32_to_uint32 (h : Z) : is_int32 h -> wrap32 (to_uint32 h) = h.
Proof.
  unfold is_int32, wrap32. intros Hh.
  destruct (Z.lt_ge_cases h 0).
  - rewrite to_uint32_neg by lia.
    replace (h + 2 ^ 32 + 2 ^ 31) with (h + 2 ^ 31 + 1 * 2 ^ 32) by lia.
    rewrite Z.mod_add by lia. rewrite Z.mod_small; lia.
  - rewrite to_uint32_nonneg by lia. rewrite Z.mod_small; lia.
Qed.

Lemma keyToHeight_heightToKey (h : Z) :
  is_int32 h -> keyToHeight (heightToKey h) = Some h.
Proof.
  intros Hh. unfold keyToHeight, heightToKey.
  rewrite Uint32_PutUint32 by apply to_uint32_range.
  f_equal. apply wrap32_to_uint32, Hh.
Qed.

(** C8, as stated, fails: the key of height -1 is [ff ff ff ff], which
    sorts after the key [00 00 00 00] of height 0. *)
Lemma heightToKey_order_counterexample :
  ~ ((forall h1 h2 : Z, is_int32 h1 -> is_int32 h2 -> h1 < h2 ->
        bytes_ltb (heightToKey h1) (heightToKey h2) = true) /\
     (forall h : Z, is_int32 h -> keyToHeight (heightToKey h) = Some h)).
Proof.
  intros [Hord _].
  specialize (Hord (-1) 0).
  assert (Hf : bytes_ltb (heightToKey (-1)) (heightToKey 0) = false) by reflexivity.
  rewrite Hord in Hf; [discriminate | unfold is_int32; lia | unfold is_int32; lia | lia].
Qed.

(** C8 (amended): for int32 heights [h1 < h2] of the same sign (both
    non-negative or both negative), [heightToKey h1] sorts before
    [heightToKey h2]; when [h1] is negative and [h2] is not, the order of
    the keys is the reverse one; and [keyToHeight (heightToKey h) = h] for
    every int32 [h]. *)
Theorem heightToKey_order_roundtrip (h1 h2 h : Z) :
  is_int32 h1 -> is_int32 h2 -> is_int32 h -> h1 < h2 ->
  (0 <= h1 \/ h2 < 0 -> bytes_ltb (heightToKey h1) (heightToKey h2) = true) /\
  (h1 < 0 <= h2 -> bytes_ltb (heightToKey h2) (heightToKey h1) = true) /\
  keyToHeight (heightToKey h) = Some h.
Proof.
  unfold is_int32. intros H1 H2 Hh Hlt.
  split; [|split].
  - intros Hsign. unfold heightToKey.
    destruct (Z.lt_ge_cases h1 0).
    + rewrite (to_uint32_neg h1), (to_uint32_neg h2) by lia.
      apply PutUint32_lt; lia.
    + rewrite (to_uint32_nonneg h1), (to_uint32_nonneg h2) by lia.
      apply PutUint32_lt; lia.
  - intros Hsign. unfold heightToKey.
    rewrite (to_uint32_neg h1), (to_uint32_nonneg h2) by lia.
    apply PutUint32_lt; lia.
  - apply keyToHeight_heightToKey. exact Hh.
Qed.

Lemma heightToKey_order_roundtrip_witness :
  (0 <= 3 \/ 7 < 0 -> bytes_ltb (heightToKey 3) (heightToKey 7) = true) /\
  (3 < 0 <= 7 -> bytes_ltb (heightToKey 7) (heightToKey 3) = true) /\
  keyToHeight (heightToKey (-5)) = Some (-5).
Proof.
  apply (heightToKey_order_roundtrip 3 7 (-5)); unfold is_int32; lia.
Defined.

End HeightKeys.

(** Running one bind of an outcome. *)
Ltac outcome_step := unfold mbind, outcome_bind; cbv beta iota.

(** ** Peers and the rotation index *)

Section PeerIndex.

Lemma findFrom_not_found (l : list Server) (key : NodeID) (i : Z) :
  snd (findFrom i l key) = false <-> (forall s, s ∈ l -> ID s <> key).
Proof.
  revert i. induction l as [|s l IH]; intros i; simpl.
  - split; [intros _ s Hs; inversion Hs | reflexivity].
  - destruct (decide (ID s = key)) as [Heq | Hne]; simpl.
    + split; [discriminate|]. intros Hall. exfalso. apply (Hall s); [left | exact Heq].
    + rewrite IH. split.
      * intros Hall s' Hs'. inversion Hs'; subst; [exact Hne | apply Hall; assumption].
      * intros Hall s' Hs'. apply Hall. right. exact Hs'.
Qed.

Lemma findFrom_found (l : list Server) (key : NodeID) (i index : Z) :
  0 <= i -> i + Z.of_nat (length l) < 2 ^ 31 ->
  findFrom i l key = (index, true) ->
  i <= index < i + Z.of_nat (length l) /\
  exists s, l !! Z.to_nat (index - i) = Some s /\ ID s = key.
Proof.
  revert i. induction l as [|s l IH]; intros i Hi Hlen; simpl.
  - discriminate.
  - destruct (decide (ID s = key)) as [Heq | Hne].
    + intros [= <-].
      assert (Hw : wrap32 i = i).
      { unfold wrap32. rewrite Z.mod_small; simpl length in Hlen; lia. }
      rewrite Hw, Z.sub_diag. simpl length. split; [lia|]. exists s. split; [reflexivity | exact Heq].
    + intros Hf. simpl length in Hlen.
      destruct (IH (i + 1) ltac:(lia) ltac:(lia) Hf) as [Hr (s' & Hs' & Hid)].
      split; [simpl length; lia|]. exists s'. split; [|exact Hid].
      replace (Z.to_nat (index - i)) with (S (Z.to_nat (index - (i + 1)))) by lia.
      exact Hs'.
Qed.

(** The index the code computes with [%] on [int32] is the index of the
    rotation whenever a found peer index equals it. *)
Lemma nextProducer_mod (hd : state) (n index : Z) :
  is_int32 (Height hd) -> 0 < n < 2 ^ 31 -> 0 <= index ->
  index = nextProducer hd n -> index = (Height hd + 1) mod n.
Proof.
  unfold is_int32, nextProducer. intros Hh Hn Hi.
  destruct (Z.gtb_spec n 0) as [_ | ?]; [|lia].
  intros ->.
  destruct (Z.eq_dec (Height hd) (2 ^ 31 - 1)) as [Hmax | Hnmax].
  - rewrite Hmax in *.
    change (wrap32 (2 ^ 31 - 1 + 1)) with (- 2 ^ 31) in *.
    pose proof (Z.rem_nonpos (- 2 ^ 31) n ltac:(lia) ltac:(lia)) as Hrem.
    assert (Hz : Z.rem (- 2 ^ 31) n = 0) by lia.
    rewrite Hz. symmetry.
    apply Z.rem_divide in Hz; [|lia].
    apply Z.mod_divide; [lia|].
    replace (2 ^ 31 - 1 + 1) with (- (- 2 ^ 31)) by lia.
    apply Z.divide_opp_r. exact Hz.
  - assert (Hw : wrap32 (Height hd + 1) = Height hd + 1).
    { unfold wrap32. rewrite Z.mod_small; lia. }
    rewrite Hw in *.
    destruct (Z.lt_ge_cases (Height hd + 1) 0) as [Hneg | Hpos].
    + pose proof (Z.rem_nonpos (Height hd + 1) n ltac:(lia) ltac:(lia)) as Hrem.
      assert (Hz : Z.rem (Height hd + 1) n = 0) by lia.
      rewrite Hz. symmetry.
      apply Z.rem_divide in Hz; [|lia].
      apply Z.mod_divide; [lia | exact Hz].
    + apply Z.rem_mod_nonneg; lia.
Qed.

Lemma wrap32_small (z : Z) : is_int32 z -> wrap32 z = z.
Proof. unfold is_int32, wrap32. intros Hz. rewrite Z.mod_small; lia. Qed.

End PeerIndex.

(** ** Checks before a block is pushed *)

Section CheckAndPush.

Context `{BinaryCodec Block} `{BinaryCodec state}
        `{BinaryCodec SignedResponseHeader} `{BinaryCodec SignedAckHeader}
        `{Verifier} `{Caller}.

Lemma alreadyHead_test (c : Chain) (block : Block) :
  (Height (getHead (rt c)) =? getHeightFromTime (rt c) (Timestamp block))
    && bool_decide (Head (getHead (rt c)) = BlockHash block) = true
  <-> alreadyHead c block.
Proof.
  unfold alreadyHead.
  rewrite andb_true_iff, Z.eqb_eq, bool_decide_eq_true. reflexivity.
Qed.

Lemma CheckAndPushNewBlock_already (c : Chain) (block : Block) :
  alreadyHead c block -> CheckAndPushNewBlock c block = Done (None, c).
Proof.
  intros Hah. apply alreadyHead_test in Hah.
  unfold CheckAndPushNewBlock. rewrite Hah. reflexivity.
Qed.

Lemma CheckAndPushNewBlock_invalid (c : Chain) (block : Block) :
  ~ alreadyHead c block -> ParentHash block <> Head (getHead (rt c)) ->
  CheckAndPushNewBlock c block = Done (Some ErrInvalidBlock, c).
Proof.
  intros Hna Hp. unfold CheckAndPushNewBlock.
  destruct (_ && _) eqn:Hah; [apply alreadyHead_test in Hah; contradiction|].
  rewrite bool_decide_eq_false_2 by exact Hp. reflexivity.
Qed.

(** C4: a block with the height and the hash of the head is answered with
    [nil] and nothing changes; any other block whose parent hash differs
    from the head hash is answered with [ErrInvalidBlock], and nothing
    changes either (the head in particular). *)
Theorem CheckAndPushNewBlock_head_checks (c : Chain) (block : Block) :
  (alreadyHead c block -> CheckAndPushNewBlock c block = Done (None, c)) /\
  (~ alreadyHead c block -> ParentHash block <> Head (getHead (rt c)) ->
   CheckAndPushNewBlock c block = Done (Some ErrInvalidBlock, c)).
Proof.
  split; [apply CheckAndPushNewBlock_already | apply CheckAndPushNewBlock_invalid].
Qed.

(** What is left of [CheckAndPushNewBlock] once the block extends the
    head. *)
Lemma CheckAndPushNewBlock_extends (c : Chain) (block : Block) :
  ~ alreadyHead c block -> ParentHash block = Head (getHead (rt c)) ->
  CheckAndPushNewBlock c block =
    let height := getHeightFromTime (rt c) (Timestamp block) in
    let total := wrap32 (Z.of_nat (length (Servers (getPeers (rt c))))) in
    let '(index, found) := Find (getPeers (rt c)) (Producer block) in
    if negb found then Done (Some ErrUnknownProducer, c)
    else if negb (index =? nextProducer (getHead (rt c)) total)
         then Done (Some ErrInvalidProducer, c)
    else
      '(err, c) ← checkQueries c height block (Queries block);
      match err with
      | Some _ => Done (err, c)
      | None =>
          match Block_Verify block with
          | Some e => Done (Some e, c)
          | None => pushBlock c block
          end
      end.
Proof.
  intros Hna Hp. unfold CheckAndPushNewBlock.
  destruct (_ && _) eqn:Hah; [apply alreadyHead_test in Hah; contradiction|].
  rewrite bool_decide_eq_true_2 by exact Hp. reflexivity.
Qed.

Lemma CheckAndPushNewBlock_unknown (c : Chain) (block : Block) :
  ~ alreadyHead c block -> ParentHash block = Head (getHead (rt c)) ->
  (forall s, s ∈ Servers (getPeers (rt c)) -> ID s <> Producer block) ->
  CheckAndPushNewBlock c block = Done (Some ErrUnknownProducer, c).
Proof.
  intros Hna Hp Hnone.
  rewrite CheckAndPushNewBlock_extends by assumption. cbv zeta.
  apply findFrom_not_found with (i := 0) in Hnone.
  unfold Find. destruct (findFrom 0 _ _) as [index found]. simpl in Hnone.
  rewrite Hnone. reflexivity.
Qed.

Lemma CheckAndPushNewBlock_accepts (c c' : Chain) (block : Block) :
  ~ alreadyHead c block -> ParentHash block = Head (getHead (rt c)) ->
  CheckAndPushNewBlock c block = Done (None, c') ->
  Find (getPeers (rt c)) (Producer block) =
    (nextProducer (getHead (rt c))
       (wrap32 (Z.of_nat (length (Servers (getPeers (rt c)))))), true).
Proof.
  intros Hna Hp.
  rewrite CheckAndPushNewBlock_extends by assumption. cbv zeta.
  destruct (Find _ _) as [index found].
  destruct found; simpl negb; cbv iota; [|discriminate].
  destruct (Z.eqb_spec index
    (nextProducer (getHead (rt c))
       (wrap32 (Z.of_nat (length (Servers (getPeers (rt c)))))))) as [-> | Hne];
    simpl negb; cbv iota; [reflexivity | discriminate].
Qed.

Lemma CheckAndPushNewBlock_wrong_index (c : Chain) (block : Block) (index : Z) :
  ~ alreadyHead c block -> ParentHash block = Head (getHead (rt c)) ->
  Find (getPeers (rt c)) (Producer block) = (index, true) ->
  index <> nextProducer (getHead (rt c))
             (wrap32 (Z.of_nat (length (Servers (getPeers (rt c)))))) ->
  CheckAndPushNewBlock c block = Done (Some ErrInvalidProducer, c).
Proof.
  intros Hna Hp Hf Hne.
  rewrite CheckAndPushNewBlock_extends by assumption. cbv zeta.
  rewrite Hf. simpl negb. cbv iota.
  destruct (Z.eqb_spec index
    (nextProducer (getHead (rt c))
       (wrap32 (Z.of_nat (length (Servers (getPeers (rt c)))))))) as [? | _];
    [contradiction | reflexivity].
Qed.

(** C3 (amended): for every incoming block that is not the head already
    (same height and same hash) and whose parent hash equals the head
    hash, [CheckAndPushNewBlock] returns [ErrUnknownProducer] when the
    producer is not in the peer list and [ErrInvalidProducer] when the
    producer's peer index differs from [(head.Height + 1) mod |peers|];
    it returns [nil] only if the producer sits at that rotation index. *)
Theorem CheckAndPushNewBlock_producer (c : Chain) (block : Block) :
  is_int32 (Height (getHead (rt c))) ->
  Z.of_nat (length (Servers (getPeers (rt c)))) < 2 ^ 31 ->
  ParentHash block = Head (getHead (rt c)) ->
  ~ alreadyHead c block ->
  ((forall s, s ∈ Servers (getPeers (rt c)) -> ID s <> Producer block) ->
     CheckAndPushNewBlock c block = Done (Some ErrUnknownProducer, c)) /\
  (forall index,
     Find (getPeers (rt c)) (Producer block) = (index, true) ->
     index <> (Height (getHead (rt c)) + 1)
                mod Z.of_nat (length (Servers (getPeers (rt c)))) ->
     CheckAndPushNewBlock c block = Done (Some ErrInvalidProducer, c)) /\
  (forall c',
     CheckAndPushNewBlock c block = Done (None, c') ->
     Find (getPeers (rt c)) (Producer block) =
       ((Height (getHead (rt c)) + 1)
          mod Z.of_nat (length (Servers (getPeers (rt c)))), true)).
Proof.
  intros Hh Hn Hp Hna.
  set (n := Z.of_nat (length (Servers (getPeers (rt c))))) in *.
  assert (Hw : wrap32 n = n) by (apply wrap32_small; unfold is_int32; lia).
  assert (Hidx : forall index,
    Find (getPeers (rt c)) (Producer block) = (index, true) ->
    index = nextProducer (getHead (rt c)) n ->
    index = (Height (getHead (rt c)) + 1) mod n).
  { intros index Hf Hi.
    pose proof (findFrom_found (Servers (getPeers (rt c))) (Producer block) 0 index)
      as Hff.
    fold n in Hff. destruct (Hff ltac:(lia) ltac:(lia) Hf) as [Hr _].
    apply nextProducer_mod; [exact Hh | lia | lia | exact Hi]. }
  split; [|split].
  - apply CheckAndPushNewBlock_unknown; assumption.
  - intros index Hf Hne.
    apply (CheckAndPushNewBlock_wrong_index c block index); try assumption.
    fold n. rewrite Hw. intros Heq. apply Hne, Hidx; assumption.
  - intros c' Hr.
    pose proof (CheckAndPushNewBlock_accepts c c' block Hna Hp Hr) as Hf.
    fold n in Hf. rewrite Hw in Hf.
    rewrite Hf. f_equal. apply Hidx; [exact Hf | reflexivity].
Qed.

(** C9 (amended): when the peer list is empty, [CheckAndPushNewBlock] does
    not panic (the rotation index is -1, no division takes place) and
    never pushes the block: it returns [nil] and changes nothing when the
    block is the head already, [ErrInvalidBlock] when the block does not
    extend the head, and [ErrUnknownProducer] otherwise. *)
Theorem CheckAndPushNewBlock_empty_peers (c : Chain) (block : Block) :
  Servers (getPeers (rt c)) = [] ->
  nextProducer (getHead (rt c))
    (wrap32 (Z.of_nat (length (Servers (getPeers (rt c)))))) = -1 /\
  (alreadyHead c block -> CheckAndPushNewBlock c block = Done (None, c)) /\
  (~ alreadyHead c block -> ParentHash block <> Head (getHead (rt c)) ->
   CheckAndPushNewBlock c block = Done (Some ErrInvalidBlock, c)) /\
  (~ alreadyHead c block -> ParentHash block = Head (getHead (rt c)) ->
   CheckAndPushNewBlock c block = Done (Some ErrUnknownProducer, c)).
Proof.
  intros Hempty. split; [rewrite Hempty; reflexivity|].
  split; [apply CheckAndPushNewBlock_already|].
  split; [apply CheckAndPushNewBlock_invalid|].
  intros Hna Hp. apply CheckAndPushNewBlock_unknown; try assumption.
  rewrite Hempty. intros s Hs. inversion Hs.
Qed.

(** C5: an ack whose response timestamp maps to a height below
    [head.Height - queryTTL] is answered with [ErrQueryExpired], and the
    chain (its store and its query index) is left as it was. *)
Theorem VerifyAndPushAckedQuery_expired (c : Chain) (ack : SignedAckHeader) :
  getHeightFromTime (rt c) (Response_Timestamp (Ack_SignedResponseHeader ack))
    < Height (getHead (rt c)) - queryTTL (rt c) ->
  VerifyAndPushAckedQuery c ack = Done (Some ErrQueryExpired, c).
Proof.
  intros Hlt. unfold VerifyAndPushAckedQuery, queryTimeIsExpired.
  destruct (Z.ltb_spec
    (getHeightFromTime (rt c) (Response_Timestamp (Ack_SignedResponseHeader ack)))
    (Height (getHead (rt c)) - queryTTL (rt c))); [reflexivity | lia].
Qed.

(** ** Fetching a block *)



End CheckAndPush.

(** ** Fetching an acknowledged query *)

Section FetchAck.

Context `{BinaryCodec Block} `{BinaryCodec state}
        `{BinaryCodec SignedResponseHeader} `{BinaryCodec SignedAckHeader}
        `{Verifier} `{Caller}.

Lemma storedAck_lookups (tx : bucket) (height : Z) (header : Hash) (v : bytes) :
  storedAck tx height header = Some v ->
  Bucket_Bucket tx (Tx_Bucket tx metaBucket) metaHeightIndexBucket
    = Done (Some [metaBucket; metaHeightIndexBucket]) /\
  Bucket_Bucket tx (Some [metaBucket; metaHeightIndexBucket]) (heightToKey height)
    = Done (Some [metaBucket; metaHeightIndexBucket; heightToKey height]) /\
  Bucket_Bucket tx (Some [metaBucket; metaHeightIndexBucket; heightToKey height])
    metaAckIndexBucket
    = Done (Some [metaBucket; metaHeightIndexBucket; heightToKey height;
                  metaAckIndexBucket]) /\
  Bucket_Get tx (Some [metaBucket; metaHeightIndexBucket; heightToKey height;
                       metaAckIndexBucket]) header
    = Done (Some v).
Proof.
  unfold storedAck, Bucket_Bucket, Bucket_Get, Tx_Bucket. cbn [resolve app].
  destruct (lookup_key metaBucket tx) as [[?|b1]|] eqn:E1; try discriminate.
  cbn [resolve app]. rewrite ?E1.
  destruct (lookup_key metaHeightIndexBucket b1) as [[?|b2]|] eqn:E2; try discriminate.
  cbn [resolve app]. rewrite ?E1, ?E2.
  destruct (lookup_key (heightToKey height) b2) as [[?|b3]|] eqn:E3; try discriminate.
  cbn [resolve app]. rewrite ?E1, ?E2, ?E3.
  destruct (lookup_key metaAckIndexBucket b3) as [[?|b4]|] eqn:E4; try discriminate.
  cbn [resolve app]. rewrite ?E1, ?E2, ?E3, ?E4.
  destruct (lookup_key header b4) as [[v'|?]|] eqn:E5; try discriminate.
  intros [= ->]. repeat split; reflexivity.
Qed.

(** With a decodable ack in the store, every iteration of the loop
    decodes it, keeps [ack] as it was and goes on; the loop ends when [i]
    has passed [height]. *)
Lemma fetchAckedQueryLoop_decodable (tx : bucket) (height : Z) (header : Hash)
    (v : bytes) (a : SignedAckHeader) (ack : option SignedAckHeader) :
  storedAck tx height header = Some v ->
  UnmarshalBinary v = (a, None) ->
  height < 2 ^ 31 - 1 ->
  forall (fuel : nat) (i : Z),
    - 2 ^ 31 <= i ->
    (Z.to_nat (height + 1 - i) < fuel)%nat ->
    fetchAckedQueryLoop fuel tx i height header ack None = Done (ack, None).
Proof.
  intros Hst Hdec Hmax.
  destruct (storedAck_lookups tx height header v Hst) as (L1 & L2 & L3 & L4).
  induction fuel as [|fuel IH]; intros i Hi Hfuel; [lia|].
  cbn [fetchAckedQueryLoop].
  destruct (Z.leb_spec i height) as [Hle | Hgt]; [|reflexivity].
  rewrite L1. outcome_step. rewrite L2. outcome_step.
  rewrite L3. outcome_step. rewrite L4. outcome_step.
  rewrite Hdec.
  assert (Hw : wrap32 (i + 1) = i + 1) by (apply wrap32_small; unfold is_int32; lia).
  rewrite Hw. apply IH; lia.
Qed.

(** C1 fails on the code: with the ack absent from the query index, stored
    under the ack index of the height and decodable, [FetchAckedQuery]
    returns a [nil] ack with a [nil] error, never the stored ack ([ack] is
    assigned only when decoding fails).  The loop needs [height] below the
    largest [int32], or [i <= height] never fails. *)
Theorem FetchAckedQuery_loses_stored_ack (c : Chain) (height : Z) (header : Hash)
    (v : bytes) (a : SignedAckHeader) (e : error) :
  getAck height header (qi c) = (None, Some e) ->
  storedAck (db c) height header = Some v ->
  UnmarshalBinary v = (a, None) ->
  height < 2 ^ 31 - 1 ->
  exists fuel0 : nat, forall fuel : nat, (fuel0 <= fuel)%nat ->
    FetchAckedQuery fuel c height header = Done (None, None).
Proof.
  intros Hmem Hst Hdec Hmax.
  exists (S (Z.to_nat (height + 1 - wrap32 (height - queryTTL (rt c))))).
  intros fuel Hfuel. unfold FetchAckedQuery, db_View. rewrite Hmem.
  apply (fetchAckedQueryLoop_decodable (db c) height header v a None Hst Hdec Hmax).
  - unfold wrap32.
    pose proof (Z.mod_pos_bound (height - queryTTL (rt c) + 2 ^ 31) (2 ^ 32) ltac:(lia)).
    lia.
  - lia.
Qed.

End FetchAck.

(** ** Loading the chain *)

Section Load.

Context `{BinaryCodec Block} `{BinaryCodec state}
        `{BinaryCodec SignedResponseHeader} `{BinaryCodec SignedAckHeader}
        `{Verifier} `{Caller}.

(** Loading blocks never adds a node to the block index. *)
Lemma loadBlocks_bi (items : list (bytes * bytes)) :
  forall (c : Chain) (last : option blockNode) (nodes : list blockNode),
    bi (snd (fst (loadBlocks c last nodes items))) = bi c.
Proof.
  induction items as [|[k v] items IH]; intros c last nodes; simpl; [reflexivity|].
  destruct (UnmarshalBinary v) as [block [e|]]; [reflexivity|].
  destruct last as [l|].
  - destruct (bool_decide (ParentHash block = bn_hash l)).
    + destruct (SignedHeader_Verify block); [reflexivity | apply IH].
    + destruct (lookupNode (BlockHash block) (bi c)); [apply IH | reflexivity].
  - destruct (SignedHeader_VerifyAsGenesis block); [reflexivity|].
    rewrite IH. reflexivity.
Qed.

(** A block that does not extend the block loaded before it is looked up
    by its own hash: when the index has no node under that hash the load
    stops, whether or not the index has the node of the parent. *)
Lemma loadBlocks_looks_up_block_hash (c : Chain) (l : blockNode) (nodes : list blockNode)
    (k v : bytes) (items : list (bytes * bytes)) (block : Block) :
  UnmarshalBinary v = (block, None) ->
  ParentHash block <> bn_hash l ->
  lookupNode (BlockHash block) (bi c) = None ->
  loadBlocks c (Some l) nodes ((k, v) :: items) = (Some ErrParentNotFound, c, nodes).
Proof.
  intros Hdec Hne Hl.
  cbn [loadBlocks]. rewrite Hdec.
  rewrite bool_decide_eq_false_2 by exact Hne.
  rewrite Hl. reflexivity.
Qed.

(** With the empty index [LoadChain] starts from, a block that does not
    extend the block loaded before it stops the load, whether or not its
    parent was loaded. *)
Lemma loadBlocks_fork_fails (c : Chain) (l : blockNode) (nodes : list blockNode)
    (k v : bytes) (items : list (bytes * bytes)) (block : Block) :
  bi c = newBlockIndex ->
  UnmarshalBinary v = (block, None) ->
  ParentHash block <> bn_hash l ->
  loadBlocks c (Some l) nodes ((k, v) :: items) = (Some ErrParentNotFound, c, nodes).
Proof.
  intros Hbi Hdec Hne.
  apply (loadBlocks_looks_up_block_hash c l nodes k v items block Hdec Hne).
  unfold lookupNode. rewrite Hbi. apply lookup_empty.
Qed.

End Load.

(** ** The head height *)

Section HeadHeight.

Context `{BinaryCodec Block} `{BinaryCodec state}
        `{BinaryCodec SignedResponseHeader} `{BinaryCodec SignedAckHeader}
        `{Verifier} `{Caller}.

(** What [pushBlock] does to the runtime: on success the head is the node
    of the block, at the height of the block's timestamp; on an error the
    runtime is as it was. *)
Lemma pushBlock_rt (c c' : Chain) (b : Block) (err : option error) :
  pushBlock c b = Done (err, c') ->
  match err with
  | None =>
      let h := getHeightFromTime (rt c) (Timestamp b) in
      let n := newBlockNode h b (node (getHead (rt c))) in
      rt c' = setHead {| node := Some n; Head := bn_hash n; Height := bn_height n |} (rt c)
  | Some _ => rt c' = rt c
  end.
Proof.
  unfold pushBlock, db_Update.
  destruct (MarshalBinary b) as [encBlock [e|]]; [intros [= <- <-]; reflexivity|].
  destruct (MarshalBinary _) as [encState [e|]]; [intros [= <- <-]; reflexivity|].
  outcome_step.
  destruct (Bucket_Put _ _ metaStateKey _) as [[[e|] tx1]| |]; try discriminate.
  { intros [= <- <-]. reflexivity. }
  outcome_step.
  destruct (Bucket_Bucket _ _ _) as [blocks| |]; try discriminate.
  outcome_step.
  destruct (Bucket_Put _ _ _ _) as [[[e|] tx2]| |]; try discriminate.
  { intros [= <- <-]. reflexivity. }
  intros [= <- <-]. reflexivity.
Qed.

Lemma pushAckedQuery_rt (c c' : Chain) (ack : SignedAckHeader) (err : option error) :
  pushAckedQuery c ack = Done (err, c') -> rt c' = rt c.
Proof.
  unfold pushAckedQuery, db_Update.
  destruct (MarshalBinary ack) as [enc [e|]]; [intros [= <- <-]; reflexivity|].
  outcome_step.
  destruct (ensureHeight _ _) as [[[hb [e|]] tx1]| |]; try discriminate.
  { intros [= <- <-]. reflexivity. }
  outcome_step.
  destruct (Bucket_Bucket _ _ _) as [ab| |]; try discriminate.
  outcome_step.
  destruct (Bucket_Put _ _ _ _) as [[[e|] tx2]| |]; try discriminate.
  - destruct e; try (destruct (addAck _ _ _) as [[e'|] q]);
      intros [= <- <-]; reflexivity.
  - destruct (addAck _ _ _) as [[e'|] q]; intros [= <- <-]; reflexivity.
Qed.

Lemma VerifyAndPushAckedQuery_rt (c c' : Chain) (ack : SignedAckHeader)
    (err : option error) :
  VerifyAndPushAckedQuery c ack = Done (err, c') -> rt c' = rt c.
Proof.
  unfold VerifyAndPushAckedQuery.
  destruct (queryTimeIsExpired _ _); [intros [= <- <-]; reflexivity|].
  destruct (Ack_Verify ack); [intros [= <- <-]; reflexivity|].
  apply pushAckedQuery_rt.
Qed.

Lemma syncAckedQuery_rt (c c' : Chain) (height : Z) (ack : Hash) (id : NodeID)
    (err : option error) :
  syncAckedQuery c height ack id = Done (err, c') -> rt c' = rt c.
Proof.
  unfold syncAckedQuery.
  destruct (CallFetchAckedQuery id height ack) as [[e|] [a|]];
    try (intros [= <- <-]; reflexivity); try discriminate.
  apply VerifyAndPushAckedQuery_rt.
Qed.

Lemma checkQueries_rt (height : Z) (block : Block) (qs : list Hash) :
  forall (c c' : Chain) (err : option error),
    checkQueries c height block qs = Done (err, c') -> rt c' = rt c.
Proof.
  induction qs as [|q qs IH]; intros c c' err; cbn [checkQueries].
  - intros [= <- <-]. reflexivity.
  - destruct (checkAckFromBlock _ _ _ _) as [ok [e|]]; [intros [= <- <-]; reflexivity|].
    destruct ok; [apply IH|].
    outcome_step.
    destruct (syncAckedQuery _ _ _ _) as [[err1 c1]| |] eqn:Hsync; try discriminate.
    apply syncAckedQuery_rt in Hsync.
    destruct err1 as [e|]; [intros [= <- <-]; exact Hsync|].
    destruct (checkAckFromBlock _ _ _ _) as [ok' [e|]]; [intros [= <- <-]; exact Hsync|].
    intros Hrest. apply IH in Hrest. congruence.
Qed.

(** [CheckAndPushNewBlock] leaves the runtime as it was, or pushes the
    block onto the chain it was given. *)
Lemma CheckAndPushNewBlock_rt (c c' : Chain) (block : Block) (err : option error) :
  CheckAndPushNewBlock c block = Done (err, c') ->
  rt c' = rt c \/
  exists c1, rt c1 = rt c /\ pushBlock c1 block = Done (err, c').
Proof.
  unfold CheckAndPushNewBlock.
  destruct (_ && _); [intros [= <- <-]; left; reflexivity|].
  destruct (negb (bool_decide _)); [intros [= <- <-]; left; reflexivity|].
  destruct (Find _ _) as [index found].
  destruct (negb found); [intros [= <- <-]; left; reflexivity|].
  destruct (negb (index =? _)); [intros [= <- <-]; left; reflexivity|].
  outcome_step.
  destruct (checkQueries _ _ _ _) as [[err1 c1]| |] eqn:Hq; try discriminate.
  apply checkQueries_rt in Hq.
  destruct err1 as [e|]; [intros [= <- <-]; left; exact Hq|].
  destruct (Block_Verify block); [intros [= <- <-]; left; exact Hq|].
  intros Hpush. right. exists c1. split; assumption.
Qed.

(** C2 (amended): a successful [pushBlock] sets the head height to the
    height of the block's timestamp, whatever the head height was; and one
    receive of [processBlocks] (own-producer push and checked push alike)
    keeps the head height from decreasing as long as the head height is
    at most [nextTurn - 1], which the receive preserves: it pushes only a
    block whose timestamp height is [nextTurn - 1]. *)
Theorem head_height_after_push :
  (forall (c c' : Chain) (b : Block),
      pushBlock c b = Done (None, c') ->
      Height (getHead (rt c')) = getHeightFromTime (rt c) (Timestamp b)) /\
  (forall s s' : blockLoop,
      Height (getHead (rt (chain s))) <= wrap32 (getNextTurn (rt (chain s)) - 1) ->
      processBlocks_step s = Done s' ->
      Height (getHead (rt (chain s))) <= Height (getHead (rt (chain s'))) /\
      Height (getHead (rt (chain s'))) <= wrap32 (getNextTurn (rt (chain s')) - 1)).
Proof.
  assert (Hpush : forall (c c' : Chain) (b : Block) (err : option error),
    pushBlock c b = Done (err, c') ->
    getNextTurn (rt c') = getNextTurn (rt c) /\
    (Height (getHead (rt c')) = Height (getHead (rt c)) \/
     Height (getHead (rt c')) = getHeightFromTime (rt c) (Timestamp b))).
  { intros c c' b err Hp. apply pushBlock_rt in Hp.
    destruct err; [rewrite Hp; split; [reflexivity | left; reflexivity]|].
    cbv zeta in Hp. rewrite Hp. split; [reflexivity | right; reflexivity]. }
  split.
  - intros c c' b Hp. apply pushBlock_rt in Hp. cbv zeta in Hp.
    rewrite Hp. reflexivity.
  - intros s s' Hinv. unfold processBlocks_step.
    destruct (blocks s) as [|block pending]; [intros [= <-]; lia|].
    destruct (Z.gtb_spec (getHeightFromTime (rt (chain s)) (Timestamp block))
                (wrap32 (getNextTurn (rt (chain s)) - 1))) as [Hgt | Hle].
    { intros [= <-]. simpl. lia. }
    outcome_step.
    destruct (Z.ltb_spec (getHeightFromTime (rt (chain s)) (Timestamp block))
                (wrap32 (getNextTurn (rt (chain s)) - 1))) as [Hlt | Hge].
    { intros [= <-]. simpl. lia. }
    destruct (bool_decide _).
    + outcome_step.
      destruct (pushBlock _ _) as [[err c1]| |] eqn:Hp; try discriminate.
      intros [= <-]. simpl.
      destruct (Hpush _ _ _ _ Hp) as [Hnt Hh]. rewrite Hnt. lia.
    + outcome_step.
      destruct (CheckAndPushNewBlock _ _) as [[err c1]| |] eqn:Hp; try discriminate.
      intros [= <-]. simpl.
      destruct (CheckAndPushNewBlock_rt _ _ _ _ Hp) as [Hrt | (c0 & Hrt & Hp0)].
      * rewrite Hrt. lia.
      * destruct (Hpush _ _ _ _ Hp0) as [Hnt Hh]. rewrite Hrt in *. rewrite Hnt. lia.
Qed.

End HeadHeight.

(** ** The store under updates *)

Section StoreUpdates.

Lemma lookup_insert_key_eq (k : bytes) (n : entry) (b : bucket) :
  lookup_key k (insert_key k n b) = Some n.
Proof.
  induction b as [|[k' n'] b IH]; simpl.
  - rewrite decide_True by reflexivity. reflexivity.
  - destruct (decide (k = k')) as [-> | Hne]; simpl.
    + rewrite decide_True by reflexivity. reflexivity.
    + destruct (bytes_ltb k k'); simpl.
      * rewrite decide_True by reflexivity. reflexivity.
      * rewrite decide_False by exact Hne. exact IH.
Qed.

Lemma lookup_insert_key_ne (k k' : bytes) (n : entry) (b : bucket) :
  k <> k' -> lookup_key k' (insert_key k n b) = lookup_key k' b.
Proof.
  intros Hne. induction b as [|[k0 n0] b IH]; simpl.
  - rewrite decide_False by congruence. reflexivity.
  - destruct (decide (k = k0)) as [-> | Hne0]; simpl.
    + rewrite !decide_False by congruence. reflexivity.
    + destruct (bytes_ltb k k0); simpl.
      * rewrite (decide_False (P := k' = k)) by congruence. reflexivity.
      * destruct (decide (k' = k0)); [reflexivity | exact IH].
Qed.

Lemma kind_at_resolve (q : list bytes) :
  forall (root kvs : bucket) (k : bytes),
    resolve q root = Some kvs ->
    kind_at (q ++ [k]) root =
      match lookup_key k kvs with
      | None => KNone
      | Some e => kind_of e
      end.
Proof.
  induction q as [|n q IH]; intros root kvs k; simpl.
  - intros [= ->]. destruct (lookup_key k kvs) as [[v|sub]|]; reflexivity.
  - destruct (lookup_key n root) as [[v|sub]|]; try discriminate.
    intros Hr. apply IH. exact Hr.
Qed.

Lemma kind_at_update_eq (q : list bytes) :
  forall (root kvs : bucket) (k : bytes) (e : entry),
    resolve q root = Some kvs ->
    kind_at (q ++ [k]) (update_at q (insert_key k e) root) = kind_of e.
Proof.
  induction q as [|n q IH]; intros root kvs k e; simpl.
  - intros _. rewrite lookup_insert_key_eq. destruct e; reflexivity.
  - destruct (lookup_key n root) as [[v|sub]|]; try discriminate.
    intros Hr. rewrite lookup_insert_key_eq. apply (IH sub kvs). exact Hr.
Qed.

(** Writing a value or an empty bucket under a key that names no bucket
    changes what the store holds at the path of the key only. *)
Lemma kind_at_update_ne (q : list bytes) :
  forall (root kvs : bucket) (k : bytes) (e : entry) (p : list bytes),
    resolve q root = Some kvs ->
    (forall sub, lookup_key k kvs <> Some (Bkt sub)) ->
    (exists v, e = Val v) \/ e = Bkt [] ->
    p <> q ++ [k] ->
    kind_at p (update_at q (insert_key k e) root) = kind_at p root.
Proof.
  induction q as [|n q IH]; intros root kvs k e p; simpl.
  - intros [= ->] Hnb He Hp.
    destruct p as [|k' p']; [reflexivity|]. simpl.
    destruct (decide (k = k')) as [<- | Hne].
    + rewrite lookup_insert_key_eq.
      assert (Hp' : p' <> []) by (intros ->; apply Hp; reflexivity).
      destruct p' as [|k2 p2]; [contradiction|].
      assert (Hold : match lookup_key k kvs with
                     | None => KNone
                     | Some (Val _) => KNone
                     | Some (Bkt sub) => kind_at (k2 :: p2) sub
                     end = KNone).
      { destruct (lookup_key k kvs) as [[v|sub]|] eqn:E; try reflexivity.
        exfalso. apply (Hnb sub). reflexivity. }
      rewrite Hold.
      destruct He as [[v ->] | ->]; reflexivity.
    + rewrite lookup_insert_key_ne by exact Hne. reflexivity.
  - destruct (lookup_key n root) as [[v|sub]|] eqn:En; try discriminate.
    intros Hr Hnb He Hp.
    destruct p as [|k' p']; [reflexivity|]. simpl.
    destruct (decide (n = k')) as [<- | Hne].
    + rewrite lookup_insert_key_eq, En.
      apply (IH sub kvs); try assumption.
      intros ->. apply Hp. reflexivity.
    + rewrite lookup_insert_key_ne by exact Hne. reflexivity.
Qed.

Lemma grows_refl (root : bucket) : grows root root.
Proof. intros p _. left. reflexivity. Qed.

Lemma grows_trans (r1 r2 r3 : bucket) : grows r1 r2 -> grows r2 r3 -> grows r1 r3.
Proof.
  intros H12 H23 p Hp.
  destruct (H12 p Hp) as [E12 | [N1 V2]], (H23 p Hp) as [E23 | [N2 V3]].
  - left. congruence.
  - right. split; congruence.
  - right. split; congruence.
  - right. split; assumption.
Qed.

Lemma grows_persisted (root root' : bucket) (h : Z) (index : bytes) (key : Hash) :
  grows root root' -> persistedAt root h index key -> persistedAt root' h index key.
Proof.
  unfold persistedAt. intros Hg Hp.
  destruct (Hg [metaBucket; metaHeightIndexBucket; heightToKey h; index; key] eq_refl)
    as [E | [_ V]]; congruence.
Qed.

Lemma grows_plain (root root' : bucket) :
  grows root root' -> plainAckIndex root -> plainAckIndex root'.
Proof.
  intros Hg Hp hk key.
  destruct (Hg [metaBucket; metaHeightIndexBucket; hk; metaAckIndexBucket; key] eq_refl)
    as [E | [_ V]]; [rewrite E; apply Hp | rewrite V; discriminate].
Qed.

(** What a successful [Put] does to the store. *)
Lemma Bucket_Put_done (tx tx' : bucket) (b : handle) (key value : bytes) :
  Bucket_Put tx b key value = Done (None, tx') ->
  exists q, b = Some q /\
    kind_at (q ++ [key]) tx <> KBkt /\
    kind_at (q ++ [key]) tx' = KVal /\
    forall p, p <> q ++ [key] -> kind_at p tx' = kind_at p tx.
Proof.
  unfold Bucket_Put. destruct b as [q|]; [|discriminate].
  destruct (resolve q tx) as [kvs|] eqn:Hr; [|discriminate].
  destruct (_ =? 0); [discriminate|].
  destruct (_ >? MaxKeySize); [discriminate|].
  destruct (_ >? MaxValueSize); [discriminate|].
  assert (Hk := kind_at_resolve q tx kvs key Hr).
  destruct (lookup_key key kvs) as [[v|sub]|] eqn:El; try discriminate;
    intros [= <-]; exists q; (split; [reflexivity|]);
    (split; [rewrite Hk; discriminate|]);
    (split; [apply (kind_at_update_eq q tx kvs key (Val value) Hr)|]);
    intros p Hp; apply (kind_at_update_ne q tx kvs); try assumption;
    try (left; eexists; reflexivity); intros sub; rewrite El; discriminate.
Qed.

(** A failed [Put] leaves the store as it was; [ErrIncompatibleValue]
    tells that the key names a bucket. *)
Lemma Bucket_Put_error (tx tx' : bucket) (b : handle) (key value : bytes)
    (e : boltError) :
  Bucket_Put tx b key value = Done (Some e, tx') ->
  tx' = tx /\
  (e = ErrIncompatibleValue -> exists q, b = Some q /\ kind_at (q ++ [key]) tx = KBkt).
Proof.
  unfold Bucket_Put. destruct b as [q|]; [|discriminate].
  destruct (resolve q tx) as [kvs|] eqn:Hr; [|discriminate].
  destruct (_ =? 0); [intros [= <- <-]; split; [reflexivity | discriminate]|].
  destruct (_ >? MaxKeySize); [intros [= <- <-]; split; [reflexivity | discriminate]|].
  destruct (_ >? MaxValueSize); [intros [= <- <-]; split; [reflexivity | discriminate]|].
  assert (Hk := kind_at_resolve q tx kvs key Hr).
  destruct (lookup_key key kvs) as [[v|sub]|] eqn:El; try discriminate.
  intros [= <- <-]. split; [reflexivity|]. intros _. exists q. split; [reflexivity|].
  rewrite Hk. reflexivity.
Qed.

(** What a successful [CreateBucket] does to the store. *)
Lemma Bucket_CreateBucket_done (tx tx' : bucket) (b hb : handle) (name : bytes) :
  Bucket_CreateBucket tx b name = Done (hb, None, tx') ->
  exists q, b = Some q /\ hb = Some (q ++ [name]) /\
    forall p, p <> q ++ [name] -> kind_at p tx' = kind_at p tx.
Proof.
  unfold Bucket_CreateBucket. destruct b as [q|]; [|discriminate].
  destruct (resolve q tx) as [kvs|] eqn:Hr; [|discriminate].
  destruct (_ =? 0); [discriminate|].
  destruct (lookup_key name kvs) as [[v|sub]|] eqn:El; try discriminate.
  intros [= <- <-]. exists q. split; [reflexivity|]. split; [reflexivity|].
  intros p Hp. apply (kind_at_update_ne q tx kvs); try assumption.
  - intros sub. rewrite El. discriminate.
  - right. reflexivity.
Qed.

Lemma Bucket_CreateBucketIfNotExists_done (tx tx' : bucket) (b hb : handle)
    (name : bytes) :
  Bucket_CreateBucketIfNotExists tx b name = Done (hb, None, tx') ->
  exists q, b = Some q /\ hb = Some (q ++ [name]) /\
    forall p, p <> q ++ [name] -> kind_at p tx' = kind_at p tx.
Proof.
  unfold Bucket_CreateBucketIfNotExists. destruct b as [q|]; [|discriminate].
  destruct (resolve q tx) as [kvs|] eqn:Hr; [|discriminate].
  destruct (_ =? 0); [discriminate|].
  destruct (lookup_key name kvs) as [[v|sub]|] eqn:El; try discriminate.
  - intros [= <- <-]. exists q. repeat split; reflexivity.
  - intros [= <- <-]. exists q. split; [reflexivity|]. split; [reflexivity|].
    intros p Hp. apply (kind_at_update_ne q tx kvs); try assumption.
    + intros sub. rewrite El. discriminate.
    + right. reflexivity.
Qed.

Lemma Bucket_Bucket_done (tx : bucket) (b : handle) (name : bytes) (q' : list bytes) :
  Bucket_Bucket tx b name = Done (Some q') ->
  exists q, b = Some q /\ q' = q ++ [name].
Proof.
  unfold Bucket_Bucket. destruct b as [q|]; [|discriminate].
  destruct (resolve q tx) as [kvs|]; [|discriminate].
  destruct (lookup_key name kvs) as [[v|sub]|]; try discriminate.
  intros [= <-]. exists q. split; reflexivity.
Qed.

Lemma Bucket_Bucket_handle (tx : bucket) (b hb : handle) (name : bytes) :
  Bucket_Bucket tx b name = Done hb -> exists q, b = Some q.
Proof.
  unfold Bucket_Bucket. destruct b as [q|]; [|discriminate]. intros _. exists q. reflexivity.
Qed.

Lemma Tx_Bucket_handle (tx : bucket) (name : bytes) (q : list bytes) :
  Tx_Bucket tx name = Some q -> q = [name].
Proof.
  unfold Tx_Bucket. destruct (lookup_key name tx) as [[v|sub]|]; try discriminate.
  intros [= <-]. reflexivity.
Qed.

End StoreUpdates.

(** ** The query index under additions *)

Section QueryIndexFacts.

Lemma addResponse_no_error (h : Z) (resp : SignedResponseHeader) (q : queryIndex) :
  fst (addResponse h resp q) = None.
Proof. unfold addResponse. destruct (_ !! _); reflexivity. Qed.

Lemma addAck_no_error (h : Z) (ack : SignedAckHeader) (q : queryIndex) :
  fst (addAck h ack q) = None.
Proof. unfold addAck. destruct (_ !! _); reflexivity. Qed.

Lemma ensureIndexHeight_response (h : Z) (q : queryIndex) (key : Hash) :
  is_Some (responses (ensureIndexHeight h q) !! key) -> hasResponse q h key.
Proof.
  unfold ensureIndexHeight, hasResponse.
  destruct (heightIndex q !! h) as [e|]; [intros Hs; exists e; split; [reflexivity | exact Hs]|].
  simpl. rewrite lookup_empty. intros [x Hx]. discriminate.
Qed.

Lemma ensureIndexHeight_ack (h : Z) (q : queryIndex) (key : Hash) :
  is_Some (acks (ensureIndexHeight h q) !! key) -> hasAck q h key.
Proof.
  unfold ensureIndexHeight, hasAck.
  destruct (heightIndex q !! h) as [e|]; [intros Hs; exists e; split; [reflexivity | exact Hs]|].
  simpl. rewrite lookup_empty. intros [x Hx]. discriminate.
Qed.

Lemma addResponse_hasResponse (h h' : Z) (resp : SignedResponseHeader) (q : queryIndex)
    (key : Hash) :
  hasResponse (snd (addResponse h resp q)) h' key ->
  (h' = h /\ key = Response_HeaderHash resp) \/ hasResponse q h' key.
Proof.
  unfold addResponse.
  destruct (responses (ensureIndexHeight h q) !! Response_HeaderHash resp) eqn:E;
    [right; assumption|].
  simpl. intros (e & He & Hs). simpl in He.
  destruct (decide (h = h')) as [<- | Hne].
  - rewrite lookup_insert_eq in He. injection He as <-. simpl in Hs.
    destruct (decide (Response_HeaderHash resp = key)) as [<- | Hk];
      [left; split; reflexivity|].
    rewrite lookup_insert_ne in Hs by exact Hk.
    right. apply ensureIndexHeight_response. exact Hs.
  - rewrite lookup_insert_ne in He by exact Hne.
    right. exists e. split; assumption.
Qed.

Lemma addResponse_hasAck (h h' : Z) (resp : SignedResponseHeader) (q : queryIndex)
    (key : Hash) :
  hasAck (snd (addResponse h resp q)) h' key -> hasAck q h' key.
Proof.
  unfold addResponse.
  destruct (responses (ensureIndexHeight h q) !! Response_HeaderHash resp) eqn:E;
    [intros Hh; assumption|].
  simpl. intros (e & He & Hs). simpl in He.
  destruct (decide (h = h')) as [<- | Hne].
  - rewrite lookup_insert_eq in He. injection He as <-. simpl in Hs.
    apply ensureIndexHeight_ack. exact Hs.
  - rewrite lookup_insert_ne in He by exact Hne.
    exists e. split; assumption.
Qed.

Lemma addAck_hasAck (h h' : Z) (ack : SignedAckHeader) (q : queryIndex) (key : Hash) :
  hasAck (snd (addAck h ack q)) h' key ->
  (h' = h /\ key = Ack_HeaderHash ack) \/ hasAck q h' key.
Proof.
  unfold addAck.
  destruct (acks (ensureIndexHeight h q) !! Ack_HeaderHash ack) eqn:E;
    [right; assumption|].
  simpl. intros (e & He & Hs). simpl in He.
  destruct (decide (h = h')) as [<- | Hne].
  - rewrite lookup_insert_eq in He. injection He as <-. simpl in Hs.
    destruct (decide (Ack_HeaderHash ack = key)) as [<- | Hk];
      [left; split; reflexivity|].
    rewrite lookup_insert_ne in Hs by exact Hk.
    right. apply ensureIndexHeight_ack. exact Hs.
  - rewrite lookup_insert_ne in He by exact Hne.
    right. exists e. split; assumption.
Qed.

Lemma addAck_hasResponse (h h' : Z) (ack : SignedAckHeader) (q : queryIndex)
    (key : Hash) :
  hasResponse (snd (addAck h ack q)) h' key -> hasResponse q h' key.
Proof.
  unfold addAck.
  destruct (acks (ensureIndexHeight h q) !! Ack_HeaderHash ack) eqn:E;
    [intros Hh; assumption|].
  simpl. intros (e & He & Hs). simpl in He.
  destruct (decide (h = h')) as [<- | Hne].
  - rewrite lookup_insert_eq in He. injection He as <-. simpl in Hs.
    apply ensureIndexHeight_response. exact Hs.
  - rewrite lookup_insert_ne in He by exact Hne.
    exists e. split; assumption.
Qed.

(** Marking acks as signed changes flags only. *)
Lemma markSigned_fold (qs : list Hash) :
  forall e : heightIndexEntry,
    responses (foldl markSigned e qs) = responses e /\
    forall key, is_Some (acks (foldl markSigned e qs) !! key) -> is_Some (acks e !! key).
Proof.
  induction qs as [|q qs IH]; intros e; simpl.
  - split; [reflexivity | intros key Hs; exact Hs].
  - destruct (IH (markSigned e q)) as [Hr Ha]. split; [rewrite Hr; reflexivity|].
    intros key Hs. apply Ha in Hs. simpl in Hs.
    apply lookup_alter_is_Some in Hs. exact Hs.
Qed.

Lemma setSignedBlock_has (h : Z) (b : Block) (q : queryIndex) (h' : Z) (key : Hash) :
  (hasResponse (setSignedBlock h b q) h' key -> hasResponse q h' key) /\
  (hasAck (setSignedBlock h b q) h' key -> hasAck q h' key).
Proof.
  unfold setSignedBlock.
  destruct (heightIndex q !! h) as [e0|] eqn:E0; [|split; intros Hh; exact Hh].
  destruct (markSigned_fold (Queries b) e0) as [Hr Ha].
  split; intros (e & He & Hs); simpl in He.
  - destruct (decide (h = h')) as [<- | Hne].
    + rewrite lookup_insert_eq in He. injection He as <-.
      rewrite Hr in Hs. exists e0. split; assumption.
    + rewrite lookup_insert_ne in He by exact Hne. exists e. split; assumption.
  - destruct (decide (h = h')) as [<- | Hne].
    + rewrite lookup_insert_eq in He. injection He as <-.
      apply Ha in Hs. exists e0. split; assumption.
    + rewrite lookup_insert_ne in He by exact Hne. exists e. split; assumption.
Qed.

End QueryIndexFacts.

(** ** The store backs the query index *)

Section StoreBacksQueryIndex.

Context `{BinaryCodec Block} `{BinaryCodec state}
        `{BinaryCodec SignedResponseHeader} `{BinaryCodec SignedAckHeader}
        `{Verifier} `{Caller}.

Lemma heights_handle (tx : bucket) (b : handle) :
  Bucket_Bucket tx (Tx_Bucket tx metaBucket) metaHeightIndexBucket = Done b ->
  b = None \/ b = Some [metaBucket; metaHeightIndexBucket].
Proof.
  destruct b as [q0|]; [|left; reflexivity].
  intros Hb. right.
  destruct (Bucket_Bucket_done _ _ _ _ Hb) as (q & Hq & ->).
  apply Tx_Bucket_handle in Hq. subst q. reflexivity.
Qed.

(** [ensureHeight] returns the bucket of the height and touches no entry
    of an index. *)
Lemma ensureHeight_done (tx tx' : bucket) (k : bytes) (hb : handle) :
  ensureHeight tx k = Done (hb, None, tx') ->
  hb = Some [metaBucket; metaHeightIndexBucket; k] /\
  forall p, length p = 5%nat -> kind_at p tx' = kind_at p tx.
Proof.
  unfold ensureHeight. outcome_step.
  destruct (Bucket_Bucket tx (Tx_Bucket tx metaBucket) metaHeightIndexBucket)
    as [b| |] eqn:Hb; try discriminate.
  apply heights_handle in Hb.
  destruct Hb as [-> | ->]; [discriminate|].
  destruct (Bucket_Bucket tx _ k) as [[q1|]| |] eqn:Hhb; try discriminate.
  - intros [= <- <-].
    destruct (Bucket_Bucket_done _ _ _ _ Hhb) as (q & [= <-] & ->).
    split; [reflexivity | intros p _; reflexivity].
  - destruct (Bucket_CreateBucket tx _ k) as [[[hb1 [e|]] tx1]| |] eqn:C1;
      try discriminate.
    destruct (Bucket_CreateBucket_done _ _ _ _ _ C1) as (q & [= <-] & -> & K1).
    destruct (Bucket_CreateBucket tx1 _ metaRequestIndexBucket)
      as [[[hb2 [e|]] tx2]| |] eqn:C2; try discriminate.
    destruct (Bucket_CreateBucket_done _ _ _ _ _ C2) as (q2 & [= <-] & _ & K2).
    destruct (Bucket_CreateBucket tx2 _ metaResponseIndexBucket)
      as [[[hb3 [e|]] tx3]| |] eqn:C3; try discriminate.
    destruct (Bucket_CreateBucket_done _ _ _ _ _ C3) as (q3 & [= <-] & _ & K3).
    destruct (Bucket_CreateBucket tx3 _ metaAckIndexBucket)
      as [[[hb4 [e|]] tx4]| |] eqn:C4; try discriminate.
    destruct (Bucket_CreateBucket_done _ _ _ _ _ C4) as (q4 & [= <-] & _ & K4).
    intros [= <- <-]. split; [reflexivity|].
    intros p Hp.
    rewrite K4, K3, K2, K1; [reflexivity | | | |]; intros ->; discriminate Hp.
Qed.

(** An error of [pushResponedQuery] leaves the query index and the store
    as they were. *)
Lemma pushResponedQuery_error (c c' : Chain) (resp : SignedResponseHeader) (e : error) :
  pushResponedQuery c resp = Done (Some e, c') -> qi c' = qi c /\ db c' = db c.
Proof.
  unfold pushResponedQuery, db_Update.
  destruct (MarshalBinary resp) as [enc [e0|]]; [intros [= <- <-]; split; reflexivity|].
  outcome_step.
  destruct (ensureHeight _ _) as [[[hb [e0|]] tx1]| |]; try discriminate.
  { intros [= <- <-]. split; reflexivity. }
  destruct (Bucket_Bucket _ _ _) as [rb| |]; try discriminate.
  destruct (Bucket_Put _ _ _ _) as [[[e0|] tx2]| |]; try discriminate.
  { intros [= <- <-]. split; reflexivity. }
  pose proof (addResponse_no_error
    (getHeightFromTime (rt c) (Request_Timestamp (Response_Request resp))) resp (qi c))
    as Hne.
  destruct (addResponse _ _ _) as [err q]. simpl in Hne. subst err. discriminate.
Qed.

(** An error of [pushAckedQuery] leaves the query index and the store as
    they were. *)
Lemma pushAckedQuery_error (c c' : Chain) (ack : SignedAckHeader) (e : error) :
  pushAckedQuery c ack = Done (Some e, c') -> qi c' = qi c /\ db c' = db c.
Proof.
  unfold pushAckedQuery, db_Update.
  destruct (MarshalBinary ack) as [enc [e0|]]; [intros [= <- <-]; split; reflexivity|].
  outcome_step.
  destruct (ensureHeight _ _) as [[[hb [e0|]] tx1]| |]; try discriminate.
  { intros [= <- <-]. split; reflexivity. }
  destruct (Bucket_Bucket _ _ _) as [ab| |]; try discriminate.
  pose proof (addAck_no_error
    (getHeightFromTime (rt c) (Response_Timestamp (Ack_SignedResponseHeader ack)))
    ack (qi c)) as Hne.
  destruct (Bucket_Put _ _ _ _) as [[[e0|] tx2]| |]; try discriminate.
  - destruct e0;
      try (intros [= <- <-]; split; reflexivity);
      destruct (addAck _ _ _) as [err q]; simpl in Hne; subst err; discriminate.
  - destruct (addAck _ _ _) as [err q]. simpl in Hne. subst err. discriminate.
Qed.

(** A successful [pushResponedQuery] has put the response in the store and
    then in the query index. *)
Lemma pushResponedQuery_done (c c' : Chain) (resp : SignedResponseHeader) :
  pushResponedQuery c resp = Done (None, c') ->
  let h := getHeightFromTime (rt c) (Request_Timestamp (Response_Request resp)) in
  grows (db c) (db c') /\
  persistedAt (db c') h metaResponseIndexBucket (Response_HeaderHash resp) /\
  qi c' = snd (addResponse h resp (qi c)).
Proof.
  unfold pushResponedQuery, db_Update.
  destruct (MarshalBinary resp) as [enc [e0|]]; [discriminate|].
  outcome_step.
  destruct (ensureHeight _ _) as [[[hb [e0|]] tx1]| |] eqn:He; try discriminate.
  destruct (ensureHeight_done _ _ _ _ He) as [-> K1].
  destruct (Bucket_Bucket _ _ _) as [[rq|]| |] eqn:Hb; try discriminate.
  destruct (Bucket_Bucket_done _ _ _ _ Hb) as (q & [= <-] & ->).
  destruct (Bucket_Put _ _ _ _) as [[[e0|] tx2]| |] eqn:Hp; try discriminate.
  destruct (Bucket_Put_done _ _ _ _ _ Hp) as (q & [= <-] & Hnb & Hv & K2).
  destruct (addResponse _ _ _) as [err q] eqn:Ha.
  destruct err; [discriminate|].
  intros [= <-]. cbv zeta. simpl.
  split; [|split; [exact Hv | reflexivity]].
  intros p Hlen.
  destruct (decide (p = [metaBucket; metaHeightIndexBucket;
                         heightToKey (getHeightFromTime (rt c)
                           (Request_Timestamp (Response_Request resp)));
                         metaResponseIndexBucket] ++ [Response_HeaderHash resp]))
    as [-> | Hne].
  - right. split; [rewrite <- K1 by reflexivity; exact Hnb | exact Hv].
  - left. rewrite K2 by exact Hne. apply K1. exact Hlen.
Qed.

(** A successful [pushAckedQuery] on a store whose ack indices hold values
    only has put the ack in the store and then in the query index. *)
Lemma pushAckedQuery_done (c c' : Chain) (ack : SignedAckHeader) :
  plainAckIndex (db c) ->
  pushAckedQuery c ack = Done (None, c') ->
  let h := getHeightFromTime (rt c) (Response_Timestamp (Ack_SignedResponseHeader ack)) in
  grows (db c) (db c') /\
  persistedAt (db c') h metaAckIndexBucket (Ack_HeaderHash ack) /\
  qi c' = snd (addAck h ack (qi c)).
Proof.
  intros Hplain. unfold pushAckedQuery, db_Update.
  destruct (MarshalBinary ack) as [enc [e0|]]; [discriminate|].
  outcome_step.
  destruct (ensureHeight _ _) as [[[hb [e0|]] tx1]| |] eqn:He; try discriminate.
  destruct (ensureHeight_done _ _ _ _ He) as [-> K1].
  destruct (Bucket_Bucket _ _ _) as [[rq|]| |] eqn:Hb; try discriminate.
  destruct (Bucket_Bucket_done _ _ _ _ Hb) as (q & [= <-] & ->).
  destruct (Bucket_Put _ _ _ _) as [[[e0|] tx2]| |] eqn:Hp; try discriminate.
  - destruct (Bucket_Put_error _ _ _ _ _ _ Hp) as [-> Hinc].
    destruct e0; try discriminate.
    destruct (Hinc eq_refl) as (q & [= <-] & Hk).
    exfalso.
    rewrite K1 in Hk by reflexivity. exact (Hplain _ _ Hk).
  - destruct (Bucket_Put_done _ _ _ _ _ Hp) as (q & [= <-] & Hnb & Hv & K2).
    destruct (addAck _ _ _) as [err q] eqn:Ha.
    destruct err; [discriminate|].
    intros [= <-]. cbv zeta. simpl.
    split; [|split; [exact Hv | reflexivity]].
    intros p Hlen.
    destruct (decide (p = [metaBucket; metaHeightIndexBucket;
                           heightToKey (getHeightFromTime (rt c)
                             (Response_Timestamp (Ack_SignedResponseHeader ack)));
                           metaAckIndexBucket] ++ [Ack_HeaderHash ack]))
      as [-> | Hne].
    + right. split; [rewrite <- K1 by reflexivity; exact Hnb | exact Hv].
    + left. rewrite K2 by exact Hne. apply K1. exact Hlen.
Qed.

Lemma StoreBacksIndex_same (c c' : Chain) :
  qi c' = qi c -> db c' = db c -> StoreBacksIndex c -> StoreBacksIndex c'.
Proof.
  unfold StoreBacksIndex, QueryIndexPersisted. intros -> ->. tauto.
Qed.

Lemma pushResponedQuery_backed (c c' : Chain) (resp : SignedResponseHeader)
    (err : option error) :
  StoreBacksIndex c -> pushResponedQuery c resp = Done (err, c') -> StoreBacksIndex c'.
Proof.
  intros Hinv Hpush. destruct err as [e|].
  { destruct (pushResponedQuery_error _ _ _ _ Hpush) as [Hq Hd].
    apply (StoreBacksIndex_same c c'); assumption. }
  destruct (pushResponedQuery_done _ _ _ Hpush) as (Hg & Hnew & Hq).
  destruct Hinv as [Hplain [Hresp Hack]].
  split; [apply (grows_plain _ _ Hg Hplain)|]. split.
  - intros h key Hh. rewrite Hq in Hh.
    apply addResponse_hasResponse in Hh. destruct Hh as [[-> ->] | Hold];
      [exact Hnew | apply (grows_persisted _ _ _ _ _ Hg), Hresp, Hold].
  - intros h key Hh. rewrite Hq in Hh.
    apply addResponse_hasAck in Hh.
    apply (grows_persisted _ _ _ _ _ Hg), Hack, Hh.
Qed.

Lemma pushAckedQuery_backed (c c' : Chain) (ack : SignedAckHeader)
    (err : option error) :
  StoreBacksIndex c -> pushAckedQuery c ack = Done (err, c') -> StoreBacksIndex c'.
Proof.
  intros Hinv Hpush. destruct err as [e|].
  { destruct (pushAckedQuery_error _ _ _ _ Hpush) as [Hq Hd].
    apply (StoreBacksIndex_same c c'); assumption. }
  destruct Hinv as [Hplain [Hresp Hack]].
  destruct (pushAckedQuery_done _ _ _ Hplain Hpush) as (Hg & Hnew & Hq).
  split; [apply (grows_plain _ _ Hg Hplain)|]. split.
  - intros h key Hh. rewrite Hq in Hh.
    apply addAck_hasResponse in Hh.
    apply (grows_persisted _ _ _ _ _ Hg), Hresp, Hh.
  - intros h key Hh. rewrite Hq in Hh.
    apply addAck_hasAck in Hh. destruct Hh as [[-> ->] | Hold];
      [exact Hnew | apply (grows_persisted _ _ _ _ _ Hg), Hack, Hold].
Qed.


(** The other writers of the store and of the query index keep the
    invariant too. *)
Lemma pushBlock_store (c c' : Chain) (b : Block) (err : option error) :
  pushBlock c b = Done (err, c') ->
  grows (db c) (db c') /\
  (qi c' = qi c \/
   qi c' = setSignedBlock (getHeightFromTime (rt c) (Timestamp b)) b (qi c)).
Proof.
  unfold pushBlock, db_Update.
  destruct (MarshalBinary b) as [encBlock [e|]];
    [intros [= <- <-]; split; [apply grows_refl | left; reflexivity]|].
  destruct (MarshalBinary _) as [encState [e|]];
    [intros [= <- <-]; split; [apply grows_refl | left; reflexivity]|].
  outcome_step.
  destruct (Bucket_Put _ _ metaStateKey _) as [[[e|] tx1]| |] eqn:P1; try discriminate.
  { intros [= <- <-]. split; [apply grows_refl | left; reflexivity]. }
  outcome_step.
  destruct (Bucket_Put_done _ _ _ _ _ P1) as (q1 & Hq1 & _ & _ & K1).
  apply Tx_Bucket_handle in Hq1. subst q1.
  destruct (Bucket_Bucket _ _ _) as [[bq|]| |] eqn:Hb; try discriminate.
  outcome_step.
  destruct (Bucket_Bucket_done _ _ _ _ Hb) as (q2 & Hq2 & ->).
  apply Tx_Bucket_handle in Hq2. subst q2.
  destruct (Bucket_Put tx1 _ _ _) as [[[e|] tx2]| |] eqn:P2; try discriminate.
  { intros [= <- <-]. split; [apply grows_refl | left; reflexivity]. }
  destruct (Bucket_Put_done _ _ _ _ _ P2) as (q3 & [= <-] & _ & _ & K2).
  intros [= <- <-]. simpl. split; [|right; reflexivity].
  intros p Hp. left.
  rewrite K2, K1; [reflexivity | |]; intros ->; discriminate Hp.
Qed.

Lemma pushBlock_backed (c c' : Chain) (b : Block) (err : option error) :
  StoreBacksIndex c -> pushBlock c b = Done (err, c') -> StoreBacksIndex c'.
Proof.
  intros [Hplain [Hresp Hack]] Hpush.
  destruct (pushBlock_store _ _ _ _ Hpush) as [Hg Hq].
  split; [apply (grows_plain _ _ Hg Hplain)|].
  split; intros h key Hh.
  - apply (grows_persisted _ _ _ _ _ Hg), Hresp.
    destruct Hq as [Hq | Hq]; rewrite Hq in Hh; [exact Hh|].
    apply setSignedBlock_has in Hh. exact Hh.
  - apply (grows_persisted _ _ _ _ _ Hg), Hack.
    destruct Hq as [Hq | Hq]; rewrite Hq in Hh; [exact Hh|].
    apply setSignedBlock_has in Hh. exact Hh.
Qed.

Lemma VerifyAndPushResponsedQuery_backed (c c' : Chain) (resp : SignedResponseHeader)
    (err : option error) :
  StoreBacksIndex c -> VerifyAndPushResponsedQuery c resp = Done (err, c') ->
  StoreBacksIndex c'.
Proof.
  intros Hinv. unfold VerifyAndPushResponsedQuery.
  destruct (queryTimeIsExpired _ _); [intros [= <- <-]; exact Hinv|].
  destruct (Response_Verify resp); [intros [= <- <-]; exact Hinv|].
  apply pushResponedQuery_backed. exact Hinv.
Qed.

Lemma VerifyAndPushAckedQuery_backed (c c' : Chain) (ack : SignedAckHeader)
    (err : option error) :
  StoreBacksIndex c -> VerifyAndPushAckedQuery c ack = Done (err, c') ->
  StoreBacksIndex c'.
Proof.
  intros Hinv. unfold VerifyAndPushAckedQuery.
  destruct (queryTimeIsExpired _ _); [intros [= <- <-]; exact Hinv|].
  destruct (Ack_Verify ack); [intros [= <- <-]; exact Hinv|].
  apply pushAckedQuery_backed. exact Hinv.
Qed.

Lemma syncAckedQuery_backed (c c' : Chain) (height : Z) (ack : Hash) (id : NodeID)
    (err : option error) :
  StoreBacksIndex c -> syncAckedQuery c height ack id = Done (err, c') ->
  StoreBacksIndex c'.
Proof.
  intros Hinv. unfold syncAckedQuery.
  destruct (CallFetchAckedQuery id height ack) as [[e|] [a|]];
    try (intros [= <- <-]; exact Hinv); try discriminate.
  apply VerifyAndPushAckedQuery_backed. exact Hinv.
Qed.

Lemma checkQueries_backed (height : Z) (block : Block) (qs : list Hash) :
  forall (c c' : Chain) (err : option error),
    StoreBacksIndex c -> checkQueries c height block qs = Done (err, c') ->
    StoreBacksIndex c'.
Proof.
  induction qs as [|q qs IH]; intros c c' err Hinv; cbn [checkQueries].
  - intros [= <- <-]. exact Hinv.
  - destruct (checkAckFromBlock _ _ _ _) as [ok [e|]]; [intros [= <- <-]; exact Hinv|].
    destruct ok; [apply IH; exact Hinv|].
    outcome_step.
    destruct (syncAckedQuery _ _ _ _) as [[err1 c1]| |] eqn:Hv; try discriminate.
    apply (syncAckedQuery_backed _ _ _ _ _ _ Hinv) in Hv.
    destruct err1 as [e|]; [intros [= <- <-]; exact Hv|].
    destruct (checkAckFromBlock _ _ _ _) as [ok' [e|]]; [intros [= <- <-]; exact Hv|].
    apply IH. exact Hv.
Qed.

Lemma CheckAndPushNewBlock_backed (c c' : Chain) (block : Block) (err : option error) :
  StoreBacksIndex c -> CheckAndPushNewBlock c block = Done (err, c') ->
  StoreBacksIndex c'.
Proof.
  intros Hinv. unfold CheckAndPushNewBlock.
  destruct (_ && _); [intros [= <- <-]; exact Hinv|].
  destruct (negb (bool_decide _)); [intros [= <- <-]; exact Hinv|].
  destruct (Find _ _) as [index found].
  destruct (negb found); [intros [= <- <-]; exact Hinv|].
  destruct (negb (index =? _)); [intros [= <- <-]; exact Hinv|].
  outcome_step.
  destruct (checkQueries _ _ _ _) as [[err1 c1]| |] eqn:Hq; try discriminate.
  apply (checkQueries_backed _ _ _ _ _ _ Hinv) in Hq.
  destruct err1 as [e|]; [intros [= <- <-]; exact Hq|].
  destruct (Block_Verify block); [intros [= <- <-]; exact Hq|].
  apply pushBlock_backed. exact Hq.
Qed.

Lemma processBlocks_step_backed (s s' : blockLoop) :
  StoreBacksIndex (chain s) -> processBlocks_step s = Done s' ->
  StoreBacksIndex (chain s').
Proof.
  intros Hinv. unfold processBlocks_step.
  destruct (blocks s) as [|block pending]; [intros [= <-]; exact Hinv|].
  destruct (_ >? _); [intros [= <-]; exact Hinv|].
  outcome_step.
  destruct (_ <? _); [intros [= <-]; exact Hinv|].
  destruct (bool_decide _).
  - outcome_step.
    destruct (pushBlock _ _) as [[err c1]| |] eqn:Hp; try discriminate.
    intros [= <-]. simpl. apply (pushBlock_backed _ _ _ _ Hinv Hp).
  - outcome_step.
    destruct (CheckAndPushNewBlock _ _) as [[err c1]| |] eqn:Hp; try discriminate.
    intros [= <-]. simpl. apply (CheckAndPushNewBlock_backed _ _ _ _ Hinv Hp).
Qed.

(** A chain created over a store whose ack indices hold values only (an
    empty store, for one) starts with the invariant. *)
Lemma NewChain_backed (cfg : Config) (file : bucket) (c : Chain) :
  plainAckIndex file -> NewChain cfg file = Done (Some c, None) -> StoreBacksIndex c.
Proof.
  intros Hplain. unfold NewChain, db_Update.
  destruct (Block_VerifyAsGenesis _); [discriminate|].
  outcome_step. cbn [db].
  destruct (Bucket_CreateBucketIfNotExists file _ _) as [[[b1 [e|]] tx1]| |] eqn:C1;
    try discriminate.
  destruct (Bucket_CreateBucketIfNotExists_done _ _ _ _ _ C1) as (q1 & [= <-] & -> & K1).
  destruct (Bucket_CreateBucketIfNotExists tx1 _ metaBlockIndexBucket)
    as [[[b2 [e|]] tx2]| |] eqn:C2; try discriminate.
  destruct (Bucket_CreateBucketIfNotExists_done _ _ _ _ _ C2) as (q2 & [= <-] & _ & K2).
  destruct (Bucket_CreateBucketIfNotExists tx2 _ metaHeightIndexBucket)
    as [[[b3 [e|]] tx3]| |] eqn:C3; try discriminate.
  destruct (Bucket_CreateBucketIfNotExists_done _ _ _ _ _ C3) as (q3 & [= <-] & _ & K3).
  cbn [wrapBolt].
  destruct (pushBlock _ _) as [[[e|] c1]| |] eqn:Hp; try discriminate.
  intros [= <-].
  apply (pushBlock_backed _ _ _ _) in Hp; [exact Hp|].
  split.
  - intros hk key. cbn [db with_db].
    rewrite K3, K2, K1; [apply Hplain | | |]; discriminate.
  - split; intros h key (e & He & _); cbn in He; rewrite lookup_empty in He;
      discriminate.
Qed.

End StoreBacksQueryIndex.

(** ** The properties at the small instance *)

Section AtTheInstance.

#[local] Existing Instances Example.blockCodec Example.stateCodec
  Example.responseCodec Example.ackCodec Example.verifier Example.caller.

Import Example.

Lemma peersABC_unknown (key : NodeID) :
  snd (Find peersABC key) = false ->
  forall s, s ∈ Servers peersABC -> ID s <> key.
Proof.
  intros Hf. apply (proj1 (findFrom_not_found (Servers peersABC) key 0)). exact Hf.
Qed.

Lemma emptyLayout_backed (ps : Peers) : StoreBacksIndex (chainAt5 ps).
Proof.
  split.
  - intros hk key. vm_compute. discriminate.
  - split; intros h key (e & He & _); cbn in He; rewrite lookup_empty in He;
      discriminate.
Qed.

Lemma FetchAckedQuery_loses_stored_ack_witness :
  exists fuel0 : nat, forall fuel : nat, (fuel0 <= fuel)%nat ->
    FetchAckedQuery fuel (with_db ackStore chainABC) 3 [9] = Done (None, None).
Proof.
  apply (FetchAckedQuery_loses_stored_ack
           (with_db ackStore chainABC) 3 [9] [30; 9] (mkAck 30 [9])
           ErrQueryNotCached);
    [reflexivity | reflexivity | reflexivity | lia].
Defined.

(** The ack stored at height 3 under [09] decodes, and is not returned. *)
Example FetchAckedQuery_stored_ack :
  storedAck ackStore 3 [9] = Some [30; 9] /\
  UnmarshalBinary [30; 9] = (mkAck 30 [9], None) /\
  FetchAckedQuery 10 (with_db ackStore chainABC) 3 [9] = Done (None, None).
Proof. repeat split; reflexivity. Qed.

(** C2, as stated, fails: a block that extends the head at height 5 and
    carries a timestamp of height 2 is pushed, directly and through
    [CheckAndPushNewBlock] alike, and the head height drops to 2. *)
Lemma pushBlock_lowers_head_counterexample :
  (exists c', pushBlock chainABC staleBlock = Done (None, c') /\
              Height (getHead (rt c')) < Height (getHead (rt chainABC))) /\
  (exists c', CheckAndPushNewBlock chainABC staleBlock = Done (None, c') /\
              Height (getHead (rt c')) < Height (getHead (rt chainABC))).
Proof.
  split; eexists; (split; [vm_compute; reflexivity | vm_compute; reflexivity]).
Qed.

Lemma head_height_after_push_witness :
  (exists c', pushBlock chainABC (nextBlock "A") = Done (None, c') /\
              Height (getHead (rt c')) = 6) /\
  (exists s',
      processBlocks_step {| chain := chainABC; blocks := [mkBlock "A" [7] [8] 50 []];
                            stash := None |} = Done s' /\
      5 <= Height (getHead (rt (chain s'))) <= 5).
Proof.
  split.
  - eexists. split; [vm_compute; reflexivity|].
    apply (proj1 head_height_after_push chainABC _ (nextBlock "A")).
    vm_compute. reflexivity.
  - eexists. split; [vm_compute; reflexivity|].
    apply (proj2 head_height_after_push
             {| chain := chainABC; blocks := [mkBlock "A" [7] [8] 50 []];
                stash := None |}).
    + vm_compute. discriminate.
    + vm_compute. reflexivity.
Defined.

(** C3, as stated, fails: a block that carries the hash of the head both
    as its own hash and as its parent hash, at the height of the head, is
    answered with [nil] whoever its producer is. *)
Lemma CheckAndPushNewBlock_producer_counterexample :
  ParentHash echoBlock = Head (getHead (rt chainABC)) /\
  (forall s, s ∈ Servers (getPeers (rt chainABC)) -> ID s <> Producer echoBlock) /\
  CheckAndPushNewBlock chainABC echoBlock = Done (None, chainABC) /\
  CheckAndPushNewBlock chainABC echoBlock <> Done (Some ErrUnknownProducer, chainABC).
Proof.
  split; [reflexivity|]. split.
  { apply peersABC_unknown. reflexivity. }
  assert (Hr : CheckAndPushNewBlock chainABC echoBlock = Done (None, chainABC)).
  { apply CheckAndPushNewBlock_already. split; reflexivity. }
  split; [exact Hr | rewrite Hr; discriminate].
Qed.

Lemma CheckAndPushNewBlock_producer_witness :
  CheckAndPushNewBlock chainABC (nextBlock "X") = Done (Some ErrUnknownProducer, chainABC) /\
  CheckAndPushNewBlock chainABC (nextBlock "B") = Done (Some ErrInvalidProducer, chainABC) /\
  Find (getPeers (rt chainABC)) "A" = (0, true).
Proof.
  assert (Hh : is_int32 (Height (getHead (rt chainABC))))
    by (unfold is_int32; simpl; lia).
  assert (Hn : Z.of_nat (length (Servers (getPeers (rt chainABC)))) < 2 ^ 31)
    by reflexivity.
  assert (Hna : forall p, ~ alreadyHead chainABC (nextBlock p)).
  { intros p [Hheight _]. vm_compute in Hheight. discriminate. }
  split; [|split].
  - apply (proj1 (CheckAndPushNewBlock_producer chainABC (nextBlock "X")
                    Hh Hn eq_refl (Hna "X"))).
    apply peersABC_unknown. reflexivity.
  - apply (proj1 (proj2 (CheckAndPushNewBlock_producer chainABC (nextBlock "B")
                           Hh Hn eq_refl (Hna "B"))) 1);
      [reflexivity | vm_compute; discriminate].
  - destruct (CheckAndPushNewBlock chainABC (nextBlock "A")) as [[[e|] c']| |] eqn:Hr;
      try (vm_compute in Hr; discriminate).
    apply (proj2 (proj2 (CheckAndPushNewBlock_producer chainABC (nextBlock "A")
                           Hh Hn eq_refl (Hna "A"))) c' Hr).
Defined.

Lemma CheckAndPushNewBlock_head_checks_witness :
  CheckAndPushNewBlock chainABC headBlock = Done (None, chainABC) /\
  CheckAndPushNewBlock chainABC strayBlock = Done (Some ErrInvalidBlock, chainABC).
Proof.
  split.
  - apply (proj1 (CheckAndPushNewBlock_head_checks chainABC headBlock)).
    split; reflexivity.
  - apply (proj2 (CheckAndPushNewBlock_head_checks chainABC strayBlock)).
    + intros [Hheight _]. vm_compute in Hheight. discriminate.
    + vm_compute. discriminate.
Defined.

(** The head is at height 5 and the TTL is 2: a response of height 2 is
    below 5 - 2. *)
Lemma VerifyAndPushAckedQuery_expired_witness :
  VerifyAndPushAckedQuery chainABC (mkAck 20 [9]) = Done (Some ErrQueryExpired, chainABC).
Proof.
  apply (VerifyAndPushAckedQuery_expired chainABC (mkAck 20 [9])). reflexivity.
Defined.


(** C7 fails on the code: the store holds the genesis block [01], its
    child [02] and a second child [03] of the genesis block.  When [03] is
    loaded its parent [01] has been loaded, and [LoadChain] fails with
    [ErrParentNotFound] all the same: it looks up the hash of the block,
    not of its parent, in an index no loaded node was added to.  The load
    of [03] fails in the same way when the index does hold the node of its
    parent [01]. *)
Theorem LoadChain_fork_fails :
  Bucket_items forkStore (Some [metaBucket; metaBlockIndexBucket])
    = Done [([1], [0; 0; 1]); ([2], [10; 1; 2]); ([3], [20; 1; 3])] /\
  ParentHash (fst (UnmarshalBinary (A := Block) [20; 1; 3]))
    = BlockHash (fst (UnmarshalBinary (A := Block) [0; 0; 1])) /\
  (exists c, LoadChain config forkStore = Done (c, Some ErrParentNotFound)) /\
  lookupNode (ParentHash (fst (UnmarshalBinary (A := Block) [20; 1; 3])))
    (bi chainWithGenesis) = Some genesisNode /\
  loadBlocks chainWithGenesis (Some childNode) [genesisNode; childNode]
    [([3], [20; 1; 3])]
    = (Some ErrParentNotFound, chainWithGenesis, [genesisNode; childNode]).
Proof.
  split; [reflexivity|]. split; [reflexivity|].
  split; [eexists; vm_compute; reflexivity|].
  split; [vm_compute; reflexivity|].
  vm_compute. reflexivity.
Qed.

(** C9, as stated, fails: with no peers, a block that is the head already
    is answered with [nil], not with an error. *)
Lemma CheckAndPushNewBlock_empty_peers_counterexample :
  Servers (getPeers (rt chainNoPeers)) = [] /\
  CheckAndPushNewBlock chainNoPeers headBlock = Done (None, chainNoPeers) /\
  ~ (exists e c', CheckAndPushNewBlock chainNoPeers headBlock = Done (Some e, c')).
Proof.
  split; [reflexivity|].
  assert (Hr : CheckAndPushNewBlock chainNoPeers headBlock = Done (None, chainNoPeers)).
  { apply CheckAndPushNewBlock_already. split; reflexivity. }
  split; [exact Hr|]. intros (e & c' & He). rewrite Hr in He. discriminate.
Qed.

Lemma CheckAndPushNewBlock_empty_peers_witness :
  CheckAndPushNewBlock chainNoPeers strayBlock = Done (Some ErrInvalidBlock, chainNoPeers) /\
  CheckAndPushNewBlock chainNoPeers (nextBlock "A")
    = Done (Some ErrUnknownProducer, chainNoPeers).
Proof.
  destruct (CheckAndPushNewBlock_empty_peers chainNoPeers strayBlock eq_refl)
    as (_ & _ & Hinvalid & _).
  destruct (CheckAndPushNewBlock_empty_peers chainNoPeers (nextBlock "A") eq_refl)
    as (_ & _ & _ & Hunknown).
  split.
  - apply Hinvalid; [intros [Hheight _]; vm_compute in Hheight; discriminate|].
    vm_compute. discriminate.
  - apply Hunknown; [intros [Hheight _]; vm_compute in Hheight; discriminate|].
    reflexivity.
Defined.


End AtTheInstance.


(** ** More on height keys *)

Section HeightKeysBothWays.

Lemma Uint32_digits (b0 b1 b2 b3 : Z) (rest : bytes) :
  0 <= b0 < 256 -> 0 <= b1 < 256 -> 0 <= b2 < 256 -> 0 <= b3 < 256 ->
  Uint32 (b0 :: b1 :: b2 :: b3 :: rest)
    = Some (b0 * 2 ^ 24 + b1 * 2 ^ 16 + b2 * 2 ^ 8 + b3).
Proof.
  intros H0 H1 H2 H3. unfold Uint32. f_equal.
  rewrite (lor_shiftl_add _ _ 8) by lia.
  rewrite (lor_shiftl_add _ _ 16) by lia.
  rewrite (lor_shiftl_add _ _ 24) by lia.
  lia.
Qed.

Lemma PutUint32_of_digits (b0 b1 b2 b3 : Z) :
  0 <= b0 < 256 -> 0 <= b1 < 256 -> 0 <= b2 < 256 -> 0 <= b3 < 256 ->
  PutUint32 (b0 * 2 ^ 24 + b1 * 2 ^ 16 + b2 * 2 ^ 8 + b3) = [b0; b1; b2; b3].
Proof.
  intros H0 H1 H2 H3.
  set (u := b0 * 2 ^ 24 + b1 * 2 ^ 16 + b2 * 2 ^ 8 + b3).
  destruct (PutUint32_digits u ltac:(unfold u; lia))
    as (a0 & a1 & a2 & a3 & -> & A0 & A1 & A2 & A3 & E).
  unfold u in E.
  assert (a0 = b0) by lia. subst a0.
  assert (a1 = b1) by lia. subst a1.
  assert (a2 = b2) by lia. subst a2.
  assert (a3 = b3) by lia. subst a3.
  reflexivity.
Qed.

Lemma to_uint32_wrap32 (u : Z) : 0 <= u < 2 ^ 32 -> to_uint32 (wrap32 u) = u.
Proof.
  intros Hu. unfold to_uint32, wrap32.
  rewrite Zminus_mod_idemp_l.
  replace (u + 2 ^ 31 - 2 ^ 31) with u by lia.
  apply Z.mod_small. exact Hu.
Qed.

Lemma wrap32_is_int32 (z : Z) : is_int32 (wrap32 z).
Proof.
  unfold is_int32, wrap32.
  pose proof (Z.mod_pos_bound (z + 2 ^ 31) (2 ^ 32) ltac:(lia)). lia.
Qed.

(** X1: [keyToHeight] panics exactly on the keys shorter than four bytes;
    on any other key it reads the first four bytes only, returns an int32,
    and [heightToKey] gives these four bytes back. *)
Theorem keyToHeight_total_and_inverse :
  (forall k : bytes, keyToHeight k = None <-> (length k < 4)%nat) /\
  (forall (b0 b1 b2 b3 : Z) (rest : bytes),
      0 <= b0 < 256 -> 0 <= b1 < 256 -> 0 <= b2 < 256 -> 0 <= b3 < 256 ->
      exists h, keyToHeight (b0 :: b1 :: b2 :: b3 :: rest) = Some h /\
                is_int32 h /\ heightToKey h = [b0; b1; b2; b3]).
Proof.
  split.
  - intros k. unfold keyToHeight, Uint32.
    destruct k as [|b0 [|b1 [|b2 [|b3 rest]]]]; simpl; split; intros Hk;
      try reflexivity; try lia; discriminate.
  - intros b0 b1 b2 b3 rest H0 H1 H2 H3.
    exists (wrap32 (b0 * 2 ^ 24 + b1 * 2 ^ 16 + b2 * 2 ^ 8 + b3)).
    split; [|split].
    + unfold keyToHeight. rewrite Uint32_digits by assumption. reflexivity.
    + apply wrap32_is_int32.
    + unfold heightToKey. rewrite to_uint32_wrap32 by lia.
      apply PutUint32_of_digits; assumption.
Qed.

Lemma keyToHeight_total_and_inverse_witness :
  exists h, keyToHeight [255; 255; 255; 254; 9] = Some h /\
            is_int32 h /\ heightToKey h = [255; 255; 255; 254].
Proof.
  apply (proj2 keyToHeight_total_and_inverse 255 255 255 254 [9]); lia.
Defined.

(** X2: [heightToKey] always writes four bytes, and two int32 heights with
    the same key are the same height: distinct heights never share a
    bucket of the height index. *)
Theorem heightToKey_injective (h1 h2 : Z) :
  is_int32 h1 -> is_int32 h2 ->
  length (heightToKey h1) = 4%nat /\
  (heightToKey h1 = heightToKey h2 -> h1 = h2).
Proof.
  intros H1 H2. split; [reflexivity|].
  intros Heq.
  pose proof (keyToHeight_heightToKey h1 H1) as E1.
  pose proof (keyToHeight_heightToKey h2 H2) as E2.
  rewrite Heq in E1. congruence.
Qed.

Lemma heightToKey_injective_witness :
  length (heightToKey (-7)) = 4%nat /\
  (heightToKey (-7) = heightToKey (2 ^ 31 - 1) -> -7 = 2 ^ 31 - 1).
Proof.
  apply (heightToKey_injective (-7) (2 ^ 31 - 1)); unfold is_int32; lia.
Defined.

End HeightKeysBothWays.

(** ** Values in the store *)

Section StoreValues.

Lemma resolve_update_at_same (q : list bytes) (f : bucket -> bucket) :
  forall (root kvs : bucket),
    resolve q root = Some kvs -> resolve q (update_at q f root) = Some (f kvs).
Proof.
  induction q as [|n q IH]; intros root kvs; simpl.
  - intros [= ->]. reflexivity.
  - destruct (lookup_key n root) as [[v|sub]|] eqn:En; try discriminate.
    intros Hr. rewrite lookup_insert_key_eq. apply IH. exact Hr.
Qed.

Lemma kind_at_bucket (q : list bytes) :
  forall root : bucket, kind_at q root = KBkt <-> exists kvs, resolve q root = Some kvs.
Proof.
  induction q as [|n q IH]; intros root; simpl.
  - split; [intros _; exists root; reflexivity | reflexivity].
  - destruct (lookup_key n root) as [[v|sub]|].
    + split; [destruct q; discriminate | intros [kvs Hk]; discriminate].
    + apply IH.
    + split; [discriminate | intros [kvs Hk]; discriminate].
Qed.

Lemma val_at_resolve (q : list bytes) :
  forall (root kvs : bucket) (k : bytes),
    resolve q root = Some kvs ->
    val_at (q ++ [k]) root =
      match lookup_key k kvs with
      | Some (Val v) => Some v
      | _ => None
      end.
Proof.
  induction q as [|n q IH]; intros root kvs k; simpl.
  - intros [= ->]. destruct (lookup_key k kvs) as [[v|sub]|]; reflexivity.
  - destruct (lookup_key n root) as [[v|sub]|]; try discriminate.
    intros Hr. apply IH. exact Hr.
Qed.

Lemma val_at_update_ne (q : list bytes) :
  forall (root kvs : bucket) (k : bytes) (e : entry) (p : list bytes),
    resolve q root = Some kvs ->
    (forall sub, lookup_key k kvs <> Some (Bkt sub)) ->
    (exists v, e = Val v) \/ e = Bkt [] ->
    p <> q ++ [k] ->
    val_at p (update_at q (insert_key k e) root) = val_at p root.
Proof.
  induction q as [|n q IH]; intros root kvs k e p; simpl.
  - intros [= ->] Hnb He Hp.
    destruct p as [|k' p']; [reflexivity|]. simpl.
    destruct (decide (k = k')) as [<- | Hne].
    + rewrite lookup_insert_key_eq.
      assert (Hp' : p' <> []) by (intros ->; apply Hp; reflexivity).
      destruct p' as [|k2 p2]; [contradiction|].
      assert (Hold : match lookup_key k kvs with
                     | None => None
                     | Some (Val _) => None
                     | Some (Bkt sub) => val_at (k2 :: p2) sub
                     end = None).
      { destruct (lookup_key k kvs) as [[v|sub]|] eqn:E; try reflexivity.
        exfalso. apply (Hnb sub). reflexivity. }
      rewrite Hold.
      destruct He as [[v ->] | ->]; reflexivity.
    + rewrite lookup_insert_key_ne by exact Hne. reflexivity.
  - destruct (lookup_key n root) as [[v|sub]|] eqn:En; try discriminate.
    intros Hr Hnb He Hp.
    destruct p as [|k' p']; [reflexivity|]. simpl.
    destruct (decide (n = k')) as [<- | Hne].
    + rewrite lookup_insert_key_eq, En.
      apply (IH sub kvs); try assumption.
      intros ->. apply Hp. reflexivity.
    + rewrite lookup_insert_key_ne by exact Hne. reflexivity.
Qed.

(** What a successful [Put] does to the values of the store: the value is
    under the key, every other value is as before. *)
Lemma Bucket_Put_values (tx tx' : bucket) (b : handle) (key value : bytes) :
  Bucket_Put tx b key value = Done (None, tx') ->
  exists q, b = Some q /\
    val_at (q ++ [key]) tx' = Some value /\
    forall p, p <> q ++ [key] -> val_at p tx' = val_at p tx.
Proof.
  unfold Bucket_Put. destruct b as [q|]; [|discriminate].
  destruct (resolve q tx) as [kvs|] eqn:Hr; [|discriminate].
  destruct (_ =? 0); [discriminate|].
  destruct (_ >? MaxKeySize); [discriminate|].
  destruct (_ >? MaxValueSize); [discriminate|].
  assert (Hnew : val_at (q ++ [key]) (update_at q (insert_key key (Val value)) tx)
                 = Some value).
  { rewrite (val_at_resolve q _ (insert_key key (Val value) kvs))
      by (apply resolve_update_at_same; exact Hr).
    rewrite lookup_insert_key_eq. reflexivity. }
  destruct (lookup_key key kvs) as [[v|sub]|] eqn:El; try discriminate;
    intros [= <-]; exists q; (split; [reflexivity|]); (split; [exact Hnew|]);
    intros p Hp; apply (val_at_update_ne q tx kvs); try assumption;
    try (left; eexists; reflexivity); intros sub; rewrite El; discriminate.
Qed.

(** A successful [CreateBucket] adds a bucket and changes no value. *)
Lemma Bucket_CreateBucket_values (tx tx' : bucket) (b hb : handle) (name : bytes) :
  Bucket_CreateBucket tx b name = Done (hb, None, tx') ->
  exists q, b = Some q /\ hb = Some (q ++ [name]) /\
    kind_at (q ++ [name]) tx <> KBkt /\
    kind_at (q ++ [name]) tx' = KBkt /\
    forall p, val_at p tx' = val_at p tx.
Proof.
  unfold Bucket_CreateBucket. destruct b as [q|]; [|discriminate].
  destruct (resolve q tx) as [kvs|] eqn:Hr; [|discriminate].
  destruct (_ =? 0); [discriminate|].
  destruct (lookup_key name kvs) as [[v|sub]|] eqn:El; try discriminate.
  intros [= <- <-]. exists q. split; [reflexivity|]. split; [reflexivity|].
  split; [rewrite (kind_at_resolve q tx kvs name Hr), El; discriminate|].
  split; [apply (kind_at_update_eq q tx kvs name (Bkt []) Hr)|].
  intros p. destruct (decide (p = q ++ [name])) as [-> | Hne].
  - rewrite (val_at_resolve q _ (insert_key name (Bkt []) kvs))
      by (apply resolve_update_at_same; exact Hr).
    rewrite lookup_insert_key_eq.
    rewrite (val_at_resolve q tx kvs name Hr), El. reflexivity.
  - apply (val_at_update_ne q tx kvs); try assumption.
    + intros sub. rewrite El. discriminate.
    + right. reflexivity.
Qed.

Lemma Bucket_Get_val_at (tx : bucket) (q : list bytes) (key : bytes) :
  kind_at q tx = KBkt ->
  Bucket_Get tx (Some q) key = Done (val_at (q ++ [key]) tx).
Proof.
  intros Hk. apply kind_at_bucket in Hk. destruct Hk as [kvs Hr].
  unfold Bucket_Get. rewrite Hr, (val_at_resolve q tx kvs key Hr).
  destruct (lookup_key key kvs) as [[v|sub]|]; reflexivity.
Qed.

Lemma Bucket_Bucket_kind (tx : bucket) (q : list bytes) (name : bytes) :
  kind_at q tx = KBkt ->
  Bucket_Bucket tx (Some q) name =
    Done (match kind_at (q ++ [name]) tx with
          | KBkt => Some (q ++ [name])
          | _ => None
          end).
Proof.
  intros Hk. apply kind_at_bucket in Hk. destruct Hk as [kvs Hr].
  unfold Bucket_Bucket. rewrite Hr, (kind_at_resolve q tx kvs name Hr).
  destruct (lookup_key name kvs) as [[v|sub]|]; reflexivity.
Qed.

Lemma Tx_Bucket_kind (tx : bucket) (name : bytes) :
  Tx_Bucket tx name = match kind_at [name] tx with
                      | KBkt => Some [name]
                      | _ => None
                      end.
Proof.
  unfold Tx_Bucket. simpl. destruct (lookup_key name tx) as [[v|sub]|]; reflexivity.
Qed.

Lemma kind_at_prefix (q : list bytes) (k : bytes) (root : bucket) :
  kind_at (q ++ [k]) root <> KNone -> kind_at q root = KBkt.
Proof.
  revert root. induction q as [|n q IH]; intros root; simpl; [reflexivity|].
  destruct (lookup_key n root) as [[v|sub]|].
  - destruct (q ++ [k]) eqn:E; [destruct q; discriminate | intros Hc; contradiction].
  - apply IH.
  - intros Hc. contradiction.
Qed.

End StoreValues.

(** ** What the pushes leave in the store *)

Section StoredByPushes.

Context `{BinaryCodec Block} `{BinaryCodec state}
        `{BinaryCodec SignedResponseHeader} `{BinaryCodec SignedAckHeader}
        `{Verifier} `{Caller}.

Lemma index_names_distinct :
  metaRequestIndexBucket <> metaResponseIndexBucket /\
  metaRequestIndexBucket <> metaAckIndexBucket /\
  metaResponseIndexBucket <> metaAckIndexBucket /\
  metaStateKey <> metaBlockIndexBucket /\
  metaStateKey <> metaHeightIndexBucket /\
  metaBlockIndexBucket <> metaHeightIndexBucket.
Proof. repeat split; intros E; vm_compute in E; discriminate. Qed.

Lemma Bucket_Bucket_cases (tx : bucket) (q : list bytes) (name : bytes) (hb : handle) :
  Bucket_Bucket tx (Some q) name = Done hb ->
  kind_at q tx = KBkt /\
  ((hb = Some (q ++ [name]) /\ kind_at (q ++ [name]) tx = KBkt) \/
   (hb = None /\ kind_at (q ++ [name]) tx <> KBkt)).
Proof.
  unfold Bucket_Bucket.
  destruct (resolve q tx) as [kvs|] eqn:Hr; [|discriminate].
  rewrite (kind_at_resolve q tx kvs name Hr).
  intros Hd. split; [apply kind_at_bucket; exists kvs; exact Hr|].
  revert Hd.
  destruct (lookup_key name kvs) as [[v|sub]|]; intros [= <-];
    [right | left | right]; split; try reflexivity; discriminate.
Qed.

Lemma ensureHeight_facts (tx tx' : bucket) (k : bytes) (hb : handle) :
  ensureHeight tx k = Done (hb, None, tx') ->
  hb = Some [metaBucket; metaHeightIndexBucket; k] /\
  (forall p, val_at p tx' = val_at p tx) /\
  kind_at [metaBucket; metaHeightIndexBucket; k] tx' = KBkt /\
  (kind_at [metaBucket; metaHeightIndexBucket; k] tx = KBkt -> tx' = tx) /\
  (kind_at [metaBucket; metaHeightIndexBucket; k] tx <> KBkt ->
   kind_at [metaBucket; metaHeightIndexBucket; k; metaRequestIndexBucket] tx' = KBkt /\
   kind_at [metaBucket; metaHeightIndexBucket; k; metaResponseIndexBucket] tx' = KBkt /\
   kind_at [metaBucket; metaHeightIndexBucket; k; metaAckIndexBucket] tx' = KBkt).
Proof.
  destruct index_names_distinct as (N1 & N2 & N3 & _).
  unfold ensureHeight. outcome_step.
  destruct (Bucket_Bucket tx (Tx_Bucket tx metaBucket) metaHeightIndexBucket)
    as [b| |] eqn:Hb; try discriminate.
  apply heights_handle in Hb.
  destruct Hb as [-> | ->]; [discriminate|].
  destruct (Bucket_Bucket tx _ k) as [hb0| |] eqn:Hhb; try discriminate.
  destruct (Bucket_Bucket_cases _ _ _ _ Hhb) as [Hhi [[-> Hk] | [-> Hk]]].
  - intros [= <- <-]. split; [reflexivity|]. split; [reflexivity|].
    split; [exact Hk|]. split; [reflexivity | intros Hc; contradiction].
  - destruct (Bucket_CreateBucket tx _ k) as [[[hb1 [e|]] tx1]| |] eqn:C1;
      try discriminate.
    destruct (Bucket_CreateBucket_done _ _ _ _ _ C1) as (q & [= <-] & -> & K1).
    destruct (Bucket_CreateBucket_values _ _ _ _ _ C1) as (q & [= <-] & _ & _ & B1 & V1).
    destruct (Bucket_CreateBucket tx1 _ metaRequestIndexBucket)
      as [[[hb2 [e|]] tx2]| |] eqn:C2; try discriminate.
    destruct (Bucket_CreateBucket_done _ _ _ _ _ C2) as (q2 & [= <-] & _ & K2).
    destruct (Bucket_CreateBucket_values _ _ _ _ _ C2) as (q2 & [= <-] & _ & _ & B2 & V2).
    destruct (Bucket_CreateBucket tx2 _ metaResponseIndexBucket)
      as [[[hb3 [e|]] tx3]| |] eqn:C3; try discriminate.
    destruct (Bucket_CreateBucket_done _ _ _ _ _ C3) as (q3 & [= <-] & _ & K3).
    destruct (Bucket_CreateBucket_values _ _ _ _ _ C3) as (q3 & [= <-] & _ & _ & B3 & V3).
    destruct (Bucket_CreateBucket tx3 _ metaAckIndexBucket)
      as [[[hb4 [e|]] tx4]| |] eqn:C4; try discriminate.
    destruct (Bucket_CreateBucket_done _ _ _ _ _ C4) as (q4 & [= <-] & _ & K4).
    destruct (Bucket_CreateBucket_values _ _ _ _ _ C4) as (q4 & [= <-] & _ & _ & B4 & V4).
    intros [= <- <-]. split; [reflexivity|].
    split; [intros p; rewrite V4, V3, V2, V1; reflexivity|].
    split.
    { rewrite K4, K3, K2 by discriminate. exact B1. }
    split; [intros Hc; contradiction|]. intros _.
    split; [|split].
    + rewrite K4, K3; [exact B2 | |]; intros E;
        apply (f_equal (fun l => nth 3 l [])) in E; cbn [nth app] in E; congruence.
    + rewrite K4; [exact B3|]. intros E.
      apply (f_equal (fun l => nth 3 l [])) in E. cbn [nth app] in E. congruence.
    + exact B4.
Qed.

(** X3: a successful [ensureHeight] returns the bucket of the height
    and changes no value of the store.  When the bucket of the height was
    there, the store is not touched at all; when it was not, the bucket is
    created with its request, response and ack index buckets.  Calling
    [ensureHeight] again is a no-op with the same answer. *)
Theorem ensureHeight_creates_once (tx tx' : bucket) (k : bytes) (hb : handle) :
  ensureHeight tx k = Done (hb, None, tx') ->
  hb = Some [metaBucket; metaHeightIndexBucket; k] /\
  (forall p, val_at p tx' = val_at p tx) /\
  (kind_at [metaBucket; metaHeightIndexBucket; k] tx = KBkt -> tx' = tx) /\
  (kind_at [metaBucket; metaHeightIndexBucket; k] tx <> KBkt ->
   kind_at [metaBucket; metaHeightIndexBucket; k; metaRequestIndexBucket] tx' = KBkt /\
   kind_at [metaBucket; metaHeightIndexBucket; k; metaResponseIndexBucket] tx' = KBkt /\
   kind_at [metaBucket; metaHeightIndexBucket; k; metaAckIndexBucket] tx' = KBkt) /\
  ensureHeight tx' k = Done (hb, None, tx').
Proof.
  intros He.
  destruct (ensureHeight_facts tx tx' k hb He) as (-> & Hv & Hk & Hsame & Hnew).
  split; [reflexivity|]. split; [exact Hv|]. split; [exact Hsame|].
  split; [exact Hnew|].
  assert (Hhi : kind_at [metaBucket; metaHeightIndexBucket] tx' = KBkt).
  { pose proof (kind_at_prefix [metaBucket; metaHeightIndexBucket] k tx') as P.
    cbn [app] in P. apply P. rewrite Hk. discriminate. }
  assert (Hm : kind_at [metaBucket] tx' = KBkt).
  { pose proof (kind_at_prefix [metaBucket] metaHeightIndexBucket tx') as P.
    cbn [app] in P. apply P. rewrite Hhi. discriminate. }
  unfold ensureHeight. rewrite Tx_Bucket_kind, Hm.
  rewrite (Bucket_Bucket_kind tx' [metaBucket]) by exact Hm.
  cbn [app]. rewrite Hhi. outcome_step.
  rewrite (Bucket_Bucket_kind tx' [metaBucket; metaHeightIndexBucket]) by exact Hhi.
  cbn [app]. rewrite Hk. reflexivity.
Qed.

End StoredByPushes.

Section PushedValues.

Context `{BinaryCodec Block} `{BinaryCodec state}
        `{BinaryCodec SignedResponseHeader} `{BinaryCodec SignedAckHeader}
        `{Verifier} `{Caller}.

Lemma pushResponedQuery_values (c c' : Chain) (resp : SignedResponseHeader) :
  pushResponedQuery c resp = Done (None, c') ->
  let path := [metaBucket; metaHeightIndexBucket;
               heightToKey (getHeightFromTime (rt c)
                              (Request_Timestamp (Response_Request resp)));
               metaResponseIndexBucket; Response_HeaderHash resp] in
  val_at path (db c') = Some (fst (MarshalBinary resp)) /\
  (forall p, p <> path -> val_at p (db c') = val_at p (db c)) /\
  bi c' = bi c /\ rt c' = rt c.
Proof.
  unfold pushResponedQuery, db_Update.
  destruct (MarshalBinary resp) as [enc [e0|]]; [discriminate|].
  outcome_step.
  destruct (ensureHeight _ _) as [[[hb [e0|]] tx1]| |] eqn:He; try discriminate.
  destruct (ensureHeight_facts _ _ _ _ He) as (-> & V1 & _).
  destruct (Bucket_Bucket tx1 _ _) as [[rq|]| |] eqn:Hb; try discriminate.
  destruct (Bucket_Bucket_done _ _ _ _ Hb) as (q & [= <-] & ->).
  destruct (Bucket_Put tx1 _ _ _) as [[[e0|] tx2]| |] eqn:Hp; try discriminate.
  destruct (Bucket_Put_values _ _ _ _ _ Hp) as (q & [= <-] & Hv & V2).
  destruct (addResponse _ _ _) as [err q] eqn:Ha.
  destruct err; [discriminate|].
  intros [= <-]. cbv zeta. simpl fst. cbn [db bi rt with_db with_qi].
  split; [exact Hv|]. split; [|split; reflexivity].
  intros p Hp'. rewrite V2 by exact Hp'. apply V1.
Qed.

Lemma pushAckedQuery_values (c c' : Chain) (ack : SignedAckHeader) :
  plainAckIndex (db c) ->
  pushAckedQuery c ack = Done (None, c') ->
  let path := [metaBucket; metaHeightIndexBucket;
               heightToKey (getHeightFromTime (rt c)
                              (Response_Timestamp (Ack_SignedResponseHeader ack)));
               metaAckIndexBucket; Ack_HeaderHash ack] in
  val_at path (db c') = Some (fst (MarshalBinary ack)) /\
  (forall p, p <> path -> val_at p (db c') = val_at p (db c)) /\
  bi c' = bi c /\ rt c' = rt c.
Proof.
  intros Hplain. unfold pushAckedQuery, db_Update.
  destruct (MarshalBinary ack) as [enc [e0|]]; [discriminate|].
  outcome_step.
  destruct (ensureHeight _ _) as [[[hb [e0|]] tx1]| |] eqn:He; try discriminate.
  destruct (ensureHeight_done _ _ _ _ He) as [_ K1].
  destruct (ensureHeight_facts _ _ _ _ He) as (-> & V1 & _).
  destruct (Bucket_Bucket tx1 _ _) as [[rq|]| |] eqn:Hb; try discriminate.
  destruct (Bucket_Bucket_done _ _ _ _ Hb) as (q & [= <-] & ->).
  destruct (Bucket_Put tx1 _ _ _) as [[[e0|] tx2]| |] eqn:Hp; try discriminate.
  - destruct (Bucket_Put_error _ _ _ _ _ _ Hp) as [-> Hinc].
    destruct e0; try discriminate.
    destruct (Hinc eq_refl) as (q & [= <-] & Hk).
    exfalso.
    rewrite K1 in Hk by reflexivity. exact (Hplain _ _ Hk).
  - destruct (Bucket_Put_values _ _ _ _ _ Hp) as (q & [= <-] & Hv & V2).
    destruct (addAck _ _ _) as [err q] eqn:Ha.
    destruct err; [discriminate|].
    intros [= <-]. cbv zeta. simpl fst. cbn [db bi rt with_db with_qi].
    split; [exact Hv|]. split; [|split; reflexivity].
    intros p Hp'. rewrite V2 by exact Hp'. apply V1.
Qed.

(** X4: a successful [pushResponedQuery] writes exactly one value to the
    store, the encoded response, under its header hash in the response
    index of the height of its request timestamp; a successful
    [pushAckedQuery] (on a store whose ack indices hold values only)
    writes the encoded ack under its header hash in the ack index of the
    height of its response timestamp.  Every other value of the store, the
    block index and the runtime are as before. *)
Theorem push_query_writes_one_value (c c' : Chain) :
  (forall resp,
      pushResponedQuery c resp = Done (None, c') ->
      let path := [metaBucket; metaHeightIndexBucket;
                   heightToKey (getHeightFromTime (rt c)
                                  (Request_Timestamp (Response_Request resp)));
                   metaResponseIndexBucket; Response_HeaderHash resp] in
      val_at path (db c') = Some (fst (MarshalBinary resp)) /\
      (forall p, p <> path -> val_at p (db c') = val_at p (db c)) /\
      bi c' = bi c /\ rt c' = rt c) /\
  (forall ack,
      plainAckIndex (db c) ->
      pushAckedQuery c ack = Done (None, c') ->
      let path := [metaBucket; metaHeightIndexBucket;
                   heightToKey (getHeightFromTime (rt c)
                                  (Response_Timestamp (Ack_SignedResponseHeader ack)));
                   metaAckIndexBucket; Ack_HeaderHash ack] in
      val_at path (db c') = Some (fst (MarshalBinary ack)) /\
      (forall p, p <> path -> val_at p (db c') = val_at p (db c)) /\
      bi c' = bi c /\ rt c' = rt c).
Proof.
  split.
  - intros resp. apply pushResponedQuery_values.
  - intros ack. apply pushAckedQuery_values.
Qed.

(** What a successful [pushBlock] leaves behind. *)
Lemma pushBlock_done_facts (c c' : Chain) (b : Block) :
  pushBlock c b = Done (None, c') ->
  let h := getHeightFromTime (rt c) (Timestamp b) in
  let n := newBlockNode h b (node (getHead (rt c))) in
  let st := {| node := Some n; Head := bn_hash n; Height := bn_height n |} in
  val_at [metaBucket; metaStateKey] (db c') = Some (fst (MarshalBinary st)) /\
  val_at [metaBucket; metaBlockIndexBucket; BlockHash b] (db c')
    = Some (fst (MarshalBinary b)) /\
  (forall p, p <> [metaBucket; metaStateKey] ->
             p <> [metaBucket; metaBlockIndexBucket; BlockHash b] ->
             val_at p (db c') = val_at p (db c)) /\
  kind_at [metaBucket; metaBlockIndexBucket] (db c') = KBkt /\
  rt c' = setHead st (rt c) /\
  bi c' = addBlock n (bi c) /\
  qi c' = setSignedBlock h b (qi c).
Proof.
  destruct index_names_distinct as (_ & _ & _ & N4 & _).
  unfold pushBlock, db_Update.
  destruct (MarshalBinary b) as [encBlock [e|]]; [discriminate|].
  destruct (MarshalBinary _) as [encState [e|]]; [discriminate|].
  outcome_step.
  destruct (Bucket_Put _ _ metaStateKey _) as [[[e|] tx1]| |] eqn:P1; try discriminate.
  outcome_step.
  destruct (Bucket_Put_values _ _ _ _ _ P1) as (q1 & Hq1 & Hv1 & V1).
  apply Tx_Bucket_handle in Hq1. subst q1.
  destruct (Bucket_Bucket tx1 _ _) as [[bq|]| |] eqn:Hb; try discriminate.
  outcome_step.
  destruct (Bucket_Bucket_done _ _ _ _ Hb) as (q2 & Hq2 & ->).
  apply Tx_Bucket_handle in Hq2. subst q2.
  destruct (Bucket_Put tx1 _ _ _) as [[[e|] tx2]| |] eqn:P2; try discriminate.
  destruct (Bucket_Put_values _ _ _ _ _ P2) as (q3 & [= <-] & Hv2 & V2).
  destruct (Bucket_Put_done _ _ _ _ _ P2) as (q3 & [= <-] & _ & Hk2 & _).
  intros [= <-]. cbv zeta. simpl fst. cbn [db bi rt qi with_db with_qi with_rt with_bi].
  split.
  { rewrite V2; [exact Hv1|]. intros E.
    apply (f_equal (fun l => nth 1 l [])) in E. cbn [nth app] in E. congruence. }
  split; [exact Hv2|].
  split.
  { intros p Hp1 Hp2. rewrite V2 by exact Hp2. apply V1. exact Hp1. }
  split; [|repeat split; reflexivity].
  pose proof (kind_at_prefix [metaBucket; metaBlockIndexBucket] (BlockHash b) tx2) as P.
  apply P. cbn [indexKey bn_hash newBlockNode] in Hk2. rewrite Hk2. discriminate.
Qed.

(** X5: a successful [pushBlock] writes two values to the store, the
    encoded state under the state key and the encoded block under the hash
    of the block in the block index, and no other; the head becomes the
    node of the block, whose parent is the node of the previous head; the
    node is in the block index under the hash of the block. *)
Theorem pushBlock_writes_state_and_block (c c' : Chain) (b : Block) :
  pushBlock c b = Done (None, c') ->
  let h := getHeightFromTime (rt c) (Timestamp b) in
  let n := newBlockNode h b (node (getHead (rt c))) in
  let st := {| node := Some n; Head := BlockHash b; Height := h |} in
  val_at [metaBucket; metaStateKey] (db c') = Some (fst (MarshalBinary st)) /\
  val_at [metaBucket; metaBlockIndexBucket; BlockHash b] (db c')
    = Some (fst (MarshalBinary b)) /\
  (forall p, p <> [metaBucket; metaStateKey] ->
             p <> [metaBucket; metaBlockIndexBucket; BlockHash b] ->
             val_at p (db c') = val_at p (db c)) /\
  getHead (rt c') = st /\
  lookupNode (BlockHash b) (bi c') = Some n.
Proof.
  intros Hp.
  destruct (pushBlock_done_facts c c' b Hp) as (Hs & Hb & Hf & _ & Hrt & Hbi & _).
  cbv zeta in *. cbn [bn_hash bn_height newBlockNode] in *.
  split; [exact Hs|]. split; [exact Hb|]. split; [exact Hf|].
  split; [rewrite Hrt; reflexivity|].
  rewrite Hbi. unfold lookupNode, addBlock. cbn [bn_hash]. apply lookup_insert_eq.
Qed.


(** X7: after a successful [pushBlock], [FetchBlock] at the height of the
    block's timestamp reads the block back from the store: it returns
    what decoding the encoded block gives. *)
Theorem FetchBlock_after_pushBlock (c c' : Chain) (b : Block) :
  pushBlock c b = Done (None, c') ->
  FetchBlock c' (getHeightFromTime (rt c) (Timestamp b)) =
    Done (Some (fst (UnmarshalBinary (fst (MarshalBinary b)))),
          snd (UnmarshalBinary (A := Block) (fst (MarshalBinary b)))).
Proof.
  intros Hp.
  destruct (pushBlock_done_facts c c' b Hp) as (_ & Hb & _ & Hk & Hrt & _).
  cbv zeta in *.
  assert (Hm : kind_at [metaBucket] (db c') = KBkt).
  { pose proof (kind_at_prefix [metaBucket] metaBlockIndexBucket (db c')) as P.
    cbn [app] in P. apply P. rewrite Hk. discriminate. }
  unfold FetchBlock, db_View. rewrite Hrt.
  cbn [getHead setHead head node newBlockNode ancestor].
  rewrite Z.eqb_refl. cbn [indexKey bn_hash].
  rewrite Tx_Bucket_kind, Hm.
  rewrite (Bucket_Bucket_kind (db c') [metaBucket]) by exact Hm.
  cbn [app]. rewrite Hk. outcome_step.
  rewrite (Bucket_Get_val_at (db c') [metaBucket; metaBlockIndexBucket]) by exact Hk.
  cbn [app].
  lazymatch goal with
  | |- match ?x with _ => _ end = _ =>
      replace x with (Some (fst (MarshalBinary b))) by (symmetry; exact Hb)
  end.
  destruct (UnmarshalBinary _) as [b' err]. reflexivity.
Qed.

End PushedValues.


(** ** More on fetching an acknowledged query *)

Section FetchAckMore.

Context `{BinaryCodec Block} `{BinaryCodec state}
        `{BinaryCodec SignedResponseHeader} `{BinaryCodec SignedAckHeader}
        `{Verifier} `{Caller}.

Lemma fetchAckedQueryLoop_ack (tx : bucket) (height : Z) (header : Hash)
    (a : SignedAckHeader) (err : option error) :
  forall (fuel : nat) (i : Z) (err0 : option error),
    fetchAckedQueryLoop fuel tx i height header None err0 = Done (Some a, err) ->
    exists v e,
      storedAck tx height header = Some v /\
      UnmarshalBinary v = (a, Some e) /\ err = Some e.
Proof.
  induction fuel as [|fuel IH]; intros i err0; [discriminate|].
  cbn [fetchAckedQueryLoop].
  destruct (i <=? height); [|discriminate].
  outcome_step.
  destruct (Bucket_Bucket tx (Tx_Bucket tx metaBucket) metaHeightIndexBucket)
    as [hs| |] eqn:Hhs; try discriminate.
  apply heights_handle in Hhs.
  destruct Hhs as [-> | ->]; [discriminate|].
  destruct (Bucket_Bucket tx _ (heightToKey height)) as [[qb|]| |] eqn:Hb;
    try discriminate; [|apply IH].
  destruct (Bucket_Bucket_done _ _ _ _ Hb) as (q & [= <-] & ->).
  destruct (Bucket_Bucket tx _ metaAckIndexBucket) as [[qa|]| |] eqn:Ha;
    try discriminate.
  destruct (Bucket_Bucket_done _ _ _ _ Ha) as (q & [= <-] & ->).
  destruct (Bucket_Get tx _ header) as [[v|]| |] eqn:Hg; try discriminate; [|apply IH].
  destruct (UnmarshalBinary v) as [dec [e|]] eqn:Hd; [|apply IH].
  intros [= <- <-]. exists v, e. split; [|split; [exact Hd | reflexivity]].
  unfold storedAck. unfold Bucket_Get in Hg. cbn [app] in Hg.
  destruct (resolve _ tx) as [kvs|]; [|discriminate].
  destruct (lookup_key header kvs) as [[v'|sub]|]; congruence.
Qed.

(** X8: when the query index misses, the only ack [FetchAckedQuery]
    ever returns from the store is one whose stored bytes failed to decode,
    returned together with the decoding error: the store never yields an
    ack with a [nil] error. *)
Theorem FetchAckedQuery_store_ack_comes_with_error (fuel : nat) (c : Chain)
    (height : Z) (header : Hash) (e0 : error) (a : SignedAckHeader) (err : option error) :
  getAck height header (qi c) = (None, Some e0) ->
  FetchAckedQuery fuel c height header = Done (Some a, err) ->
  exists v e,
    storedAck (db c) height header = Some v /\
    UnmarshalBinary v = (a, Some e) /\ err = Some e.
Proof.
  intros Hmem. unfold FetchAckedQuery, db_View. rewrite Hmem.
  apply fetchAckedQueryLoop_ack.
Qed.

(** One turn of the loop over a quiet lookup goes on to the next [i]. *)
Lemma fetchAckedQueryLoop_quiet (tx : bucket) (height : Z) (header : Hash) :
  ackLookupQuiet tx height header ->
  forall (fuel : nat) (i : Z) (ack : option SignedAckHeader),
    fetchAckedQueryLoop (S fuel) tx i height header ack None =
      if i <=? height
      then fetchAckedQueryLoop fuel tx (wrap32 (i + 1)) height header ack None
      else Done (ack, None).
Proof.
  intros [Hhi Hq] fuel i ack.
  assert (Hm : kind_at [metaBucket] tx = KBkt).
  { pose proof (kind_at_prefix [metaBucket] metaHeightIndexBucket tx) as P.
    cbn [app] in P. apply P. rewrite Hhi. discriminate. }
  cbn [fetchAckedQueryLoop].
  destruct (i <=? height); [|reflexivity].
  rewrite Tx_Bucket_kind, Hm.
  rewrite (Bucket_Bucket_kind tx [metaBucket]) by exact Hm.
  cbn [app]. rewrite Hhi. outcome_step.
  rewrite (Bucket_Bucket_kind tx [metaBucket; metaHeightIndexBucket]) by exact Hhi.
  cbn [app].
  destruct Hq as [Habs | [Hai Hdec]].
  - destruct (kind_at [metaBucket; metaHeightIndexBucket; heightToKey height] tx);
      try reflexivity. contradiction.
  - assert (Hb : kind_at [metaBucket; metaHeightIndexBucket; heightToKey height] tx = KBkt).
    { pose proof (kind_at_prefix [metaBucket; metaHeightIndexBucket; heightToKey height]
                    metaAckIndexBucket tx) as P.
      cbn [app] in P. apply P. rewrite Hai. discriminate. }
    rewrite Hb.
    rewrite (Bucket_Bucket_kind tx _ metaAckIndexBucket) by exact Hb.
    cbn [app]. rewrite Hai. outcome_step.
    rewrite (Bucket_Get_val_at tx _ header) by exact Hai.
    cbn [app].
    destruct (val_at _ tx) as [v|] eqn:Hv; [|reflexivity].
    specialize (Hdec v eq_refl).
    destruct (UnmarshalBinary v) as [dec err]. simpl in Hdec. subst err. reflexivity.
Qed.

Lemma fetchAckedQueryLoop_quiet_ends (tx : bucket) (height : Z) (header : Hash)
    (ack : option SignedAckHeader) :
  ackLookupQuiet tx height header ->
  height < 2 ^ 31 - 1 ->
  forall (fuel : nat) (i : Z),
    - 2 ^ 31 <= i ->
    (Z.to_nat (height + 1 - i) < fuel)%nat ->
    fetchAckedQueryLoop fuel tx i height header ack None = Done (ack, None).
Proof.
  intros Hq Hmax.
  induction fuel as [|fuel IH]; intros i Hi Hfuel; [lia|].
  rewrite (fetchAckedQueryLoop_quiet tx height header Hq).
  destruct (Z.leb_spec i height) as [Hle | Hgt]; [|reflexivity].
  assert (Hw : wrap32 (i + 1) = i + 1) by (apply wrap32_small; unfold is_int32; lia).
  rewrite Hw. apply IH; lia.
Qed.

(** X9: when neither the query index nor the store has the ack (the
    height has no bucket, or its ack index has no value under the header
    hash), [FetchAckedQuery] at a height below the largest int32 returns a
    [nil] ack with a [nil] error: a miss is not reported as an error. *)
Theorem FetchAckedQuery_miss (c : Chain) (height : Z) (header : Hash) (e0 : error) :
  getAck height header (qi c) = (None, Some e0) ->
  kind_at [metaBucket; metaHeightIndexBucket] (db c) = KBkt ->
  (kind_at [metaBucket; metaHeightIndexBucket; heightToKey height] (db c) <> KBkt \/
   (kind_at [metaBucket; metaHeightIndexBucket; heightToKey height; metaAckIndexBucket]
      (db c) = KBkt /\
    val_at [metaBucket; metaHeightIndexBucket; heightToKey height; metaAckIndexBucket;
            header] (db c) = None)) ->
  height < 2 ^ 31 - 1 ->
  exists fuel0 : nat, forall fuel : nat, (fuel0 <= fuel)%nat ->
    FetchAckedQuery fuel c height header = Done (None, None).
Proof.
  intros Hmem Hhi Habs Hmax.
  assert (Hq : ackLookupQuiet (db c) height header).
  { split; [exact Hhi|]. destruct Habs as [Ha | [Ha Hv]]; [left; exact Ha|].
    right. split; [exact Ha|]. intros v Hv'. congruence. }
  exists (S (Z.to_nat (height + 1 - wrap32 (height - queryTTL (rt c))))).
  intros fuel Hfuel. unfold FetchAckedQuery, db_View. rewrite Hmem.
  apply (fetchAckedQueryLoop_quiet_ends (db c) height header None Hq Hmax).
  - apply wrap32_is_int32.
  - lia.
Qed.

Lemma fetchAckedQueryLoop_never_ends (tx : bucket) (header : Hash)
    (ack : option SignedAckHeader) :
  ackLookupQuiet tx (2 ^ 31 - 1) header ->
  forall (fuel : nat) (i : Z),
    is_int32 i ->
    fetchAckedQueryLoop fuel tx i (2 ^ 31 - 1) header ack None = OutOfFuel.
Proof.
  intros Hq.
  induction fuel as [|fuel IH]; intros i Hi; [reflexivity|].
  rewrite (fetchAckedQueryLoop_quiet tx (2 ^ 31 - 1) header Hq).
  destruct (Z.leb_spec i (2 ^ 31 - 1)) as [Hle | Hgt];
    [|unfold is_int32 in Hi; lia].
  apply IH, wrap32_is_int32.
Qed.

(** X10: at the largest int32 height the loop of [FetchAckedQuery] has
    no end: [i <= height] holds for every int32 [i], so when the query
    index misses and the lookup in the store neither panics nor meets
    undecodable bytes, no number of iterations is enough. *)
Theorem FetchAckedQuery_max_height_never_returns (c : Chain) (header : Hash)
    (e0 : error) :
  getAck (2 ^ 31 - 1) header (qi c) = (None, Some e0) ->
  ackLookupQuiet (db c) (2 ^ 31 - 1) header ->
  forall fuel : nat, FetchAckedQuery fuel c (2 ^ 31 - 1) header = OutOfFuel.
Proof.
  intros Hmem Hq fuel. unfold FetchAckedQuery, db_View. rewrite Hmem.
  apply (fetchAckedQueryLoop_never_ends (db c) header None Hq).
  apply wrap32_is_int32.
Qed.

End FetchAckMore.

(** ** More on the checks before a push *)

Section ChecksMore.

Context `{BinaryCodec Block} `{BinaryCodec state}
        `{BinaryCodec SignedResponseHeader} `{BinaryCodec SignedAckHeader}
        `{Verifier} `{Caller}.

(** X11: [VerifyAndPushResponsedQuery] and [VerifyAndPushAckedQuery] push
    nothing that is expired or unverified.  When the call returns [nil] the
    query was not expired, passed its verification, and the result is the
    one of the push; when the query is expired the answer is
    [ErrQueryExpired], whatever its signature, and when it fails its
    verification the answer is the error of the verification: in both
    cases the chain is left as it was. *)
Theorem VerifyAndPush_gate (c : Chain) :
  (forall resp,
      (forall c', VerifyAndPushResponsedQuery c resp = Done (None, c') ->
         queryTimeIsExpired (rt c) (Response_Timestamp resp) = false /\
         Response_Verify resp = None /\
         pushResponedQuery c resp = Done (None, c')) /\
      (queryTimeIsExpired (rt c) (Response_Timestamp resp) = true ->
         VerifyAndPushResponsedQuery c resp = Done (Some ErrQueryExpired, c)) /\
      (forall e, queryTimeIsExpired (rt c) (Response_Timestamp resp) = false ->
         Response_Verify resp = Some e ->
         VerifyAndPushResponsedQuery c resp = Done (Some e, c))) /\
  (forall ack,
      (forall c', VerifyAndPushAckedQuery c ack = Done (None, c') ->
         queryTimeIsExpired (rt c) (Response_Timestamp (Ack_SignedResponseHeader ack))
           = false /\
         Ack_Verify ack = None /\
         pushAckedQuery c ack = Done (None, c')) /\
      (queryTimeIsExpired (rt c) (Response_Timestamp (Ack_SignedResponseHeader ack))
         = true ->
         VerifyAndPushAckedQuery c ack = Done (Some ErrQueryExpired, c)) /\
      (forall e,
         queryTimeIsExpired (rt c) (Response_Timestamp (Ack_SignedResponseHeader ack))
           = false ->
         Ack_Verify ack = Some e ->
         VerifyAndPushAckedQuery c ack = Done (Some e, c))).
Proof.
  split.
  - intros resp. unfold VerifyAndPushResponsedQuery.
    destruct (queryTimeIsExpired _ _); destruct (Response_Verify resp) as [e0|];
      repeat split; try discriminate; try reflexivity; try assumption;
      intros; congruence.
  - intros ack. unfold VerifyAndPushAckedQuery.
    destruct (queryTimeIsExpired _ _); destruct (Ack_Verify ack) as [e0|];
      repeat split; try discriminate; try reflexivity; try assumption;
      intros; congruence.
Qed.

Lemma checkQueries_known (c : Chain) (height : Z) (block : Block) (qs : list Hash) :
  (forall q, q ∈ qs -> checkAckFromBlock height (BlockHash block) q (qi c) = (true, None)) ->
  checkQueries c height block qs = Done (None, c).
Proof.
  induction qs as [|q qs IH]; intros Hall; cbn [checkQueries]; [reflexivity|].
  rewrite (Hall q) by left. apply IH. intros q' Hq'. apply Hall. right. exact Hq'.
Qed.

(** X12: a block that is not the head already, extends the head, comes
    from the producer at the rotation index, lists only acks the query
    index holds and passes its verification is handed to [pushBlock] with
    the chain untouched: the answer of [CheckAndPushNewBlock] is the
    answer of [pushBlock]. *)
Theorem CheckAndPushNewBlock_accepts_as_pushBlock (c : Chain) (block : Block) :
  ~ alreadyHead c block ->
  ParentHash block = Head (getHead (rt c)) ->
  Find (getPeers (rt c)) (Producer block) =
    (nextProducer (getHead (rt c))
       (wrap32 (Z.of_nat (length (Servers (getPeers (rt c)))))), true) ->
  (forall q, q ∈ Queries block ->
     checkAckFromBlock (getHeightFromTime (rt c) (Timestamp block)) (BlockHash block) q
       (qi c) = (true, None)) ->
  Block_Verify block = None ->
  CheckAndPushNewBlock c block = pushBlock c block.
Proof.
  intros Hna Hp Hf Hq Hv.
  rewrite CheckAndPushNewBlock_extends by assumption. cbv zeta.
  rewrite Hf. cbn [negb]. rewrite Z.eqb_refl. cbn [negb].
  rewrite (checkQueries_known c _ block (Queries block) Hq). outcome_step.
  rewrite Hv. reflexivity.
Qed.

Lemma pushAckedQuery_keeps (c c' : Chain) (ack : SignedAckHeader) (err : option error) :
  pushAckedQuery c ack = Done (err, c') -> rt c' = rt c /\ bi c' = bi c.
Proof.
  unfold pushAckedQuery, db_Update.
  destruct (MarshalBinary ack) as [enc [e|]]; [intros [= <- <-]; split; reflexivity|].
  outcome_step.
  destruct (ensureHeight _ _) as [[[hb [e|]] tx1]| |]; try discriminate.
  { intros [= <- <-]. split; reflexivity. }
  outcome_step.
  destruct (Bucket_Bucket tx1 _ _) as [ab| |]; try discriminate.
  outcome_step.
  destruct (Bucket_Put tx1 _ _ _) as [[[e|] tx2]| |]; try discriminate.
  - destruct e; try (destruct (addAck _ _ _) as [[e'|] q]);
      intros [= <- <-]; split; reflexivity.
  - destruct (addAck _ _ _) as [[e'|] q]; intros [= <- <-]; split; reflexivity.
Qed.

Lemma syncAckedQuery_keeps (c c' : Chain) (height : Z) (ack : Hash) (id : NodeID)
    (err : option error) :
  syncAckedQuery c height ack id = Done (err, c') -> rt c' = rt c /\ bi c' = bi c.
Proof.
  unfold syncAckedQuery, VerifyAndPushAckedQuery.
  destruct (CallFetchAckedQuery id height ack) as [[e|] [a|]];
    try (intros [= <- <-]; split; reflexivity); try discriminate.
  destruct (queryTimeIsExpired _ _); [intros [= <- <-]; split; reflexivity|].
  destruct (Ack_Verify a); [intros [= <- <-]; split; reflexivity|].
  apply pushAckedQuery_keeps.
Qed.

Lemma checkQueries_keeps (height : Z) (block : Block) (qs : list Hash) :
  forall (c c' : Chain) (err : option error),
    checkQueries c height block qs = Done (err, c') -> rt c' = rt c /\ bi c' = bi c.
Proof.
  induction qs as [|q qs IH]; intros c c' err; cbn [checkQueries].
  - intros [= <- <-]. split; reflexivity.
  - destruct (checkAckFromBlock _ _ _ _) as [ok [e|]];
      [intros [= <- <-]; split; reflexivity|].
    destruct ok; [apply IH|].
    outcome_step.
    destruct (syncAckedQuery _ _ _ _) as [[err1 c1]| |] eqn:Hsync; try discriminate.
    apply syncAckedQuery_keeps in Hsync. destruct Hsync as [Hr Hb].
    destruct err1 as [e|]; [intros [= <- <-]; split; assumption|].
    destruct (checkAckFromBlock _ _ _ _) as [ok' [e|]];
      [intros [= <- <-]; split; assumption|].
    intros Hrest. apply IH in Hrest. destruct Hrest. split; congruence.
Qed.

(** X13: a block that fails its verification is never pushed: whatever
    [CheckAndPushNewBlock] answers, the head and the block index are as
    before, and the answer is [nil] only for a block that is the head
    already, which is answered before any check. *)
Theorem CheckAndPushNewBlock_unverified_never_pushed (c c' : Chain) (block : Block)
    (e : error) (err : option error) :
  Block_Verify block = Some e ->
  CheckAndPushNewBlock c block = Done (err, c') ->
  rt c' = rt c /\ bi c' = bi c /\ (err = None -> alreadyHead c block /\ c' = c).
Proof.
  intros Hv. unfold CheckAndPushNewBlock.
  destruct (_ && _) eqn:Hah.
  { apply alreadyHead_test in Hah. intros [= <- <-].
    split; [reflexivity|]. split; [reflexivity|]. intros _.
    split; [exact Hah | reflexivity]. }
  destruct (negb (bool_decide _));
    [intros [= <- <-]; repeat split; discriminate|].
  destruct (Find _ _) as [index found].
  destruct (negb found); [intros [= <- <-]; repeat split; discriminate|].
  destruct (negb (index =? _)); [intros [= <- <-]; repeat split; discriminate|].
  outcome_step.
  destruct (checkQueries _ _ _ _) as [[err1 c1]| |] eqn:Hq; try discriminate.
  apply checkQueries_keeps in Hq. destruct Hq as [Hr Hb].
  destruct err1 as [e1|]; [intros [= <- <-]; repeat split; try assumption; discriminate|].
  rewrite Hv. intros [= <- <-]. repeat split; try assumption; discriminate.
Qed.

Lemma checkQueries_sync_fails (c : Chain) (height : Z) (block : Block)
    (known : list Hash) (q : Hash) (rest : list Hash) (e : error)
    (a : option SignedAckHeader) :
  (forall k, k ∈ known -> checkAckFromBlock height (BlockHash block) k (qi c) = (true, None)) ->
  checkAckFromBlock height (BlockHash block) q (qi c) = (false, None) ->
  CallFetchAckedQuery (Producer block) height q = (Some e, a) ->
  checkQueries c height block (known ++ q :: rest) = Done (Some e, c).
Proof.
  intros Hknown Hq Hcall.
  induction known as [|k known IH]; cbn [checkQueries app].
  - rewrite Hq. outcome_step. unfold syncAckedQuery. rewrite Hcall. reflexivity.
  - rewrite (Hknown k) by left. apply IH. intros k' Hk'. apply Hknown. right. exact Hk'.
Qed.

(** X14: when an ack a block lists is not in the query index and
    fetching it from the producer fails, [CheckAndPushNewBlock] gives up
    with the error of the call: the later acks are not looked at, the block
    is not verified and not pushed, and the chain is as it was. *)
Theorem CheckAndPushNewBlock_sync_failure (c : Chain) (block : Block)
    (known : list Hash) (q : Hash) (rest : list Hash) (e : error)
    (a : option SignedAckHeader) :
  ~ alreadyHead c block ->
  ParentHash block = Head (getHead (rt c)) ->
  Find (getPeers (rt c)) (Producer block) =
    (nextProducer (getHead (rt c))
       (wrap32 (Z.of_nat (length (Servers (getPeers (rt c)))))), true) ->
  Queries block = known ++ q :: rest ->
  (forall k, k ∈ known ->
     checkAckFromBlock (getHeightFromTime (rt c) (Timestamp block)) (BlockHash block) k
       (qi c) = (true, None)) ->
  checkAckFromBlock (getHeightFromTime (rt c) (Timestamp block)) (BlockHash block) q
    (qi c) = (false, None) ->
  CallFetchAckedQuery (Producer block) (getHeightFromTime (rt c) (Timestamp block)) q
    = (Some e, a) ->
  CheckAndPushNewBlock c block = Done (Some e, c).
Proof.
  intros Hna Hp Hf Hqs Hknown Hq Hcall.
  rewrite CheckAndPushNewBlock_extends by assumption. cbv zeta.
  rewrite Hf. cbn [negb]. rewrite Z.eqb_refl. cbn [negb].
  rewrite Hqs.
  rewrite (checkQueries_sync_fails c _ block known q rest e a Hknown Hq Hcall).
  reflexivity.
Qed.


End ChecksMore.


(** ** More on loading the chain *)

Section LoadMore.

Context `{BinaryCodec Block} `{BinaryCodec state}
        `{BinaryCodec SignedResponseHeader} `{BinaryCodec SignedAckHeader}
        `{Verifier} `{Caller}.

Lemma loadBlocks_db (items : list (bytes * bytes)) :
  forall (c : Chain) (last : option blockNode) (nodes : list blockNode),
    db (snd (fst (loadBlocks c last nodes items))) = db c /\
    qi (snd (fst (loadBlocks c last nodes items))) = qi c.
Proof.
  induction items as [|[k v] items IH]; intros c last nodes; simpl;
    [split; reflexivity|].
  destruct (UnmarshalBinary v) as [block [e|]]; [split; reflexivity|].
  destruct last as [l|].
  - destruct (bool_decide (ParentHash block = bn_hash l)).
    + destruct (SignedHeader_Verify block); [split; reflexivity | apply IH].
    + destruct (lookupNode (BlockHash block) (bi c)); [apply IH | split; reflexivity].
  - destruct (SignedHeader_VerifyAsGenesis block); [split; reflexivity|].
    destruct (IH (with_rt (setGenesis block (rt c)) c)
                 (Some (newBlockNode
                          (getHeightFromTime (setGenesis block (rt c)) (Timestamp block))
                          block None))
                 (nodes ++ [newBlockNode
                              (getHeightFromTime (setGenesis block (rt c)) (Timestamp block))
                              block None])) as [Hd Hq].
    split; [rewrite Hd | rewrite Hq]; reflexivity.
Qed.

(** X16: [LoadChain] only reads the store, and it adds no node to the
    block index: whatever it returns, with or without an error, the store
    of the chain is the store that was opened and the block index is
    empty. *)
Theorem LoadChain_reads_only (cfg : Config) (file : bucket) (c : Chain)
    (err : option error) :
  LoadChain cfg file = Done (c, err) ->
  db c = file /\ bi c = newBlockIndex.
Proof.
  unfold LoadChain, db_View. cbn [db]. outcome_step.
  destruct (Bucket_Get file _ metaStateKey) as [v| |]; try discriminate.
  outcome_step.
  destruct (UnmarshalBinary _) as [st [e|]]; [intros [= <- <-]; split; reflexivity|].
  destruct (Bucket_Bucket file _ metaBlockIndexBucket) as [blocks| |]; try discriminate.
  outcome_step.
  destruct (Bucket_items file blocks) as [items| |]; try discriminate.
  outcome_step.
  pose proof (loadBlocks_bi items
    (with_rt (setHead st (rt {| db := file; bi := newBlockIndex; qi := newQueryIndex;
                                 rt := newRunTime cfg |}))
       {| db := file; bi := newBlockIndex; qi := newQueryIndex; rt := newRunTime cfg |})
    None []) as Hbi.
  pose proof (loadBlocks_db items
    (with_rt (setHead st (rt {| db := file; bi := newBlockIndex; qi := newQueryIndex;
                                 rt := newRunTime cfg |}))
       {| db := file; bi := newBlockIndex; qi := newQueryIndex; rt := newRunTime cfg |})
    None []) as [Hdb _].
  destruct (loadBlocks _ None [] items) as [[err1 c1] nodes].
  cbn [fst snd db bi with_rt] in Hbi, Hdb.
  destruct err1 as [e|]; [intros [= <- <-]; split; assumption|].
  destruct (Bucket_Bucket file _ metaHeightIndexBucket) as [heights| |]; try discriminate.
  outcome_step.
  destruct (Bucket_items file heights) as [hitems| |]; try discriminate.
  outcome_step.
  destruct (loadHeights file heights (qi c1) hitems) as [[err2 q]| |]; try discriminate.
  intros [= <- <-]. cbn [db bi with_qi]. split; assumption.
Qed.

Lemma loadBlocks_linear_from (items : list (bytes * bytes)) :
  forall (c : Chain) (l : blockNode) (nodes : list blockNode),
    linearFrom (bn_hash l) items ->
    exists more,
      loadBlocks c (Some l) nodes items = (None, c, nodes ++ more) /\
      length more = length items /\
      chainedFrom l more.
Proof.
  induction items as [|[k v] items IH]; intros c l nodes Hlin.
  - exists []. rewrite app_nil_r. repeat split; reflexivity.
  - destruct Hlin as (block & Hdec & Hpar & Hver & Hrest).
    cbn [loadBlocks]. rewrite Hdec.
    rewrite bool_decide_eq_true_2 by exact Hpar. rewrite Hver.
    destruct (IH c (newBlockNode (getHeightFromTime (rt c) (Timestamp block)) block (Some l))
                 (nodes ++ [newBlockNode (getHeightFromTime (rt c) (Timestamp block))
                              block (Some l)]) Hrest)
      as (more & Hl & Hlen & Hch).
    exists (newBlockNode (getHeightFromTime (rt c) (Timestamp block)) block (Some l)
              :: more).
    split; [rewrite Hl, <- app_assoc; reflexivity|].
    split; [simpl; rewrite Hlen; reflexivity|].
    split; [reflexivity | exact Hch].
Qed.

(** X17: the block phase of [LoadChain] accepts a single chain: when the
    first stored block decodes and verifies as genesis and every later one
    decodes, names the block before it as its parent and verifies, no error
    is met, the genesis constants of the runtime are set from the first
    block, and one node is built per block, the first without a parent and
    each later one with the node before it as its parent. *)
Theorem loadBlocks_linear_chain (c : Chain) (k0 v0 : bytes) (g : Block)
    (items : list (bytes * bytes)) :
  UnmarshalBinary v0 = (g, None) ->
  SignedHeader_VerifyAsGenesis g = None ->
  linearFrom (BlockHash g) items ->
  exists gn more,
    loadBlocks c None [] ((k0, v0) :: items)
      = (None, with_rt (setGenesis g (rt c)) c, gn :: more) /\
    bn_block gn = g /\ bn_parent gn = None /\
    length more = length items /\
    chainedFrom gn more.
Proof.
  intros Hdec Hver Hlin.
  cbn [loadBlocks]. rewrite Hdec, Hver.
  set (gn := newBlockNode (getHeightFromTime (rt (with_rt (setGenesis g (rt c)) c))
                             (Timestamp g)) g None).
  destruct (loadBlocks_linear_from items (with_rt (setGenesis g (rt c)) c) gn
              ([] ++ [gn]) Hlin) as (more & Hl & Hlen & Hch).
  exists gn, more. split; [rewrite Hl; reflexivity|].
  repeat split; assumption.
Qed.

End LoadMore.

(** ** A new chain, loaded again *)

Section NewThenLoad.

Context `{BinaryCodec Block} `{BinaryCodec state}
        `{BinaryCodec SignedResponseHeader} `{BinaryCodec SignedAckHeader}
        `{Verifier} `{Caller}.

Lemma fresh_layout_1 :
  Bucket_CreateBucketIfNotExists [] (Some []) metaBucket
    = Done (Some [metaBucket], None, [ (metaBucket, Bkt []) ]).
Proof. vm_compute. reflexivity. Qed.

Lemma fresh_layout_2 :
  Bucket_CreateBucketIfNotExists [ (metaBucket, Bkt []) ] (Some [metaBucket])
    metaBlockIndexBucket
    = Done (Some [metaBucket; metaBlockIndexBucket], None,
            [ (metaBucket, Bkt [ (metaBlockIndexBucket, Bkt []) ]) ]).
Proof. vm_compute. reflexivity. Qed.

Lemma fresh_layout_3 :
  Bucket_CreateBucketIfNotExists [ (metaBucket, Bkt [ (metaBlockIndexBucket, Bkt []) ]) ]
    (Some [metaBucket]) metaHeightIndexBucket
    = Done (Some [metaBucket; metaHeightIndexBucket], None, Example.emptyLayout).
Proof. vm_compute. reflexivity. Qed.

Lemma fresh_put_state (encState : bytes) :
  Z.of_nat (length encState) <= MaxValueSize ->
  Bucket_Put Example.emptyLayout (Tx_Bucket Example.emptyLayout metaBucket) metaStateKey
    encState
    = Done (None,
            [ (metaBucket,
               Bkt [ (metaBlockIndexBucket, Bkt []); (metaHeightIndexBucket, Bkt []);
                     (metaStateKey, Val encState) ]) ]).
Proof.
  intros Hsz. unfold Bucket_Put.
  assert (Hgt : (Z.of_nat (length encState) >? MaxValueSize) = false)
    by (rewrite Z.gtb_ltb; apply Z.ltb_ge; exact Hsz).
  rewrite Hgt. vm_compute. reflexivity.
Qed.

Lemma fresh_put_block (hash encState encBlock : bytes) :
  hash <> [] ->
  Z.of_nat (length hash) <= MaxKeySize ->
  Z.of_nat (length encBlock) <= MaxValueSize ->
  let tx := [ (metaBucket,
               Bkt [ (metaBlockIndexBucket, Bkt []); (metaHeightIndexBucket, Bkt []);
                     (metaStateKey, Val encState) ]) ] in
  Bucket_Bucket tx (Tx_Bucket tx metaBucket) metaBlockIndexBucket
    = Done (Some [metaBucket; metaBlockIndexBucket]) /\
  Bucket_Put tx (Some [metaBucket; metaBlockIndexBucket]) hash encBlock
    = Done (None, freshStore hash encState encBlock).
Proof.
  intros Hne Hk Hv tx. split; [vm_compute; reflexivity|].
  unfold Bucket_Put.
  assert (Hz0 : (Z.of_nat (length hash) =? 0) = false).
  { apply Z.eqb_neq. destruct hash; [contradiction | simpl length; lia]. }
  assert (Hk0 : (Z.of_nat (length hash) >? MaxKeySize) = false)
    by (rewrite Z.gtb_ltb; apply Z.ltb_ge; exact Hk).
  assert (Hv0 : (Z.of_nat (length encBlock) >? MaxValueSize) = false)
    by (rewrite Z.gtb_ltb; apply Z.ltb_ge; exact Hv).
  rewrite Hz0, Hk0, Hv0. vm_compute. reflexivity.
Qed.

Lemma fresh_store_reads (hash encState encBlock : bytes) :
  let tx := freshStore hash encState encBlock in
  Bucket_Get tx (Tx_Bucket tx metaBucket) metaStateKey = Done (Some encState) /\
  Bucket_Bucket tx (Tx_Bucket tx metaBucket) metaBlockIndexBucket
    = Done (Some [metaBucket; metaBlockIndexBucket]) /\
  Bucket_items tx (Some [metaBucket; metaBlockIndexBucket]) = Done [ (hash, encBlock) ] /\
  Bucket_Bucket tx (Tx_Bucket tx metaBucket) metaHeightIndexBucket
    = Done (Some [metaBucket; metaHeightIndexBucket]) /\
  Bucket_items tx (Some [metaBucket; metaHeightIndexBucket]) = Done [].
Proof. repeat split; vm_compute; reflexivity. Qed.

(** X18: a chain created in an empty store loads again.  When the genesis
    block comes back from its encoding, and the head hash and the head
    height of the state of the genesis block come back from its encoding,
    [NewChain] on an empty store succeeds with the head at the genesis block
    and at height 0 and leaves the layout, the state and the block in the
    store; [LoadChain] on that store succeeds with the same head hash and
    head height and the same store. *)
Theorem LoadChain_after_NewChain (cfg : Config) (encBlock encState : bytes)
    (st' : state) :
  Block_VerifyAsGenesis (Genesis cfg) = None ->
  SignedHeader_VerifyAsGenesis (Genesis cfg) = None ->
  MarshalBinary (Genesis cfg) = (encBlock, None) ->
  UnmarshalBinary encBlock = (Genesis cfg, None) ->
  Z.of_nat (length encBlock) <= MaxValueSize ->
  BlockHash (Genesis cfg) <> [] ->
  Z.of_nat (length (BlockHash (Genesis cfg))) <= MaxKeySize ->
  MarshalBinary (genesisState cfg) = (encState, None) ->
  Z.of_nat (length encState) <= MaxValueSize ->
  UnmarshalBinary encState = (st', None) ->
  Head st' = Head (genesisState cfg) ->
  Height st' = Height (genesisState cfg) ->
  exists c1 c2,
    NewChain cfg [] = Done (Some c1, None) /\
    db c1 = freshStore (BlockHash (Genesis cfg)) encState encBlock /\
    Head (getHead (rt c1)) = BlockHash (Genesis cfg) /\
    Height (getHead (rt c1)) = 0 /\
    LoadChain cfg (db c1) = Done (c2, None) /\
    Head (getHead (rt c2)) = Head (getHead (rt c1)) /\
    Height (getHead (rt c2)) = Height (getHead (rt c1)) /\
    db c2 = db c1.
Proof.
  intros Hvg Hvs Hmb Hub Hszb Hne Hszk Hms Hszs Hus Hhead Hheight.
  unfold genesisState in Hms, Hhead, Hheight. cbv zeta in Hms, Hhead, Hheight.
  set (g := Genesis cfg) in *.
  set (h := getHeightFromTime (newRunTime cfg) (Timestamp g)) in *.
  set (n := newBlockNode h g None) in *.
  set (st := {| node := Some n; Head := bn_hash n; Height := bn_height n |}) in *.
  assert (Hh0 : h = 0).
  { unfold h, getHeightFromTime. cbn [newRunTime chainInitTime period]. fold g.
    rewrite Z.sub_diag. apply Zdiv_0_l. }
  destruct (fresh_put_block (BlockHash g) encState encBlock Hne Hszk Hszb) as [Hbb Hpb].
  cbv zeta in Hbb, Hpb.
  assert (Hnew : NewChain cfg [] =
    Done (Some {| db := freshStore (BlockHash g) encState encBlock;
                  bi := addBlock n newBlockIndex;
                  qi := setSignedBlock h g newQueryIndex;
                  rt := setHead st (newRunTime cfg) |}, None)).
  { unfold NewChain, db_Update. fold g. rewrite Hvg. cbn [db].
    rewrite fresh_layout_1. outcome_step.
    rewrite fresh_layout_2. outcome_step.
    rewrite fresh_layout_3. outcome_step. cbn [wrapBolt].
    unfold pushBlock, db_Update.
    cbn [db bi qi rt with_db].
    change (node (getHead (newRunTime cfg))) with (@None blockNode).
    fold h. fold n. fold st. rewrite Hmb, Hms. outcome_step.
    rewrite (fresh_put_state encState Hszs). outcome_step.
    rewrite Hbb. outcome_step.
    change (indexKey (newBlockNode h g None)) with (BlockHash g).
    lazymatch goal with
    | |- context [Bucket_Put ?a ?b ?k ?v] =>
        replace (Bucket_Put a b k v)
          with (Done (@None boltError, freshStore (BlockHash g) encState encBlock))
          by (symmetry; exact Hpb)
    end.
    outcome_step.
    cbn [db bi qi rt with_db with_rt with_bi with_qi]. reflexivity. }
  destruct (fresh_store_reads (BlockHash g) encState encBlock)
    as (R1 & R2 & R3 & R4 & R5).
  cbv zeta in R1, R2, R3, R4, R5.
  eexists. eexists.
  split; [exact Hnew|]. cbn [db rt getHead setHead head Head Height].
  split; [reflexivity|].
  split; [reflexivity|].
  split; [exact Hh0|].
  split.
  - unfold LoadChain, db_View. cbn [db].
    rewrite R1. outcome_step. cbn [from_option id]. rewrite Hus.
    rewrite R2. outcome_step. rewrite R3. outcome_step.
    cbn [loadBlocks]. rewrite Hub. fold g. rewrite Hvs.
    rewrite R4. outcome_step. rewrite R5. outcome_step.
    cbn [loadHeights]. outcome_step. reflexivity.
  - cbn [db rt with_qi with_rt getHead setHead setGenesis head Head Height].
    cbn [Head Height st bn_hash bn_height n newBlockNode] in Hhead, Hheight.
    repeat split; assumption.
Qed.

End NewThenLoad.

(** ** Fetching the block of the turn from the peers *)

Section SyncBlockFacts.

Context `{BlockCaller}.

Lemma fetchBlockFromPeers_answer (self : NodeID) (h : Z) (servers : list Server) :
  forall (resp : option Block) (b : Block),
    fetchBlockFromPeers self h resp servers = Some b ->
    exists srv resp0,
      In srv servers /\ ID srv <> self /\
      CallFetchBlock (ID srv) h resp0 = (None, Some b).
Proof.
  induction servers as [|s servers IH]; intros resp b Hf; [discriminate|].
  cbn [fetchBlockFromPeers] in Hf.
  destruct (bool_decide (ID s <> self)) eqn:Hd.
  - apply bool_decide_eq_true in Hd.
    destruct (CallFetchBlock (ID s) h resp) as [e r] eqn:Hc.
    destruct e as [e|].
    + destruct (IH _ _ Hf) as (srv & resp0 & Hin & Hne & Hcall).
      exists srv, resp0. split; [right; exact Hin | split; assumption].
    + destruct r as [b'|].
      * injection Hf as <-. exists s, resp.
        split; [left; reflexivity | split; assumption].
      * destruct (IH _ _ Hf) as (srv & resp0 & Hin & Hne & Hcall).
        exists srv, resp0. split; [right; exact Hin | split; assumption].
  - destruct (IH _ _ Hf) as (srv & resp0 & Hin & Hne & Hcall).
    exists srv, resp0. split; [right; exact Hin | split; assumption].
Qed.

Lemma fetchBlockFromPeers_alone (self : NodeID) (h : Z) (servers : list Server) :
  Forall (fun s => ID s = self) servers ->
  forall resp, fetchBlockFromPeers self h resp servers = None.
Proof.
  induction 1 as [|s servers Hs _ IH]; intros resp; [reflexivity|].
  cbn [fetchBlockFromPeers].
  rewrite bool_decide_eq_false_2 by (intros Hne; apply Hne; exact Hs).
  apply IH.
Qed.

(** X19: [syncBlock] touches the channel of pending blocks only.  The chain
    and the stash stay, and the pending blocks either stay or get one block
    at their end; that block is what a call to a server of the peers other
    than the own server, for the height one below the next turn, left in the
    response while returning no error, and the head is below that height. *)
Theorem syncBlock_enqueues_peer_answer (s : blockLoop) :
  chain (syncBlock s) = chain s /\
  stash (syncBlock s) = stash s /\
  (blocks (syncBlock s) = blocks s \/
   exists b srv resp,
     blocks (syncBlock s) = blocks s ++ [b] /\
     In srv (Servers (getPeers (rt (chain s)))) /\
     ID srv <> ID (getServer (rt (chain s))) /\
     CallFetchBlock (ID srv) (wrap32 (getNextTurn (rt (chain s)) - 1)) resp
       = (None, Some b) /\
     Height (getHead (rt (chain s))) < wrap32 (getNextTurn (rt (chain s)) - 1)).
Proof.
  unfold syncBlock.
  destruct (Height (getHead (rt (chain s))) <?
            wrap32 (getNextTurn (rt (chain s)) - 1)) eqn:Hlt;
    [|repeat split; left; reflexivity].
  apply Z.ltb_lt in Hlt.
  destruct (fetchBlockFromPeers _ _ _ _) as [b|] eqn:Hf;
    [|repeat split; left; reflexivity].
  destruct (fetchBlockFromPeers_answer _ _ _ _ _ Hf) as (srv & resp & Hin & Hne & Hc).
  cbn [chain stash blocks].
  split; [reflexivity|]. split; [reflexivity|].
  right. exists b, srv, resp. repeat split; assumption.
Qed.

(** X20: a node whose peers hold no server but itself fetches nothing:
    [syncBlock] leaves the pending blocks as they are, whatever the head,
    the turn and the answers of the network. *)
Theorem syncBlock_alone (s : blockLoop) :
  Forall (fun srv => ID srv = ID (getServer (rt (chain s))))
         (Servers (getPeers (rt (chain s)))) ->
  syncBlock s = s.
Proof.
  intros Hall. unfold syncBlock.
  rewrite (fetchBlockFromPeers_alone _ _ _ Hall).
  destruct (_ <? _); reflexivity.
Qed.

End SyncBlockFacts.

(** ** Catching up with the clock *)

Section SyncFacts.

Lemma sameButTurn_refl (r : runtime) : sameButTurn r r.
Proof. unfold sameButTurn. repeat split. Qed.

Lemma sameButTurn_setNextTurn (r r' : runtime) :
  sameButTurn (setNextTurn r) r' -> sameButTurn r r'.
Proof. unfold sameButTurn. cbn. tauto. Qed.

Lemma advanceTurns_done (fuel : nat) (height : Z) :
  forall r r',
    advanceTurns fuel height r = Done r' ->
    sameButTurn r r' /\ height < getNextTurn r'.
Proof.
  induction fuel as [|fuel IH]; intros r r' Hd; [discriminate|].
  cbn [advanceTurns] in Hd.
  destruct (getNextTurn r <=? height) eqn:Hle.
  - destruct (IH _ _ Hd) as [Hs Hlt].
    split; [apply sameButTurn_setNextTurn; exact Hs | exact Hlt].
  - injection Hd as <-. apply Z.leb_gt in Hle.
    split; [apply sameButTurn_refl | lia].
Qed.

Lemma advanceTurns_reaches (height : Z) :
  height < 2 ^ 31 - 1 ->
  forall (fuel : nat) (r : runtime),
    is_int32 (getNextTurn r) ->
    getNextTurn r <= height + 1 ->
    height + 1 - getNextTurn r < Z.of_nat fuel ->
    exists r',
      advanceTurns fuel height r = Done r' /\
      sameButTurn r r' /\ getNextTurn r' = height + 1.
Proof.
  intros Hmax. induction fuel as [|fuel IH]; intros r Hint Hle Hfuel; [lia|].
  cbn [advanceTurns].
  destruct (getNextTurn r <=? height) eqn:Hc.
  - apply Z.leb_le in Hc.
    assert (Hn : getNextTurn (setNextTurn r) = getNextTurn r + 1).
    { unfold getNextTurn, setNextTurn. cbn [nextTurn].
      apply wrap32_small. unfold is_int32, getNextTurn in *. lia. }
    destruct (IH (setNextTurn r)) as (r' & Hd & Hs & Ht).
    + rewrite Hn. unfold is_int32 in *. lia.
    + rewrite Hn. lia.
    + rewrite Hn. lia.
    + exists r'. split; [exact Hd|].
      split; [apply sameButTurn_setNextTurn; exact Hs | exact Ht].
  - apply Z.leb_gt in Hc. exists r.
    split; [reflexivity|]. split; [apply sameButTurn_refl | lia].
Qed.

Lemma sameButTurn_height (r r' : runtime) (t : Z) :
  sameButTurn r r' -> getHeightFromTime r' t = getHeightFromTime r t.
Proof.
  intros (Hi & _ & Hp & _). unfold getHeightFromTime. rewrite Hi, Hp. reflexivity.
Qed.

Lemma sameButTurn_trans (r1 r2 r3 : runtime) :
  sameButTurn r1 r2 -> sameButTurn r2 r3 -> sameButTurn r1 r3.
Proof.
  unfold sameButTurn.
  intros (A1 & A2 & A3 & A4 & A5 & A6 & A7) (B1 & B2 & B3 & B4 & B5 & B6 & B7).
  repeat split; congruence.
Qed.

(** X21: what [sync] does when it returns.  It returns no error; the
    store, the block index and the query index are the same; the runtime
    differs in the next turn at most, so the head, the peers and the
    genesis stay; and the next turn is not below the height of one of the
    readings of the clock. *)
Theorem sync_only_moves_the_turn (fuel : nat) (clock : list Z) :
  forall (c c' : Chain) (e : option error),
    sync fuel clock c = Done (e, c') ->
    e = None /\
    db c' = db c /\ bi c' = bi c /\ qi c' = qi c /\
    sameButTurn (rt c) (rt c') /\
    exists now, In now clock /\
      getHeightFromTime (rt c) now <= getNextTurn (rt c').
Proof.
  induction clock as [|now clock IH]; intros c c' e Hs; [discriminate|].
  cbn [sync] in Hs.
  destruct (getNextTurn (rt c) >=? getHeightFromTime (rt c) now) eqn:Hge.
  - injection Hs as <- <-.
    split; [reflexivity|]. repeat (split; [reflexivity|]).
    split; [apply sameButTurn_refl|].
    exists now. split; [left; reflexivity|].
    rewrite Z.geb_leb in Hge. apply Z.leb_le in Hge. exact Hge.
  - revert Hs. outcome_step.
    destruct (advanceTurns fuel (getHeightFromTime (rt c) now) (rt c)) as [r| |] eqn:Ha;
      try discriminate.
    intros Hs.
    destruct (advanceTurns_done _ _ _ _ Ha) as [Hsame _].
    destruct (IH _ _ _ Hs) as (He & Hdb & Hbi & Hqi & Hrt & now' & Hin & Hle).
    destruct c as [d b q r0]. cbn [with_rt db bi qi rt] in *.
    split; [exact He|]. repeat (split; [assumption|]).
    split; [eapply sameButTurn_trans; eassumption|].
    exists now'. split; [right; exact Hin|].
    rewrite <- (sameButTurn_height _ _ now' Hsame). exact Hle.
Qed.

(** X22: [sync] catches up with the clock.  When the next turn is below
    the height of the first reading, that height is below the largest
    int32, and the second reading is at most one height later, [sync] with
    enough fuel returns with the next turn one after the height of the
    first reading. *)
Theorem sync_catches_up (fuel : nat) (now now' : Z) (clock : list Z) (c : Chain) :
  is_int32 (getNextTurn (rt c)) ->
  getNextTurn (rt c) < getHeightFromTime (rt c) now ->
  getHeightFromTime (rt c) now < 2 ^ 31 - 1 ->
  getHeightFromTime (rt c) now' <= getHeightFromTime (rt c) now + 1 ->
  getHeightFromTime (rt c) now + 1 - getNextTurn (rt c) < Z.of_nat fuel ->
  exists c',
    sync fuel (now :: now' :: clock) c = Done (None, c') /\
    getNextTurn (rt c') = getHeightFromTime (rt c) now + 1.
Proof.
  intros Hint Hlt Hmax Hnext Hfuel.
  destruct (advanceTurns_reaches _ Hmax fuel (rt c) Hint ltac:(lia) Hfuel)
    as (r' & Hd & Hs & Ht).
  exists (with_rt r' c). split.
  - cbn [sync].
    assert (Hge : (getNextTurn (rt c) >=? getHeightFromTime (rt c) now) = false)
      by (rewrite Z.geb_leb; apply Z.leb_gt; exact Hlt).
    rewrite Hge, Hd. outcome_step.
    assert (Hrt : rt (with_rt r' c) = r') by (destruct c; reflexivity).
    rewrite Hrt, (sameButTurn_height _ _ now' Hs).
    assert (Hge' : (getNextTurn r' >=? getHeightFromTime (rt c) now') = true)
      by (rewrite Z.geb_leb; apply Z.leb_le; lia).
    rewrite Hge'. reflexivity.
  - destruct c; exact Ht.
Qed.

End SyncFacts.

(** ** The queries of the worker *)

Section WorkerFacts.

Import Worker.

Context `{Collaborators}.

Lemma writeQuery_passed (cfg : DBConfig) (request : Request) :
  quotaPasses cfg ->
  writeQuery cfg request =
    match kayak_Apply request with
    | (_, Some e) => (None, Some (Wrapped e "apply failed"))
    | (IsResponse r, None) => (r, None)
    | (NotResponse, None) => (None, None)
    end.
Proof.
  intros Hq. unfold writeQuery.
  assert (Hr : (if SpaceLimit cfg >? 0 then
                  match os_Stat (filepath_Join (DataDir cfg) StorageFileName) with
                  | StatError e => Some e
                  | StatNotExist _ => None
                  | StatSize size =>
                      if to_uint64 size >? SpaceLimit cfg
                      then Some ErrSpaceLimitExceeded else None
                  end
                else None) = None).
  { destruct Hq as [Hz | [[e He] | (size & Hsz & Hle)]].
    - assert (Hg : (SpaceLimit cfg >? 0) = false)
        by (rewrite Z.gtb_ltb; apply Z.ltb_ge; exact Hz).
      rewrite Hg. reflexivity.
    - rewrite He. destruct (SpaceLimit cfg >? 0); reflexivity.
    - rewrite Hsz.
      assert (Hg : (to_uint64 size >? SpaceLimit cfg) = false)
        by (rewrite Z.gtb_ltb; apply Z.ltb_ge; exact Hle).
      rewrite Hg. destruct (SpaceLimit cfg >? 0); reflexivity. }
  rewrite Hr.
  destruct (kayak_Apply request) as [result [e|]]; destruct result; reflexivity.
Qed.

(** X23: a result of the wrong type is lost without an error.  When the
    quota check lets a write query through and [kayakRuntime.Apply] returns
    no error and a result that is not a [*types.Response], [Query] returns
    neither a response nor an error: [errors.Wrap] of the [nil] error is
    [nil]. *)
Theorem Query_wrong_result_type_is_silent (cfg : DBConfig) (request : Request) :
  QueryType_ request = WriteQuery ->
  quotaPasses cfg ->
  kayak_Apply request = (NotResponse, None) ->
  Query cfg request = (None, None).
Proof.
  intros Hty Hq Ha. unfold Query. rewrite Hty.
  rewrite (writeQuery_passed _ _ Hq), Ha. reflexivity.
Qed.

(** X24: the errors of a write query.  An error [writeQuery] returns comes
    with no response, and it is the error of [os.Stat] on the storage file
    (other than its absence), [ErrSpaceLimitExceeded] for a file larger than
    a positive limit, or the error of [kayakRuntime.Apply] wrapped as
    "apply failed"; it is never an error wrapped as "invalid response
    type". *)
Theorem writeQuery_errors (cfg : DBConfig) (request : Request)
    (resp : option Response) (e : error) :
  writeQuery cfg request = (resp, Some e) ->
  resp = None /\
  ((0 < SpaceLimit cfg /\
    os_Stat (filepath_Join (DataDir cfg) StorageFileName) = StatError e) \/
   (0 < SpaceLimit cfg /\ e = ErrSpaceLimitExceeded /\
    exists size,
      os_Stat (filepath_Join (DataDir cfg) StorageFileName) = StatSize size /\
      SpaceLimit cfg < to_uint64 size) \/
   (exists result e0,
      kayak_Apply request = (result, Some e0) /\ e = Wrapped e0 "apply failed")).
Proof.
  unfold writeQuery.
  assert (Happly :
    (let '(result, err) := kayak_Apply request in
     match err with
     | Some _ => (None, Wrap err "apply failed")
     | None => match result with
               | IsResponse r => (r, None)
               | NotResponse => (None, Wrap err "invalid response type")
               end
     end) = (resp, Some e) ->
    resp = None /\
    exists result e0,
      kayak_Apply request = (result, Some e0) /\ e = Wrapped e0 "apply failed").
  { destruct (kayak_Apply request) as [result [e0|]].
    - cbn [Wrap]. intros [= <- <-]. split; [reflexivity|].
      exists result, e0. split; reflexivity.
    - destruct result; cbn [Wrap]; discriminate. }
  destruct (SpaceLimit cfg >? 0) eqn:Hl.
  - rewrite Z.gtb_ltb in Hl. apply Z.ltb_lt in Hl.
    destruct (os_Stat (filepath_Join (DataDir cfg) StorageFileName))
      as [size|e1|e1] eqn:Hst.
    + destruct (to_uint64 size >? SpaceLimit cfg) eqn:Hsz.
      * intros [= <- <-]. rewrite Z.gtb_ltb in Hsz. apply Z.ltb_lt in Hsz.
        split; [reflexivity|]. right. left.
        split; [exact Hl|]. split; [reflexivity|].
        exists size. split; [reflexivity | exact Hsz].
      * intros Hq. destruct (Happly Hq) as [Hr Hex].
        split; [exact Hr|]. right. right. exact Hex.
    + intros Hq. destruct (Happly Hq) as [Hr Hex].
      split; [exact Hr|]. right. right. exact Hex.
    + intros [= <- <-]. split; [reflexivity|]. left. split; [exact Hl | reflexivity].
  - intros Hq. destruct (Happly Hq) as [Hr Hex].
    split; [exact Hr|]. right. right. exact Hex.
Qed.

End WorkerFacts.

(** ** The further properties at the instances *)

Section MoreAtTheInstance.

#[local] Existing Instances Example.blockCodec Example.stateCodec
  Example.responseCodec Example.ackCodec Example.verifier Example.caller
  Scenario.blockCaller Scenario.workerCollaborators.

Import Example Scenario.

Lemma ensureHeight_creates_once_witness :
  exists tx',
    ensureHeight emptyLayout (heightToKey 3)
      = Done (Some [metaBucket; metaHeightIndexBucket; heightToKey 3], None, tx') /\
    kind_at [metaBucket; metaHeightIndexBucket; heightToKey 3; metaAckIndexBucket] tx'
      = KBkt /\
    ensureHeight tx' (heightToKey 3)
      = Done (Some [metaBucket; metaHeightIndexBucket; heightToKey 3], None, tx').
Proof.
  destruct (ensureHeight emptyLayout (heightToKey 3)) as [[[hb [e|]] tx']| |] eqn:Hr;
    try (vm_compute in Hr; discriminate).
  destruct (ensureHeight_creates_once _ _ _ _ Hr) as (Hhb & _ & _ & Hnew & Hagain).
  subst hb. exists tx'. split; [reflexivity|]. split; [|exact Hagain].
  apply Hnew. vm_compute. discriminate.
Defined.

Lemma push_query_writes_one_value_witness :
  exists c',
    pushAckedQuery chainABC (mkAck 30 [9]) = Done (None, c') /\
    val_at [metaBucket; metaHeightIndexBucket; heightToKey 3; metaAckIndexBucket; [9]]
      (db c') = Some [30; 9] /\
    val_at [metaBucket; metaStateKey] (db c') = None /\
    bi c' = bi chainABC /\ rt c' = rt chainABC.
Proof.
  destruct (pushAckedQuery chainABC (mkAck 30 [9])) as [[[e|] c']| |] eqn:Hr;
    try (vm_compute in Hr; discriminate).
  destruct (proj2 (push_query_writes_one_value chainABC c') (mkAck 30 [9])
              (proj1 (emptyLayout_backed peersABC)) Hr) as (Hv & Hframe & Hbi & Hrt).
  exists c'. split; [reflexivity|]. split; [exact Hv|].
  split; [|split; assumption].
  rewrite Hframe; [reflexivity | discriminate].
Defined.

Lemma pushBlock_writes_state_and_block_witness :
  exists c',
    pushBlock chainABC (nextBlock "A") = Done (None, c') /\
    val_at [metaBucket; metaStateKey] (db c') = Some [6; 8] /\
    val_at [metaBucket; metaBlockIndexBucket; [8]] (db c') = Some [60; 7; 8] /\
    Height (getHead (rt c')) = 6 /\
    lookupNode [8] (bi c')
      = Some (newBlockNode 6 (nextBlock "A") (node (getHead (rt chainABC)))).
Proof.
  destruct (pushBlock chainABC (nextBlock "A")) as [[[e|] c']| |] eqn:Hr;
    try (vm_compute in Hr; discriminate).
  destruct (pushBlock_writes_state_and_block _ _ _ Hr) as (Hs & Hb & _ & Hh & Hn).
  exists c'. split; [reflexivity|].
  split; [exact Hs|]. split; [exact Hb|].
  split; [rewrite Hh; reflexivity | exact Hn].
Defined.


Lemma FetchBlock_after_pushBlock_witness :
  exists c',
    pushBlock chainABC (nextBlock "A") = Done (None, c') /\
    FetchBlock c' 6 = Done (Some (mkBlock "" [7] [8] 60 []), None).
Proof.
  destruct (pushBlock chainABC (nextBlock "A")) as [[[e|] c']| |] eqn:Hr;
    try (vm_compute in Hr; discriminate).
  exists c'. split; [reflexivity|].
  exact (FetchBlock_after_pushBlock _ _ _ Hr).
Defined.

(** The bytes stored at height 3 under [09] are no ack: what the decoder
    left is returned with its error. *)
Lemma FetchAckedQuery_store_ack_comes_with_error_witness :
  FetchAckedQuery 10 (with_db brokenAckStore chainABC) 3 [9]
    = Done (Some (mkAck 0 []), shortBuffer) /\
  exists v e,
    storedAck brokenAckStore 3 [9] = Some v /\
    UnmarshalBinary v = (mkAck 0 [], Some e) /\ shortBuffer = Some e.
Proof.
  split; [reflexivity|].
  apply (FetchAckedQuery_store_ack_comes_with_error 10
           (with_db brokenAckStore chainABC) 3 [9] ErrQueryNotCached (mkAck 0 [])
           shortBuffer); reflexivity.
Defined.

Lemma FetchAckedQuery_miss_witness :
  exists fuel0 : nat, forall fuel : nat, (fuel0 <= fuel)%nat ->
    FetchAckedQuery fuel chainABC 3 [9] = Done (None, None).
Proof.
  apply (FetchAckedQuery_miss chainABC 3 [9] ErrQueryNotCached);
    [reflexivity | reflexivity | left; vm_compute; discriminate | lia].
Defined.

Lemma FetchAckedQuery_max_height_never_returns_witness :
  ackLookupQuiet (db chainABC) (2 ^ 31 - 1) [9] /\
  forall fuel : nat, FetchAckedQuery fuel chainABC (2 ^ 31 - 1) [9] = OutOfFuel.
Proof.
  assert (Hq : ackLookupQuiet (db chainABC) (2 ^ 31 - 1) [9]).
  { split; [reflexivity | left; vm_compute; discriminate]. }
  split; [exact Hq|].
  apply (FetchAckedQuery_max_height_never_returns chainABC [9] ErrQueryNotCached);
    [reflexivity | exact Hq].
Defined.

(** The head is at height 5 and the TTL is 2: a response of height 2 is
    expired, one of height 3 is pushed. *)
Lemma VerifyAndPush_gate_witness :
  VerifyAndPushResponsedQuery chainABC (mkResponse 20 20 [8])
    = Done (Some ErrQueryExpired, chainABC) /\
  exists c',
    VerifyAndPushResponsedQuery chainABC (mkResponse 30 30 [8]) = Done (None, c') /\
    pushResponedQuery chainABC (mkResponse 30 30 [8]) = Done (None, c').
Proof.
  split.
  - apply (proj1 (proj2 (proj1 (VerifyAndPush_gate chainABC) (mkResponse 20 20 [8])))).
    reflexivity.
  - destruct (VerifyAndPushResponsedQuery chainABC (mkResponse 30 30 [8]))
      as [[[e|] c']| |] eqn:Hr; try (vm_compute in Hr; discriminate).
    exists c'. split; [reflexivity|].
    apply (proj1 (proj1 (VerifyAndPush_gate chainABC) (mkResponse 30 30 [8])) c' Hr).
Defined.

Lemma CheckAndPushNewBlock_accepts_as_pushBlock_witness :
  CheckAndPushNewBlock chainABC (nextBlock "A") = pushBlock chainABC (nextBlock "A").
Proof.
  apply (CheckAndPushNewBlock_accepts_as_pushBlock chainABC (nextBlock "A")).
  - intros [Hheight _]. vm_compute in Hheight. discriminate.
  - reflexivity.
  - vm_compute. reflexivity.
  - intros q Hq. apply elem_of_nil in Hq. destruct Hq.
  - reflexivity.
Defined.

(** The ack [09] the block lists is not in the query index, and no peer
    can be reached. *)
Lemma CheckAndPushNewBlock_sync_failure_witness :
  CheckAndPushNewBlock chainABC ackingBlock
    = Done (Some (ErrExternal "no route to peer"), chainABC).
Proof.
  apply (CheckAndPushNewBlock_sync_failure chainABC ackingBlock [] [9] [] _ None).
  - intros [Hheight _]. vm_compute in Hheight. discriminate.
  - reflexivity.
  - vm_compute. reflexivity.
  - reflexivity.
  - intros k Hk. apply elem_of_nil in Hk. destruct Hk.
  - reflexivity.
  - reflexivity.
Defined.


Lemma LoadChain_reads_only_witness :
  exists c err,
    LoadChain config forkStore = Done (c, err) /\
    db c = forkStore /\ bi c = newBlockIndex.
Proof.
  destruct (LoadChain config forkStore) as [[c err]| |] eqn:Hr;
    try (vm_compute in Hr; discriminate).
  exists c, err. split; [reflexivity|].
  exact (LoadChain_reads_only _ _ _ _ Hr).
Defined.

(** The genesis block [01] and its child [02]. *)
Lemma loadBlocks_linear_chain_witness :
  exists gn more,
    loadBlocks chainABC None [] [ ([1], [0; 0; 1]); ([2], [10; 1; 2]) ]
      = (None, with_rt (setGenesis (mkBlock "" [0] [1] 0 []) (rt chainABC)) chainABC,
         gn :: more) /\
    bn_block gn = mkBlock "" [0] [1] 0 [] /\ bn_parent gn = None /\
    length more = 1%nat /\ chainedFrom gn more.
Proof.
  apply (loadBlocks_linear_chain chainABC [1] [0; 0; 1] (mkBlock "" [0] [1] 0 [])
           [ ([2], [10; 1; 2]) ]).
  - reflexivity.
  - reflexivity.
  - exists (mkBlock "" [1] [2] 10 []). repeat split; reflexivity.
Defined.

Lemma LoadChain_after_NewChain_witness :
  exists c1 c2,
    NewChain genesisConfig [] = Done (Some c1, None) /\
    db c1 = freshStore [1] [0; 1] [0; 0; 1] /\
    Head (getHead (rt c1)) = [1] /\
    Height (getHead (rt c1)) = 0 /\
    LoadChain genesisConfig (db c1) = Done (c2, None) /\
    Head (getHead (rt c2)) = Head (getHead (rt c1)) /\
    Height (getHead (rt c2)) = Height (getHead (rt c1)) /\
    db c2 = db c1.
Proof.
  apply (LoadChain_after_NewChain genesisConfig [0; 0; 1] [0; 1]
           {| node := None; Head := [1]; Height := 0 |});
    try reflexivity; try discriminate; vm_compute; discriminate.
Defined.

Lemma syncBlock_alone_witness :
  syncBlock (idle chainAlone) = idle chainAlone.
Proof.
  apply (syncBlock_alone (idle chainAlone)).
  repeat constructor.
Defined.

(** One turn behind, the block of height 6 is fetched from ["B"]; ["A"] is
    the node itself. *)
Example syncBlock_fetches_from_B :
  syncBlock (idle chainBehind)
    = {| chain := chainBehind; blocks := [mkBlock "B" [7] [8] 60 []]; stash := None |}.
Proof. vm_compute. reflexivity. Qed.

(** The clock reads a time of height 7 while the next turn is 6. *)
Lemma sync_only_moves_the_turn_witness :
  exists c',
    sync 10 [75; 75] chainABC = Done (None, c') /\
    db c' = db chainABC /\ bi c' = bi chainABC /\ qi c' = qi chainABC /\
    head (rt c') = head (rt chainABC) /\ 7 <= getNextTurn (rt c').
Proof.
  destruct (sync 10 [75; 75] chainABC) as [[e c']| |] eqn:Hr;
    try (vm_compute in Hr; discriminate).
  destruct (sync_only_moves_the_turn _ _ _ _ _ Hr)
    as (He & Hdb & Hbi & Hqi & Hsame & now & Hin & Hle).
  subst e. exists c'. split; [reflexivity|].
  repeat (split; [assumption|]).
  split; [apply Hsame|].
  destruct Hin as [<- | [<- | []]]; exact Hle.
Defined.

Lemma sync_catches_up_witness :
  exists c',
    sync 10 [75; 75] chainABC = Done (None, c') /\ getNextTurn (rt c') = 8.
Proof.
  apply (sync_catches_up 10 75 75 [] chainABC);
    [unfold is_int32; simpl; lia | reflexivity | reflexivity
    | vm_compute; discriminate | reflexivity].
Defined.

Lemma Query_wrong_result_type_is_silent_witness :
  Worker.Query unlimited emptyWrite = (None, None).
Proof.
  apply (Query_wrong_result_type_is_silent unlimited emptyWrite);
    [reflexivity | left; simpl; lia | reflexivity].
Defined.

(** The storage file holds 4096 bytes, the limit is 1024. *)
Lemma writeQuery_errors_witness :
  Worker.writeQuery limited emptyWrite = (None, Some Worker.ErrSpaceLimitExceeded) /\
  exists size,
    Worker.os_Stat (Worker.filepath_Join (Worker.DataDir limited) Worker.StorageFileName)
      = Worker.StatSize size /\
    Worker.SpaceLimit limited < Worker.to_uint64 size.
Proof.
  assert (Hw : Worker.writeQuery limited emptyWrite
               = (None, Some Worker.ErrSpaceLimitExceeded)) by reflexivity.
  split; [exact Hw|].
  destruct (writeQuery_errors limited emptyWrite None Worker.ErrSpaceLimitExceeded Hw)
    as [_ [[_ Hst] | [(_ & _ & Hex) | (r & e0 & _ & He)]]];
    [discriminate Hst | exact Hex | discriminate He].
Defined.

End MoreAtTheInstance.

(** ** A verifier that rejects the blocks *)

Section AtTheRejectingVerifier.

#[local] Existing Instances Example.blockCodec Example.stateCodec
  Example.responseCodec Example.ackCodec Scenario.rejectingVerifier Example.caller.

Import Example Scenario.

Lemma CheckAndPushNewBlock_unverified_never_pushed_witness :
  exists err c',
    CheckAndPushNewBlock chainABC (nextBlock "A") = Done (err, c') /\
    err <> None /\ rt c' = rt chainABC /\ bi c' = bi chainABC.
Proof.
  destruct (CheckAndPushNewBlock chainABC (nextBlock "A")) as [[err c']| |] eqn:Hr;
    try (vm_compute in Hr; discriminate).
  assert (Hv : Block_Verify (nextBlock "A") = Some (ErrExternal "bad signature"))
    by reflexivity.
  destruct (CheckAndPushNewBlock_unverified_never_pushed chainABC c' (nextBlock "A")
              (ErrExternal "bad signature") err Hv Hr) as (Hrt & Hbi & Hnil).
  exists err, c'. split; [reflexivity|].
  split; [|split; assumption].
  intros He. destruct (Hnil He) as [[Hheight _] _]. vm_compute in Hheight. discriminate.
Defined.

End AtTheRejectingVerifier.
